(** * Cinematic scene timeline of the video generator component

    A shallow embedding of the [VideoGenerator] React component
    (scene timeline, auto-generation sequencer, voiceover/merge callbacks
    and the movie playback effect), followed by the properties of its
    orchestration logic.

    Conventions of the embedding.
    - A JavaScript [number] that the component computes with is an
      integer or [NaN]; it is a [number] below.  Counters that can never
      be [NaN] are plain [Z] or [nat].
    - A string is the UTF-8 text of the JavaScript string.
    - An optional field ([audioUrl?: string]) is an [option]; JavaScript
      truthiness of strings and numbers is written out ([truthy],
      [num_truthy]).
    - The values held by the [useState] hooks form the record [Hooks].
      A handler created by one render reads the hooks of that render: it
      takes them as its closure argument [c].  Functional updates
      ([setTimeline(prev => ...)]) act on the live hooks of the [World].
    - Every [await] of an outside operation parks a [task] in the world;
      every [setTimeout] parks a [timer].  The outside settles tasks and
      lets time pass through [event]s. *)

From Stdlib Require Import ZArith Ascii String DecimalString DecimalZ DecimalPos Sorted.
From stdpp Require Import base option list strings gmap.

#[local] Open Scope string_scope.
#[local] Open Scope Z_scope.

(** ** JavaScript values *)

Inductive number :=
| Num (z : Z)
| NaN.

#[global] Instance number_eq_dec : EqDecision number.
Proof. solve_decision. Defined.

(** [n || d] on numbers: [0] and [NaN] are falsy. *)
Definition num_truthy (n : number) : bool :=
  match n with
  | Num z => negb (z =? 0)
  | NaN => false
  end.

Definition num_or (n : number) (d : Z) : Z :=
  match n with
  | Num z => if z =? 0 then d else z
  | NaN => d
  end.

(** Comparisons with a [number] on the right; any comparison with [NaN]
    is false. *)
Definition lt_num (a : Z) (n : number) : bool :=
  match n with
  | Num z => a <? z
  | NaN => false
  end.

Definition ge_num (a : Z) (n : number) : bool :=
  match n with
  | Num z => z <=? a
  | NaN => false
  end.

(** A string is truthy when it is not empty; an absent optional string
    is [undefined], which is falsy. *)
Definition truthy (s : string) : bool :=
  match s with
  | EmptyString => false
  | String _ _ => true
  end.

Definition opt_truthy (o : option string) : bool :=
  match o with
  | Some s => truthy s
  | None => false
  end.

(** [a || b] where [a] is an optional string and [b] a string. *)
Definition str_or (a : option string) (b : string) : string :=
  match a with
  | Some s => if truthy s then s else b
  | None => b
  end.

(** White space as [String.prototype.trim] and [parseInt] skip it: the
    code points of ECMAScript's WhiteSpace and LineTerminator, in their
    UTF-8 form.  One byte: TAB, LF, VT, FF, CR, SPACE. *)
Definition is_ws (a : ascii) : bool :=
  let n := N_of_ascii a in
  ((9 <=? n) && (n <=? 13))%N || (n =? 32)%N.

(** Two bytes: U+00A0 (C2 A0). *)
Definition is_ws2 (a b : ascii) : bool :=
  ((N_of_ascii a =? 194) && (N_of_ascii b =? 160))%N.

(** Three bytes: U+1680 (E1 9A 80), U+2000 to U+200A (E2 80 80 to 8A),
    U+2028, U+2029, U+202F (E2 80 A8, A9, AF), U+205F (E2 81 9F),
    U+3000 (E3 80 80) and U+FEFF (EF BB BF). *)
Definition is_ws3 (a b c : ascii) : bool :=
  let x := N_of_ascii a in
  let y := N_of_ascii b in
  let z := N_of_ascii c in
  ((x =? 225) && (y =? 154) && (z =? 128)
   || (x =? 226) && (y =? 128)
      && ((128 <=? z) && (z <=? 138) || (z =? 168) || (z =? 169) || (z =? 175))
   || (x =? 226) && (y =? 129) && (z =? 159)
   || (x =? 227) && (y =? 128) && (z =? 128)
   || (x =? 239) && (y =? 187) && (z =? 191))%N.

(** The text without the white space it starts with; with [backwards]
    the bytes of each code point come in reverse order, as they do in a
    reversed text. *)
Fixpoint strip_ws (backwards : bool) (s : string) : string :=
  match s with
  | String a s1 =>
      if is_ws a then strip_ws backwards s1
      else
        match s1 with
        | String b s2 =>
            if (if backwards then is_ws2 b a else is_ws2 a b)
            then strip_ws backwards s2
            else
              match s2 with
              | String c s3 =>
                  if (if backwards then is_ws3 c b a else is_ws3 a b c)
                  then strip_ws backwards s3
                  else s
              | EmptyString => s
              end
        | EmptyString => s
        end
  | EmptyString => EmptyString
  end.

Definition trimStart (s : string) : string := strip_ws false s.

Definition rev_string (s : string) : string :=
  string_of_list_ascii (rev (list_ascii_of_string s)).

Definition trimEnd (s : string) : string :=
  rev_string (strip_ws true (rev_string s)).

Definition trim (s : string) : string := trimEnd (trimStart s).

(** [s1.includes(s2)] and [s1.startsWith(s2)]. *)
Definition includes (s needle : string) : bool :=
  match String.index 0 needle s with
  | Some _ => true
  | None => false
  end.

Definition startsWith (s p : string) : bool := String.prefix p s.

(** Value of a digit in the given radix. *)
Definition digit_of (radix : Z) (a : ascii) : option Z :=
  let n := Z.of_N (N_of_ascii a) in
  let v :=
    if (48 <=? n) && (n <=? 57) then Some (n - 48)
    else if (97 <=? n) && (n <=? 122) then Some (n - 87)
    else if (65 <=? n) && (n <=? 90) then Some (n - 55)
    else None in
  match v with
  | Some d => if d <? radix then Some d else None
  | None => None
  end.

(** The longest prefix of digits; [None] when there is no digit. *)
Fixpoint parse_digits (radix : Z) (s : string) (acc : option Z) : option Z :=
  match s with
  | String a s' =>
      match digit_of radix a with
      | Some d => parse_digits radix s' (Some (radix * default 0 acc + d))
      | None => acc
      end
  | EmptyString => acc
  end.

(** [parseInt(s)] without a radix argument: leading white space, an
    optional sign, an optional [0x] prefix, then digits.  (Results are
    exact integers; the rounding of doubles beyond 2^53 and the sign of
    a negative zero are not represented.) *)
Definition parseInt (s : string) : number :=
  let s := trimStart s in
  let '(sign, s) :=
    match s with
    | String "-" s' => (-1, s')
    | String "+" s' => (1, s')
    | _ => (1, s)
    end in
  let '(radix, s) :=
    match s with
    | String "0" (String "x" s') => (16, s')
    | String "0" (String "X" s') => (16, s')
    | _ => (10, s)
    end in
  match parse_digits radix s None with
  | Some z => Num (sign * z)
  | None => NaN
  end.

(** [n.toString()] for an integer. *)
Definition toString (z : Z) : string :=
  NilZero.string_of_int (Z.to_int z).

(** ** Scenes *)

Inductive TransitionType := cut | fade | slide.

#[global] Instance TransitionType_eq_dec : EqDecision TransitionType.
Proof. solve_decision. Defined.

(** [asset: any] is the generator's continuation token; the component
    only passes it back, so a handle stands for it. *)
Definition Asset := string.

Module Scene.

Record VideoScene := {
  id : string;
  url : string;
  asset : Asset;
  prompt : string;
  duration : number;
  transition : TransitionType;
  audioUrl : option string;
  audioScript : option string;
  mergedUrl : option string;
  isMerging : option bool
}.

(** [{ ...s, duration: val }] *)
Definition with_duration (val : number) (s : VideoScene) : VideoScene :=
  {| id := id s; url := url s; asset := asset s; prompt := prompt s;
     duration := val; transition := transition s;
     audioUrl := audioUrl s; audioScript := audioScript s;
     mergedUrl := mergedUrl s; isMerging := isMerging s |}.

(** [{ ...s, transition: nextType }] *)
Definition with_transition (t : TransitionType) (s : VideoScene) : VideoScene :=
  {| id := id s; url := url s; asset := asset s; prompt := prompt s;
     duration := duration s; transition := t;
     audioUrl := audioUrl s; audioScript := audioScript s;
     mergedUrl := mergedUrl s; isMerging := isMerging s |}.

(** [{ ...s, audioUrl, audioScript: text, isMerging: true }] *)
Definition with_audio (a text : string) (s : VideoScene) : VideoScene :=
  {| id := id s; url := url s; asset := asset s; prompt := prompt s;
     duration := duration s; transition := transition s;
     audioUrl := Some a; audioScript := Some text;
     mergedUrl := mergedUrl s; isMerging := Some true |}.

(** [{ ...s, mergedUrl, isMerging: false }] *)
Definition with_merged (m : string) (s : VideoScene) : VideoScene :=
  {| id := id s; url := url s; asset := asset s; prompt := prompt s;
     duration := duration s; transition := transition s;
     audioUrl := audioUrl s; audioScript := audioScript s;
     mergedUrl := Some m; isMerging := Some false |}.

(** [{ ...s, isMerging: false }] *)
Definition with_merge_failed (s : VideoScene) : VideoScene :=
  {| id := id s; url := url s; asset := asset s; prompt := prompt s;
     duration := duration s; transition := transition s;
     audioUrl := audioUrl s; audioScript := audioScript s;
     mergedUrl := mergedUrl s; isMerging := Some false |}.

End Scene.

Abbreviation VideoScene := Scene.VideoScene.

(** [prev.map((s, i) => i === index ? f(s) : s)] *)
Definition patch_at (index : nat) (f : VideoScene → VideoScene)
    (prev : list VideoScene) : list VideoScene :=
  imap (λ i s, if decide (i = index) then f s else s) prev.

(** [prev.map(s => s.id === sceneId ? f(s) : s)] *)
Definition patch_id (sceneId : string) (f : VideoScene → VideoScene)
    (prev : list VideoScene) : list VideoScene :=
  (λ s, if decide (Scene.id s = sceneId) then f s else s) <$> prev.

(** [types[(types.indexOf(t) + 1) % types.length]] for
    [types = ['cut', 'fade', 'slide']]. *)
Definition next_transition (t : TransitionType) : TransitionType :=
  match t with
  | cut => fade
  | fade => slide
  | slide => cut
  end.

(** ** The component's state

    The [useState] values of [VideoGenerator] that the handlers below
    read or write, in the order of their declaration.  (The request
    settings [aspectRatio], [resolution], [frameRate], [characterLock]
    and [seed] are only handed to the generator and are left out, as are
    the tab and export-dialog flags.) *)

Inductive OutputFormat := MP4 | GIF.
Inductive PlayerId := PlayerA | PlayerB.

#[global] Instance PlayerId_eq_dec : EqDecision PlayerId.
Proof. solve_decision. Defined.

(** Volumes are fractions in the source; they are never compared or
    computed with, so hundredths stand for them. *)
Definition Volume := N.

Record Hooks := {
  (* Inputs *)
  selectedImage : option string;
  prompt : string;
  (* Generation state *)
  isGenerating : bool;
  isAutoGenerating : bool;
  autoGenCount : number;
  isAutoAudio : bool;
  (* Cooldown state *)
  coolDown : Z;
  (* Timeline / story state *)
  timeline : list VideoScene;
  selectedSceneIds : gset string;
  activeSceneIndex : nat;
  isPlayingAll : bool;
  (* Settings *)
  sceneDuration : number;
  stylePreset : string;
  motionIntensity : Z;
  consistency : Z;
  outputFormat : OutputFormat;
  isLooping : bool;
  (* Audio and voiceover state *)
  voiceText : string;
  voiceName : string;
  isGeneratingAudio : bool;
  videoVolume : Volume;
  voiceVolume : Volume;
  (* Error state *)
  error : option string;
  isApiKeyError : bool;
  isSafetyError : bool;
  isQuotaError : bool;
  (* Seamless playback *)
  activePlayer : PlayerId;
  isTransitioning : bool;
  transitionType : TransitionType
}.

(** Field updates of [Hooks], one per hook that is ever set. *)

Definition upd_prompt (v : string) (h : Hooks) : Hooks :=
  {| selectedImage := selectedImage h; prompt := v;
     isGenerating := isGenerating h; isAutoGenerating := isAutoGenerating h;
     autoGenCount := autoGenCount h; isAutoAudio := isAutoAudio h;
     coolDown := coolDown h; timeline := timeline h;
     selectedSceneIds := selectedSceneIds h;
     activeSceneIndex := activeSceneIndex h; isPlayingAll := isPlayingAll h;
     sceneDuration := sceneDuration h; stylePreset := stylePreset h;
     motionIntensity := motionIntensity h; consistency := consistency h;
     outputFormat := outputFormat h; isLooping := isLooping h;
     voiceText := voiceText h; voiceName := voiceName h;
     isGeneratingAudio := isGeneratingAudio h; videoVolume := videoVolume h;
     voiceVolume := voiceVolume h; error := error h;
     isApiKeyError := isApiKeyError h; isSafetyError := isSafetyError h;
     isQuotaError := isQuotaError h; activePlayer := activePlayer h;
     isTransitioning := isTransitioning h;
     transitionType := transitionType h |}.

Definition upd_isGenerating (v : bool) (h : Hooks) : Hooks :=
  {| selectedImage := selectedImage h; prompt := prompt h; isGenerating := v;
     isAutoGenerating := isAutoGenerating h; autoGenCount := autoGenCount h;
     isAutoAudio := isAutoAudio h; coolDown := coolDown h;
     timeline := timeline h; selectedSceneIds := selectedSceneIds h;
     activeSceneIndex := activeSceneIndex h; isPlayingAll := isPlayingAll h;
     sceneDuration := sceneDuration h; stylePreset := stylePreset h;
     motionIntensity := motionIntensity h; consistency := consistency h;
     outputFormat := outputFormat h; isLooping := isLooping h;
     voiceText := voiceText h; voiceName := voiceName h;
     isGeneratingAudio := isGeneratingAudio h; videoVolume := videoVolume h;
     voiceVolume := voiceVolume h; error := error h;
     isApiKeyError := isApiKeyError h; isSafetyError := isSafetyError h;
     isQuotaError := isQuotaError h; activePlayer := activePlayer h;
     isTransitioning := isTransitioning h;
     transitionType := transitionType h |}.

Definition upd_isAutoGenerating (v : bool) (h : Hooks) : Hooks :=
  {| selectedImage := selectedImage h; prompt := prompt h;
     isGenerating := isGenerating h; isAutoGenerating := v;
     autoGenCount := autoGenCount h; isAutoAudio := isAutoAudio h;
     coolDown := coolDown h; timeline := timeline h;
     selectedSceneIds := selectedSceneIds h;
     activeSceneIndex := activeSceneIndex h; isPlayingAll := isPlayingAll h;
     sceneDuration := sceneDuration h; stylePreset := stylePreset h;
     motionIntensity := motionIntensity h; consistency := consistency h;
     outputFormat := outputFormat h; isLooping := isLooping h;
     voiceText := voiceText h; voiceName := voiceName h;
     isGeneratingAudio := isGeneratingAudio h; videoVolume := videoVolume h;
     voiceVolume := voiceVolume h; error := error h;
     isApiKeyError := isApiKeyError h; isSafetyError := isSafetyError h;
     isQuotaError := isQuotaError h; activePlayer := activePlayer h;
     isTransitioning := isTransitioning h;
     transitionType := transitionType h |}.

Definition upd_autoGenCount (v : number) (h : Hooks) : Hooks :=
  {| selectedImage := selectedImage h; prompt := prompt h;
     isGenerating := isGenerating h; isAutoGenerating := isAutoGenerating h;
     autoGenCount := v; isAutoAudio := isAutoAudio h; coolDown := coolDown h;
     timeline := timeline h; selectedSceneIds := selectedSceneIds h;
     activeSceneIndex := activeSceneIndex h; isPlayingAll := isPlayingAll h;
     sceneDuration := sceneDuration h; stylePreset := stylePreset h;
     motionIntensity := motionIntensity h; consistency := consistency h;
     outputFormat := outputFormat h; isLooping := isLooping h;
     voiceText := voiceText h; voiceName := voiceName h;
     isGeneratingAudio := isGeneratingAudio h; videoVolume := videoVolume h;
     voiceVolume := voiceVolume h; error := error h;
     isApiKeyError := isApiKeyError h; isSafetyError := isSafetyError h;
     isQuotaError := isQuotaError h; activePlayer := activePlayer h;
     isTransitioning := isTransitioning h;
     transitionType := transitionType h |}.

Definition upd_isAutoAudio (v : bool) (h : Hooks) : Hooks :=
  {| selectedImage := selectedImage h; prompt := prompt h;
     isGenerating := isGenerating h; isAutoGenerating := isAutoGenerating h;
     autoGenCount := autoGenCount h; isAutoAudio := v;
     coolDown := coolDown h; timeline := timeline h;
     selectedSceneIds := selectedSceneIds h;
     activeSceneIndex := activeSceneIndex h; isPlayingAll := isPlayingAll h;
     sceneDuration := sceneDuration h; stylePreset := stylePreset h;
     motionIntensity := motionIntensity h; consistency := consistency h;
     outputFormat := outputFormat h; isLooping := isLooping h;
     voiceText := voiceText h; voiceName := voiceName h;
     isGeneratingAudio := isGeneratingAudio h; videoVolume := videoVolume h;
     voiceVolume := voiceVolume h; error := error h;
     isApiKeyError := isApiKeyError h; isSafetyError := isSafetyError h;
     isQuotaError := isQuotaError h; activePlayer := activePlayer h;
     isTransitioning := isTransitioning h;
     transitionType := transitionType h |}.

Definition upd_coolDown (v : Z) (h : Hooks) : Hooks :=
  {| selectedImage := selectedImage h; prompt := prompt h;
     isGenerating := isGenerating h; isAutoGenerating := isAutoGenerating h;
     autoGenCount := autoGenCount h; isAutoAudio := isAutoAudio h;
     coolDown := v; timeline := timeline h;
     selectedSceneIds := selectedSceneIds h;
     activeSceneIndex := activeSceneIndex h; isPlayingAll := isPlayingAll h;
     sceneDuration := sceneDuration h; stylePreset := stylePreset h;
     motionIntensity := motionIntensity h; consistency := consistency h;
     outputFormat := outputFormat h; isLooping := isLooping h;
     voiceText := voiceText h; voiceName := voiceName h;
     isGeneratingAudio := isGeneratingAudio h; videoVolume := videoVolume h;
     voiceVolume := voiceVolume h; error := error h;
     isApiKeyError := isApiKeyError h; isSafetyError := isSafetyError h;
     isQuotaError := isQuotaError h; activePlayer := activePlayer h;
     isTransitioning := isTransitioning h;
     transitionType := transitionType h |}.

Definition upd_timeline (v : list VideoScene) (h : Hooks) : Hooks :=
  {| selectedImage := selectedImage h; prompt := prompt h;
     isGenerating := isGenerating h; isAutoGenerating := isAutoGenerating h;
     autoGenCount := autoGenCount h; isAutoAudio := isAutoAudio h;
     coolDown := coolDown h; timeline := v;
     selectedSceneIds := selectedSceneIds h;
     activeSceneIndex := activeSceneIndex h; isPlayingAll := isPlayingAll h;
     sceneDuration := sceneDuration h; stylePreset := stylePreset h;
     motionIntensity := motionIntensity h; consistency := consistency h;
     outputFormat := outputFormat h; isLooping := isLooping h;
     voiceText := voiceText h; voiceName := voiceName h;
     isGeneratingAudio := isGeneratingAudio h; videoVolume := videoVolume h;
     voiceVolume := voiceVolume h; error := error h;
     isApiKeyError := isApiKeyError h; isSafetyError := isSafetyError h;
     isQuotaError := isQuotaError h; activePlayer := activePlayer h;
     isTransitioning := isTransitioning h;
     transitionType := transitionType h |}.

Definition upd_selectedSceneIds (v : gset string) (h : Hooks) : Hooks :=
  {| selectedImage := selectedImage h; prompt := prompt h;
     isGenerating := isGenerating h; isAutoGenerating := isAutoGenerating h;
     autoGenCount := autoGenCount h; isAutoAudio := isAutoAudio h;
     coolDown := coolDown h; timeline := timeline h; selectedSceneIds := v;
     activeSceneIndex := activeSceneIndex h; isPlayingAll := isPlayingAll h;
     sceneDuration := sceneDuration h; stylePreset := stylePreset h;
     motionIntensity := motionIntensity h; consistency := consistency h;
     outputFormat := outputFormat h; isLooping := isLooping h;
     voiceText := voiceText h; voiceName := voiceName h;
     isGeneratingAudio := isGeneratingAudio h; videoVolume := videoVolume h;
     voiceVolume := voiceVolume h; error := error h;
     isApiKeyError := isApiKeyError h; isSafetyError := isSafetyError h;
     isQuotaError := isQuotaError h; activePlayer := activePlayer h;
     isTransitioning := isTransitioning h;
     transitionType := transitionType h |}.

Definition upd_activeSceneIndex (v : nat) (h : Hooks) : Hooks :=
  {| selectedImage := selectedImage h; prompt := prompt h;
     isGenerating := isGenerating h; isAutoGenerating := isAutoGenerating h;
     autoGenCount := autoGenCount h; isAutoAudio := isAutoAudio h;
     coolDown := coolDown h; timeline := timeline h;
     selectedSceneIds := selectedSceneIds h; activeSceneIndex := v;
     isPlayingAll := isPlayingAll h; sceneDuration := sceneDuration h;
     stylePreset := stylePreset h; motionIntensity := motionIntensity h;
     consistency := consistency h; outputFormat := outputFormat h;
     isLooping := isLooping h; voiceText := voiceText h;
     voiceName := voiceName h; isGeneratingAudio := isGeneratingAudio h;
     videoVolume := videoVolume h; voiceVolume := voiceVolume h;
     error := error h; isApiKeyError := isApiKeyError h;
     isSafetyError := isSafetyError h; isQuotaError := isQuotaError h;
     activePlayer := activePlayer h; isTransitioning := isTransitioning h;
     transitionType := transitionType h |}.

Definition upd_isPlayingAll (v : bool) (h : Hooks) : Hooks :=
  {| selectedImage := selectedImage h; prompt := prompt h;
     isGenerating := isGenerating h; isAutoGenerating := isAutoGenerating h;
     autoGenCount := autoGenCount h; isAutoAudio := isAutoAudio h;
     coolDown := coolDown h; timeline := timeline h;
     selectedSceneIds := selectedSceneIds h;
     activeSceneIndex := activeSceneIndex h; isPlayingAll := v;
     sceneDuration := sceneDuration h; stylePreset := stylePreset h;
     motionIntensity := motionIntensity h; consistency := consistency h;
     outputFormat := outputFormat h; isLooping := isLooping h;
     voiceText := voiceText h; voiceName := voiceName h;
     isGeneratingAudio := isGeneratingAudio h; videoVolume := videoVolume h;
     voiceVolume := voiceVolume h; error := error h;
     isApiKeyError := isApiKeyError h; isSafetyError := isSafetyError h;
     isQuotaError := isQuotaError h; activePlayer := activePlayer h;
     isTransitioning := isTransitioning h;
     transitionType := transitionType h |}.

Definition upd_sceneDuration (v : number) (h : Hooks) : Hooks :=
  {| selectedImage := selectedImage h; prompt := prompt h;
     isGenerating := isGenerating h; isAutoGenerating := isAutoGenerating h;
     autoGenCount := autoGenCount h; isAutoAudio := isAutoAudio h;
     coolDown := coolDown h; timeline := timeline h;
     selectedSceneIds := selectedSceneIds h;
     activeSceneIndex := activeSceneIndex h; isPlayingAll := isPlayingAll h;
     sceneDuration := v; stylePreset := stylePreset h;
     motionIntensity := motionIntensity h; consistency := consistency h;
     outputFormat := outputFormat h; isLooping := isLooping h;
     voiceText := voiceText h; voiceName := voiceName h;
     isGeneratingAudio := isGeneratingAudio h; videoVolume := videoVolume h;
     voiceVolume := voiceVolume h; error := error h;
     isApiKeyError := isApiKeyError h; isSafetyError := isSafetyError h;
     isQuotaError := isQuotaError h; activePlayer := activePlayer h;
     isTransitioning := isTransitioning h;
     transitionType := transitionType h |}.

Definition upd_voiceText (v : string) (h : Hooks) : Hooks :=
  {| selectedImage := selectedImage h; prompt := prompt h;
     isGenerating := isGenerating h; isAutoGenerating := isAutoGenerating h;
     autoGenCount := autoGenCount h; isAutoAudio := isAutoAudio h;
     coolDown := coolDown h; timeline := timeline h;
     selectedSceneIds := selectedSceneIds h;
     activeSceneIndex := activeSceneIndex h; isPlayingAll := isPlayingAll h;
     sceneDuration := sceneDuration h; stylePreset := stylePreset h;
     motionIntensity := motionIntensity h; consistency := consistency h;
     outputFormat := outputFormat h; isLooping := isLooping h;
     voiceText := v; voiceName := voiceName h;
     isGeneratingAudio := isGeneratingAudio h; videoVolume := videoVolume h;
     voiceVolume := voiceVolume h; error := error h;
     isApiKeyError := isApiKeyError h; isSafetyError := isSafetyError h;
     isQuotaError := isQuotaError h; activePlayer := activePlayer h;
     isTransitioning := isTransitioning h;
     transitionType := transitionType h |}.

Definition upd_isGeneratingAudio (v : bool) (h : Hooks) : Hooks :=
  {| selectedImage := selectedImage h; prompt := prompt h;
     isGenerating := isGenerating h; isAutoGenerating := isAutoGenerating h;
     autoGenCount := autoGenCount h; isAutoAudio := isAutoAudio h;
     coolDown := coolDown h; timeline := timeline h;
     selectedSceneIds := selectedSceneIds h;
     activeSceneIndex := activeSceneIndex h; isPlayingAll := isPlayingAll h;
     sceneDuration := sceneDuration h; stylePreset := stylePreset h;
     motionIntensity := motionIntensity h; consistency := consistency h;
     outputFormat := outputFormat h; isLooping := isLooping h;
     voiceText := voiceText h; voiceName := voiceName h;
     isGeneratingAudio := v; videoVolume := videoVolume h;
     voiceVolume := voiceVolume h; error := error h;
     isApiKeyError := isApiKeyError h; isSafetyError := isSafetyError h;
     isQuotaError := isQuotaError h; activePlayer := activePlayer h;
     isTransitioning := isTransitioning h;
     transitionType := transitionType h |}.

Definition upd_error (v : option string) (h : Hooks) : Hooks :=
  {| selectedImage := selectedImage h; prompt := prompt h;
     isGenerating := isGenerating h; isAutoGenerating := isAutoGenerating h;
     autoGenCount := autoGenCount h; isAutoAudio := isAutoAudio h;
     coolDown := coolDown h; timeline := timeline h;
     selectedSceneIds := selectedSceneIds h;
     activeSceneIndex := activeSceneIndex h; isPlayingAll := isPlayingAll h;
     sceneDuration := sceneDuration h; stylePreset := stylePreset h;
     motionIntensity := motionIntensity h; consistency := consistency h;
     outputFormat := outputFormat h; isLooping := isLooping h;
     voiceText := voiceText h; voiceName := voiceName h;
     isGeneratingAudio := isGeneratingAudio h; videoVolume := videoVolume h;
     voiceVolume := voiceVolume h; error := v;
     isApiKeyError := isApiKeyError h; isSafetyError := isSafetyError h;
     isQuotaError := isQuotaError h; activePlayer := activePlayer h;
     isTransitioning := isTransitioning h;
     transitionType := transitionType h |}.

Definition upd_isApiKeyError (v : bool) (h : Hooks) : Hooks :=
  {| selectedImage := selectedImage h; prompt := prompt h;
     isGenerating := isGenerating h; isAutoGenerating := isAutoGenerating h;
     autoGenCount := autoGenCount h; isAutoAudio := isAutoAudio h;
     coolDown := coolDown h; timeline := timeline h;
     selectedSceneIds := selectedSceneIds h;
     activeSceneIndex := activeSceneIndex h; isPlayingAll := isPlayingAll h;
     sceneDuration := sceneDuration h; stylePreset := stylePreset h;
     motionIntensity := motionIntensity h; consistency := consistency h;
     outputFormat := outputFormat h; isLooping := isLooping h;
     voiceText := voiceText h; voiceName := voiceName h;
     isGeneratingAudio := isGeneratingAudio h; videoVolume := videoVolume h;
     voiceVolume := voiceVolume h; error := error h; isApiKeyError := v;
     isSafetyError := isSafetyError h; isQuotaError := isQuotaError h;
     activePlayer := activePlayer h; isTransitioning := isTransitioning h;
     transitionType := transitionType h |}.

Definition upd_isSafetyError (v : bool) (h : Hooks) : Hooks :=
  {| selectedImage := selectedImage h; prompt := prompt h;
     isGenerating := isGenerating h; isAutoGenerating := isAutoGenerating h;
     autoGenCount := autoGenCount h; isAutoAudio := isAutoAudio h;
     coolDown := coolDown h; timeline := timeline h;
     selectedSceneIds := selectedSceneIds h;
     activeSceneIndex := activeSceneIndex h; isPlayingAll := isPlayingAll h;
     sceneDuration := sceneDuration h; stylePreset := stylePreset h;
     motionIntensity := motionIntensity h; consistency := consistency h;
     outputFormat := outputFormat h; isLooping := isLooping h;
     voiceText := voiceText h; voiceName := voiceName h;
     isGeneratingAudio := isGeneratingAudio h; videoVolume := videoVolume h;
     voiceVolume := voiceVolume h; error := error h;
     isApiKeyError := isApiKeyError h; isSafetyError := v;
     isQuotaError := isQuotaError h; activePlayer := activePlayer h;
     isTransitioning := isTransitioning h;
     transitionType := transitionType h |}.

Definition upd_isQuotaError (v : bool) (h : Hooks) : Hooks :=
  {| selectedImage := selectedImage h; prompt := prompt h;
     isGenerating := isGenerating h; isAutoGenerating := isAutoGenerating h;
     autoGenCount := autoGenCount h; isAutoAudio := isAutoAudio h;
     coolDown := coolDown h; timeline := timeline h;
     selectedSceneIds := selectedSceneIds h;
     activeSceneIndex := activeSceneIndex h; isPlayingAll := isPlayingAll h;
     sceneDuration := sceneDuration h; stylePreset := stylePreset h;
     motionIntensity := motionIntensity h; consistency := consistency h;
     outputFormat := outputFormat h; isLooping := isLooping h;
     voiceText := voiceText h; voiceName := voiceName h;
     isGeneratingAudio := isGeneratingAudio h; videoVolume := videoVolume h;
     voiceVolume := voiceVolume h; error := error h;
     isApiKeyError := isApiKeyError h; isSafetyError := isSafetyError h;
     isQuotaError := v; activePlayer := activePlayer h;
     isTransitioning := isTransitioning h;
     transitionType := transitionType h |}.

Definition upd_activePlayer (v : PlayerId) (h : Hooks) : Hooks :=
  {| selectedImage := selectedImage h; prompt := prompt h;
     isGenerating := isGenerating h; isAutoGenerating := isAutoGenerating h;
     autoGenCount := autoGenCount h; isAutoAudio := isAutoAudio h;
     coolDown := coolDown h; timeline := timeline h;
     selectedSceneIds := selectedSceneIds h;
     activeSceneIndex := activeSceneIndex h; isPlayingAll := isPlayingAll h;
     sceneDuration := sceneDuration h; stylePreset := stylePreset h;
     motionIntensity := motionIntensity h; consistency := consistency h;
     outputFormat := outputFormat h; isLooping := isLooping h;
     voiceText := voiceText h; voiceName := voiceName h;
     isGeneratingAudio := isGeneratingAudio h; videoVolume := videoVolume h;
     voiceVolume := voiceVolume h; error := error h;
     isApiKeyError := isApiKeyError h; isSafetyError := isSafetyError h;
     isQuotaError := isQuotaError h; activePlayer := v;
     isTransitioning := isTransitioning h;
     transitionType := transitionType h |}.

Definition upd_isTransitioning (v : bool) (h : Hooks) : Hooks :=
  {| selectedImage := selectedImage h; prompt := prompt h;
     isGenerating := isGenerating h; isAutoGenerating := isAutoGenerating h;
     autoGenCount := autoGenCount h; isAutoAudio := isAutoAudio h;
     coolDown := coolDown h; timeline := timeline h;
     selectedSceneIds := selectedSceneIds h;
     activeSceneIndex := activeSceneIndex h; isPlayingAll := isPlayingAll h;
     sceneDuration := sceneDuration h; stylePreset := stylePreset h;
     motionIntensity := motionIntensity h; consistency := consistency h;
     outputFormat := outputFormat h; isLooping := isLooping h;
     voiceText := voiceText h; voiceName := voiceName h;
     isGeneratingAudio := isGeneratingAudio h; videoVolume := videoVolume h;
     voiceVolume := voiceVolume h; error := error h;
     isApiKeyError := isApiKeyError h; isSafetyError := isSafetyError h;
     isQuotaError := isQuotaError h; activePlayer := activePlayer h;
     isTransitioning := v; transitionType := transitionType h |}.

Definition upd_transitionType (v : TransitionType) (h : Hooks) : Hooks :=
  {| selectedImage := selectedImage h; prompt := prompt h;
     isGenerating := isGenerating h; isAutoGenerating := isAutoGenerating h;
     autoGenCount := autoGenCount h; isAutoAudio := isAutoAudio h;
     coolDown := coolDown h; timeline := timeline h;
     selectedSceneIds := selectedSceneIds h;
     activeSceneIndex := activeSceneIndex h; isPlayingAll := isPlayingAll h;
     sceneDuration := sceneDuration h; stylePreset := stylePreset h;
     motionIntensity := motionIntensity h; consistency := consistency h;
     outputFormat := outputFormat h; isLooping := isLooping h;
     voiceText := voiceText h; voiceName := voiceName h;
     isGeneratingAudio := isGeneratingAudio h; videoVolume := videoVolume h;
     voiceVolume := voiceVolume h; error := error h;
     isApiKeyError := isApiKeyError h; isSafetyError := isSafetyError h;
     isQuotaError := isQuotaError h; activePlayer := activePlayer h;
     isTransitioning := isTransitioning h; transitionType := v |}.

(** ** Media elements, awaited operations and timers *)

Record Media := {
  src : string;
  volume : Volume;
  loop : bool;
  playing : bool
}.

(** Assigning a different [src] reloads the element, which pauses it. *)
Definition set_src (u : string) (m : Media) : Media :=
  if decide (src m = u) then m
  else {| src := u; volume := volume m; loop := loop m; playing := false |}.

Definition set_volume (v : Volume) (m : Media) : Media :=
  {| src := src m; volume := v; loop := loop m; playing := playing m |}.

Definition set_loop (b : bool) (m : Media) : Media :=
  {| src := src m; volume := volume m; loop := b; playing := playing m |}.

(** [m.play().catch(...)]: the element starts unless the browser blocks
    autoplay, in which case it stays as it was. *)
Definition play (allowed : bool) (m : Media) : Media :=
  {| src := src m; volume := volume m; loop := loop m;
     playing := playing m || allowed |}.

Definition pause (m : Media) : Media :=
  {| src := src m; volume := volume m; loop := loop m; playing := false |}.

(** Arguments of a [generateVeoVideo] call that depend on the timeline. *)
Record VeoRequest := {
  req_prompt : string;
  req_image : option string;
  req_style : string;
  req_asset : option Asset
}.

(** What awaits the result of [executeGeneration]: a single click, or
    the loop of [handleStartGeneration] with its counter. *)
Inductive kont :=
| K_single
| K_loop (count : Z).

(** A suspended [await]: the continuation's closure and its local
    variables. *)
Inductive task :=
| AwaitVideo (c : Hooks) (enhancedPrompt : string) (k : kont)
| AwaitAutoScript (c : Hooks) (newScene : VideoScene)
| AwaitAutoSpeech (c : Hooks) (newScene : VideoScene) (narrationScript : string)
| AwaitAutoMerge (newScene : VideoScene) (videoUrl speechUrl : string)
| AwaitVoiceScript (c : Hooks) (sceneIndex : nat)
| AwaitVoiceSpeech (c : Hooks) (sceneIndex : nat) (textToSpeak : string)
| AwaitVoiceMerge (sceneIndex : nat) (videoUrl audioUrl : string).

(** A pending [setTimeout] callback. *)
Inductive timerAction :=
| TransitionTimer (nextIndex : nat)
| ThrottleTimer (c : Hooks) (count : Z).

Record timer := {
  timer_id : nat;
  due : Z;
  action : timerAction
}.

(** The timeout that the playback effect sets: its due time and the
    [handleSceneEnd] it will call, that is, the hooks of the render the
    effect ran in.  The effect's cleanup is the only code that knows this
    timeout, so it has a slot of its own in the world. *)
Record effect_timer := {
  et_due : Z;
  et_closure : Hooks
}.

(** Calls made to the outside, newest first (a record of what the
    component asked for; the component itself never reads it). *)
Inductive call :=
| CallVideo (r : VeoRequest)
| CallScript (description style : string)
| CallSpeech (text voice : string)
| CallMerge (videoUrl audioUrl : string)
| CallSleep (ms : Z).

(** A finished merge: the asset's URL and the two inputs it was made
    from (again a record kept beside the component). *)
Record merge_record := {
  merged_asset : string;
  merged_video : string;
  merged_audio : string
}.

#[global] Instance merge_record_eq_dec : EqDecision merge_record.
Proof. solve_decision. Defined.

Record World := {
  hooks : Hooks;
  (* identity of the array held by [timeline]: every [setTimeline]
     stores a new array, which the effect's dependency check sees *)
  timelineRef : nat;
  stopAutoGenerationRef : bool;
  videoPlayerA : Media;
  videoPlayerB : Media;
  audioPlayer : Media;
  autoplay : bool;
  (* [Date.now()], in milliseconds *)
  now : Z;
  tasks : list task;
  timers : list timer;
  timerSeq : nat;
  (* the timeout of the last effect run, until it fires or is cleared *)
  effectTimer : option effect_timer;
  calls : list call;
  merges : list merge_record
}.

Definition upd_hooks (v : Hooks) (w : World) : World :=
  {| hooks := v; timelineRef := timelineRef w;
     stopAutoGenerationRef := stopAutoGenerationRef w;
     videoPlayerA := videoPlayerA w; videoPlayerB := videoPlayerB w;
     audioPlayer := audioPlayer w; autoplay := autoplay w; now := now w;
     tasks := tasks w; timers := timers w; timerSeq := timerSeq w;
     effectTimer := effectTimer w; calls := calls w; merges := merges w |}.

Definition upd_timelineRef (v : nat) (w : World) : World :=
  {| hooks := hooks w; timelineRef := v;
     stopAutoGenerationRef := stopAutoGenerationRef w;
     videoPlayerA := videoPlayerA w; videoPlayerB := videoPlayerB w;
     audioPlayer := audioPlayer w; autoplay := autoplay w; now := now w;
     tasks := tasks w; timers := timers w; timerSeq := timerSeq w;
     effectTimer := effectTimer w; calls := calls w; merges := merges w |}.

Definition upd_stopAutoGenerationRef (v : bool) (w : World) : World :=
  {| hooks := hooks w; timelineRef := timelineRef w;
     stopAutoGenerationRef := v; videoPlayerA := videoPlayerA w;
     videoPlayerB := videoPlayerB w; audioPlayer := audioPlayer w;
     autoplay := autoplay w; now := now w; tasks := tasks w;
     timers := timers w; timerSeq := timerSeq w;
     effectTimer := effectTimer w; calls := calls w; merges := merges w |}.

Definition upd_videoPlayerA (v : Media) (w : World) : World :=
  {| hooks := hooks w; timelineRef := timelineRef w;
     stopAutoGenerationRef := stopAutoGenerationRef w; videoPlayerA := v;
     videoPlayerB := videoPlayerB w; audioPlayer := audioPlayer w;
     autoplay := autoplay w; now := now w; tasks := tasks w;
     timers := timers w; timerSeq := timerSeq w;
     effectTimer := effectTimer w; calls := calls w; merges := merges w |}.

Definition upd_videoPlayerB (v : Media) (w : World) : World :=
  {| hooks := hooks w; timelineRef := timelineRef w;
     stopAutoGenerationRef := stopAutoGenerationRef w;
     videoPlayerA := videoPlayerA w; videoPlayerB := v;
     audioPlayer := audioPlayer w; autoplay := autoplay w; now := now w;
     tasks := tasks w; timers := timers w; timerSeq := timerSeq w;
     effectTimer := effectTimer w; calls := calls w; merges := merges w |}.

Definition upd_audioPlayer (v : Media) (w : World) : World :=
  {| hooks := hooks w; timelineRef := timelineRef w;
     stopAutoGenerationRef := stopAutoGenerationRef w;
     videoPlayerA := videoPlayerA w; videoPlayerB := videoPlayerB w;
     audioPlayer := v; autoplay := autoplay w; now := now w;
     tasks := tasks w; timers := timers w; timerSeq := timerSeq w;
     effectTimer := effectTimer w; calls := calls w; merges := merges w |}.

Definition upd_now (v : Z) (w : World) : World :=
  {| hooks := hooks w; timelineRef := timelineRef w;
     stopAutoGenerationRef := stopAutoGenerationRef w;
     videoPlayerA := videoPlayerA w; videoPlayerB := videoPlayerB w;
     audioPlayer := audioPlayer w; autoplay := autoplay w; now := v;
     tasks := tasks w; timers := timers w; timerSeq := timerSeq w;
     effectTimer := effectTimer w; calls := calls w; merges := merges w |}.

Definition upd_tasks (v : list task) (w : World) : World :=
  {| hooks := hooks w; timelineRef := timelineRef w;
     stopAutoGenerationRef := stopAutoGenerationRef w;
     videoPlayerA := videoPlayerA w; videoPlayerB := videoPlayerB w;
     audioPlayer := audioPlayer w; autoplay := autoplay w; now := now w;
     tasks := v; timers := timers w; timerSeq := timerSeq w;
     effectTimer := effectTimer w; calls := calls w; merges := merges w |}.

Definition upd_timers (v : list timer) (w : World) : World :=
  {| hooks := hooks w; timelineRef := timelineRef w;
     stopAutoGenerationRef := stopAutoGenerationRef w;
     videoPlayerA := videoPlayerA w; videoPlayerB := videoPlayerB w;
     audioPlayer := audioPlayer w; autoplay := autoplay w; now := now w;
     tasks := tasks w; timers := v; timerSeq := timerSeq w;
     effectTimer := effectTimer w; calls := calls w; merges := merges w |}.

Definition upd_timerSeq (v : nat) (w : World) : World :=
  {| hooks := hooks w; timelineRef := timelineRef w;
     stopAutoGenerationRef := stopAutoGenerationRef w;
     videoPlayerA := videoPlayerA w; videoPlayerB := videoPlayerB w;
     audioPlayer := audioPlayer w; autoplay := autoplay w; now := now w;
     tasks := tasks w; timers := timers w; timerSeq := v;
     effectTimer := effectTimer w; calls := calls w; merges := merges w |}.

Definition upd_effectTimer (v : option effect_timer) (w : World) : World :=
  {| hooks := hooks w; timelineRef := timelineRef w;
     stopAutoGenerationRef := stopAutoGenerationRef w;
     videoPlayerA := videoPlayerA w; videoPlayerB := videoPlayerB w;
     audioPlayer := audioPlayer w; autoplay := autoplay w; now := now w;
     tasks := tasks w; timers := timers w; timerSeq := timerSeq w;
     effectTimer := v; calls := calls w; merges := merges w |}.

Definition upd_calls (v : list call) (w : World) : World :=
  {| hooks := hooks w; timelineRef := timelineRef w;
     stopAutoGenerationRef := stopAutoGenerationRef w;
     videoPlayerA := videoPlayerA w; videoPlayerB := videoPlayerB w;
     audioPlayer := audioPlayer w; autoplay := autoplay w; now := now w;
     tasks := tasks w; timers := timers w; timerSeq := timerSeq w;
     effectTimer := effectTimer w; calls := v; merges := merges w |}.

Definition upd_merges (v : list merge_record) (w : World) : World :=
  {| hooks := hooks w; timelineRef := timelineRef w;
     stopAutoGenerationRef := stopAutoGenerationRef w;
     videoPlayerA := videoPlayerA w; videoPlayerB := videoPlayerB w;
     audioPlayer := audioPlayer w; autoplay := autoplay w; now := now w;
     tasks := tasks w; timers := timers w; timerSeq := timerSeq w;
     effectTimer := effectTimer w; calls := calls w; merges := v |}.

(** ** React setters

    A setter writes the live hooks.  [setTimeline] also renews the
    array identity. *)

Definition on_hooks (f : Hooks → Hooks) (w : World) : World :=
  upd_hooks (f (hooks w)) w.

Definition setTimeline (f : list VideoScene → list VideoScene)
    (w : World) : World :=
  upd_timelineRef (S (timelineRef w))
    (on_hooks (λ h, upd_timeline (f (timeline h)) h) w).

Definition setSelectedSceneIds (f : gset string → gset string) : World → World :=
  on_hooks (λ h, upd_selectedSceneIds (f (selectedSceneIds h)) h).

Definition setActivePlayer (f : PlayerId → PlayerId) : World → World :=
  on_hooks (λ h, upd_activePlayer (f (activePlayer h)) h).

Definition setCoolDown (v : Z) : World → World := on_hooks (upd_coolDown v).
Definition setPrompt (v : string) : World → World := on_hooks (upd_prompt v).
Definition setError (v : option string) : World → World := on_hooks (upd_error v).
Definition setIsApiKeyError (v : bool) : World → World := on_hooks (upd_isApiKeyError v).
Definition setIsSafetyError (v : bool) : World → World := on_hooks (upd_isSafetyError v).
Definition setIsQuotaError (v : bool) : World → World := on_hooks (upd_isQuotaError v).
Definition setIsGenerating (v : bool) : World → World := on_hooks (upd_isGenerating v).
Definition setIsAutoGenerating (v : bool) : World → World := on_hooks (upd_isAutoGenerating v).
Definition setAutoGenCount (v : number) : World → World := on_hooks (upd_autoGenCount v).
Definition setIsAutoAudio (v : bool) : World → World := on_hooks (upd_isAutoAudio v).
Definition setIsGeneratingAudio (v : bool) : World → World := on_hooks (upd_isGeneratingAudio v).
Definition setVoiceText (v : string) : World → World := on_hooks (upd_voiceText v).
Definition setSceneDuration (v : number) : World → World := on_hooks (upd_sceneDuration v).
Definition setActiveSceneIndex (v : nat) : World → World := on_hooks (upd_activeSceneIndex v).
Definition setIsPlayingAll (v : bool) : World → World := on_hooks (upd_isPlayingAll v).
Definition setIsTransitioning (v : bool) : World → World := on_hooks (upd_isTransitioning v).
Definition setTransitionType (v : TransitionType) : World → World := on_hooks (upd_transitionType v).

(** [setTimeout(callback, ms)]; a negative delay counts as zero. *)
Definition setTimeout (a : timerAction) (ms : Z) (w : World) : World :=
  upd_timerSeq (S (timerSeq w))
    (upd_timers
       ({| timer_id := timerSeq w; due := now w + Z.max 0 ms; action := a |}
          :: timers w) w).

(** Parking an [await], and noting a call to the outside. *)
Definition park (t : task) (w : World) : World := upd_tasks (t :: tasks w) w.
Definition note (c : call) (w : World) : World := upd_calls (c :: calls w) w.

(** ** Timeline manager *)

(** [handleDurationChange]; [value] is [e.target.value]. *)
Definition handleDurationChange (c : Hooks) (value : string) (w : World) : World :=
  let val := parseInt value in
  let w := setSceneDuration val w in
  if bool_decide (timeline c ≠ []) then
    setTimeline (patch_at (activeSceneIndex c) (Scene.with_duration val)) w
  else w.

(** [clearTimeline]; [confirmed] is the answer to the [confirm] dialog. *)
Definition clearTimeline (confirmed : bool) (w : World) : World :=
  if confirmed then
    setError None
      (setPrompt ""
         (setActiveSceneIndex 0
            (setSelectedSceneIds (λ _, ∅) (setTimeline (λ _, []) w))))
  else w.

(** [toggleSceneSelection] *)
Definition toggleSceneSelection (sceneId : string) : World → World :=
  setSelectedSceneIds
    (λ prev, if decide (sceneId ∈ prev) then prev ∖ {[sceneId]}
             else prev ∪ {[sceneId]}).

(** [toggleTransition] *)
Definition toggleTransition (index : nat) : World → World :=
  setTimeline
    (patch_at index (λ s, Scene.with_transition (next_transition (Scene.transition s)) s)).

(** ** Playback scheduler *)

Definition flip (p : PlayerId) : PlayerId :=
  match p with
  | PlayerA => PlayerB
  | PlayerB => PlayerA
  end.

Definition player (p : PlayerId) (w : World) : Media :=
  match p with
  | PlayerA => videoPlayerA w
  | PlayerB => videoPlayerB w
  end.

Definition on_player (p : PlayerId) (f : Media → Media) (w : World) : World :=
  match p with
  | PlayerA => upd_videoPlayerA (f (videoPlayerA w)) w
  | PlayerB => upd_videoPlayerB (f (videoPlayerB w)) w
  end.

(** [handlePlayAll] *)
Definition handlePlayAll (c : Hooks) (w : World) : World :=
  if bool_decide (timeline c = []) then w
  else
    setIsTransitioning false
      (setActivePlayer (λ _, PlayerA)
         (setActiveSceneIndex 0 (setIsPlayingAll true w))).

(** The [onClick] of a scene card. *)
Definition handleSelectScene (idx : nat) (w : World) : World :=
  setIsTransitioning false
    (setActivePlayer (λ _, PlayerA)
       (setActiveSceneIndex idx (setIsPlayingAll false w))).

(** [handleSceneEnd], as created by the render with hooks [c]. *)
Definition handleSceneEnd (c : Hooks) (w : World) : World :=
  if isPlayingAll c then
    if Z.of_nat (activeSceneIndex c) <? Z.of_nat (length (timeline c)) - 1 then
      let nextIndex := S (activeSceneIndex c) in
      match timeline c !! nextIndex with
      | Some nextScene =>
          let w := setTransitionType (Scene.transition nextScene) w in
          if decide (Scene.transition nextScene ≠ cut) then
            setTimeout (TransitionTimer nextIndex) 800 (setIsTransitioning true w)
          else
            setActivePlayer flip (setActiveSceneIndex nextIndex w)
      | None => w
      end
    else if isLooping c then
      setActivePlayer flip (setActiveSceneIndex 0 w)
    else
      setIsTransitioning false (setIsPlayingAll false w)
  else if isLooping c then
    on_player (activePlayer c) (play (autoplay w)) w
  else w.

(** The callback of the 800 ms timeout set by [handleSceneEnd]. *)
Definition transitionDone (nextIndex : nat) (w : World) : World :=
  setIsTransitioning false
    (setActivePlayer flip (setActiveSceneIndex nextIndex w)).

(** The playback effect.  It runs after a render in which one of its
    dependencies changed, the previous run's cleanup first. *)
Definition cleanup (w : World) : World := upd_effectTimer None w.

Definition playback_effect (w : World) : World :=
  let c := hooks w in
  match timeline c !! activeSceneIndex c with
  | None => w
  | Some scene =>
      let currentUrl := str_or (Scene.mergedUrl scene) (Scene.url scene) in
      let w :=
        if isPlayingAll c then
          if truthy currentUrl then
            on_player (activePlayer c)
              (λ m, play (autoplay w)
                      (set_loop true (set_volume (videoVolume c) (set_src currentUrl m))))
              w
          else w
        else
          if truthy currentUrl then
            upd_videoPlayerA
              (set_loop (isLooping c)
                 (set_volume (videoVolume c) (set_src currentUrl (videoPlayerA w))))
              w
          else w in
      let isMergedPlaying := opt_truthy (Scene.mergedUrl scene) in
      let w :=
        if opt_truthy (Scene.audioUrl scene) && negb isMergedPlaying then
          let a := set_volume (voiceVolume c)
                     (set_src (default "" (Scene.audioUrl scene)) (audioPlayer w)) in
          upd_audioPlayer (if isPlayingAll c then play (autoplay w) a else a) w
        else upd_audioPlayer (pause (audioPlayer w)) w in
      if isPlayingAll c then
        let durationMs := num_or (Scene.duration scene) 5 * 1000 in
        upd_effectTimer
          (Some {| et_due := now w + Z.max 0 durationMs; et_closure := c |}) w
      else w
  end.

(** The dependency array of the effect. *)
Definition deps (w : World) : nat * PlayerId * bool * nat * Volume * Volume * bool :=
  let c := hooks w in
  (activeSceneIndex c, activePlayer c, isPlayingAll c, timelineRef w,
   videoVolume c, voiceVolume c, isLooping c).

(** Render after a handler or continuation ran: the state updates it
    made are committed together, and the effect reruns when its
    dependencies differ from those of the previous render. *)
Definition commit (before after : World) : World :=
  if decide (deps before = deps after) then after
  else playback_effect (cleanup after).

(** The [onEnded] handler of a video element: the element has stopped;
    outside movie mode the scene-end callback of the current render
    runs. *)
Definition onEnded (p : PlayerId) (w : World) : World :=
  let w := on_player p pause w in
  if negb (isPlayingAll (hooks w)) then handleSceneEnd (hooks w) w else w.

(** ** Results of awaited operations *)

(** A thrown or rejected error.  [json_message] is what
    [JSON.parse(message).error.message] evaluates to when [message] is
    JSON text with such a member (JSON parsing itself is outside the
    component). *)
Record JsError := {
  message : string;
  json_message : option string
}.

Inductive outcome :=
| Video (url : string) (asset : Asset)
| Text (s : string)
| Rejected (e : JsError).

Definition new_Error (m : string) : JsError :=
  {| message := m; json_message := None |}.

(** ** Scene generation *)

(** The prompt sent to the generator; [None] is the
    [throw new Error("Please provide an image or a prompt to start.")]. *)
Definition enhance (c : Hooks) (isChain : bool) : option string :=
  let isExtension := bool_decide (timeline c ≠ []) in
  let enhancedPrompt := prompt c in
  let enhancedPrompt :=
    if isExtension && negb (truthy (trim enhancedPrompt)) && isChain
    then "Continue the action naturally, maintaining visual consistency."
    else enhancedPrompt in
  if negb isExtension && negb (opt_truthy (selectedImage c))
     && negb (truthy (trim enhancedPrompt))
  then None
  else
    let enhancedPrompt :=
      if 7 <? motionIntensity c
      then enhancedPrompt +:+ " with high speed dynamic motion"
      else enhancedPrompt in
    let enhancedPrompt :=
      if 7 <? consistency c
      then enhancedPrompt +:+ ", strictly adhering to visual details"
      else enhancedPrompt in
    let enhancedPrompt :=
      match outputFormat c with
      | GIF => enhancedPrompt +:+ ", looped seamlessly"
      | MP4 => enhancedPrompt
      end in
    Some enhancedPrompt.

(** The [catch] and [finally] blocks of [executeGeneration]. *)
Definition executeGeneration_catch (err : JsError) (w : World) : World :=
  let errorMessage :=
    if truthy (message err) then message err else "Video generation failed." in
  let errorMessage :=
    if startsWith (trim errorMessage) "{" then
      match json_message err with
      | Some m => if truthy m then m else errorMessage
      | None => errorMessage
      end
    else errorMessage in
  let '(errorMessage, w) :=
    if includes errorMessage "safety filters" then
      (errorMessage, setIsSafetyError true w)
    else if includes errorMessage "Video generation failed or returned no URI" then
      ("Video generation failed. The content may have been filtered or could not be processed. Please try a different prompt or image.", w)
    else (errorMessage, w) in
  let '(errorMessage, w) :=
    if includes errorMessage "429" || includes errorMessage "quota"
       || includes errorMessage "RESOURCE_EXHAUSTED" then
      ("Quota Limit Reached. The system is backing off to let your quota reset. Please wait...",
       setCoolDown 60 (setIsQuotaError true w))
    else (errorMessage, w) in
  let '(errorMessage, w) :=
    if includes errorMessage "Requested entity was not found"
       || includes errorMessage "API key"
       || includes errorMessage "403"
       || includes errorMessage "PERMISSION_DENIED"
       || includes errorMessage "billing" then
      ("Access Denied. Your API key may be invalid, missing, or lack Veo billing access.",
       setIsApiKeyError true w)
    else (errorMessage, w) in
  setIsGenerating false (setError (Some errorMessage) w).

(** [executeGeneration] up to its [await generateVeoVideo(...)].  The
    boolean tells whether it is suspended there; otherwise it has
    returned [false] already.  (The optional [window.aistudio] key
    dialog of the hosting page is not part of the model.) *)
Definition executeGeneration (c : Hooks) (isChain : bool) (k : kont)
    (w : World) : World * bool :=
  let w :=
    setIsGenerating true
      (setIsQuotaError false
         (setIsSafetyError false (setIsApiKeyError false (setError None w)))) in
  match enhance c isChain with
  | None =>
      (executeGeneration_catch
         (new_Error "Please provide an image or a prompt to start.") w, false)
  | Some enhancedPrompt =>
      let lastScene := last (timeline c) in
      let request :=
        {| req_prompt := enhancedPrompt;
           req_image := match lastScene with
                        | Some _ => None
                        | None => selectedImage c
                        end;
           req_style := stylePreset c;
           req_asset := Scene.asset <$> lastScene |} in
      (park (AwaitVideo c enhancedPrompt k) (note (CallVideo request) w), true)
  end.

(** The scene built from a generation result. *)
Definition newScene_of (c : Hooks) (enhancedPrompt url : string) (asset : Asset)
    (w : World) : VideoScene :=
  {| Scene.id := toString (now w);
     Scene.url := url;
     Scene.asset := asset;
     Scene.prompt := enhancedPrompt;
     Scene.duration := sceneDuration c;
     Scene.transition := cut;
     Scene.audioUrl := None;
     Scene.audioScript := None;
     Scene.mergedUrl := None;
     Scene.isMerging := None |}.

(** [executeGeneration] after the generator answered, up to
    [return true]. *)
Definition executeGeneration_resume (c : Hooks) (enhancedPrompt url : string)
    (asset : Asset) (w : World) : World :=
  let newScene := newScene_of c enhancedPrompt url asset w in
  let w := setTimeline (λ prev, (prev ++ [newScene])%list) w in
  let w := setActiveSceneIndex (length (timeline (hooks w)) - 1)%nat w in
  let w :=
    if isAutoAudio c then
      park (AwaitAutoScript c newScene)
        (note (CallScript enhancedPrompt (stylePreset c)) w)
    else w in
  setIsGenerating false w.

(** ** Auto-generation sequencer: the loop of [handleStartGeneration] *)

(** The [while] test and the call that follows it. *)
Definition loop_head (c : Hooks) (keepGoing : bool) (count : Z)
    (w : World) : World :=
  if keepGoing && negb (stopAutoGenerationRef w) && lt_num count (autoGenCount c)
  then
    let '(w, suspended) := executeGeneration c true (K_loop count) w in
    if suspended then w else setIsAutoGenerating false w
  else setIsAutoGenerating false w.

(** The end of the loop body, after the throttle. *)
Definition loop_tail (c : Hooks) (count : Z) (w : World) : World :=
  let keepGoing :=
    if ge_num count (autoGenCount c) || stopAutoGenerationRef w
    then false else true in
  loop_head c keepGoing count w.

(** The loop body after [await executeGeneration(true)] returned
    [success]. *)
Definition loop_after_generation (c : Hooks) (count : Z) (success : bool)
    (w : World) : World :=
  if negb success then setIsAutoGenerating false w
  else
    let count := count + 1 in
    if lt_num count (autoGenCount c) && negb (stopAutoGenerationRef w) then
      setTimeout (ThrottleTimer c count) 5000 (note (CallSleep 5000) w)
    else loop_tail c count w.

Definition handleStartGeneration (c : Hooks) (w : World) : World :=
  if 0 <? coolDown c then w
  else
    let w := upd_stopAutoGenerationRef false w in
    if negb (isAutoGenerating c) then fst (executeGeneration c false K_single w)
    else loop_head c true 0 w.

Definition handleStopAuto (w : World) : World :=
  setIsAutoGenerating false (upd_stopAutoGenerationRef true w).

(** What runs when [executeGeneration] returns to its caller. *)
Definition resume_kont (k : kont) (c : Hooks) (success : bool)
    (w : World) : World :=
  match k with
  | K_single => w
  | K_loop count => loop_after_generation c count success w
  end.

(** ** Voiceover *)

Definition voiceover_catch (e : JsError) (w : World) : World :=
  let w := setError (Some ("Audio generation failed: " +:+ message e)) w in
  let w :=
    if includes (message e) "429"
    then setCoolDown 30 (setIsQuotaError true w) else w in
  setIsGeneratingAudio false w.

(** [handleGenerateVoiceover] from the test of [textToSpeak.trim()] to
    [await generateSpeech(...)]. *)
Definition voiceover_speak (c : Hooks) (sceneIndex : nat) (textToSpeak : string)
    (w : World) : World :=
  if negb (truthy (trim textToSpeak)) then setIsGeneratingAudio false w
  else
    park (AwaitVoiceSpeech c sceneIndex textToSpeak)
      (note (CallSpeech textToSpeak (voiceName c)) w).

Definition handleGenerateVoiceover (c : Hooks) (useAutoScript : bool)
    (w : World) : World :=
  let textToSpeak := voiceText c in
  let w := setIsGeneratingAudio true w in
  let sceneIndex := activeSceneIndex c in
  if bool_decide (timeline c = []) then
    setIsGeneratingAudio false
      (setError (Some "Generate a video scene first to attach audio to.") w)
  else if useAutoScript then
    match timeline c !! sceneIndex with
    | Some currentScene =>
        park (AwaitVoiceScript c sceneIndex)
          (note (CallScript (Scene.prompt currentScene) (stylePreset c)) w)
    | None =>
        voiceover_catch
          (new_Error "Cannot read properties of undefined (reading 'prompt')") w
    end
  else voiceover_speak c sceneIndex textToSpeak w.

(** ** Continuations of the awaited operations *)

Definition log_merge (m v a : string) (w : World) : World :=
  upd_merges
    ({| merged_asset := m; merged_video := v; merged_audio := a |} :: merges w) w.

(** The code that runs when the awaited operation of task [t] settles
    with outcome [o]; [None] when the outcome is not of the kind the
    operation produces. *)
Definition continue_task (t : task) (o : outcome) (w : World) : option World :=
  match t, o with
  (* executeGeneration: await generateVeoVideo(...) *)
  | AwaitVideo c enhancedPrompt k, Video url asset =>
      Some (resume_kont k c true
              (executeGeneration_resume c enhancedPrompt url asset w))
  | AwaitVideo c _ k, Rejected e =>
      Some (resume_kont k c false (executeGeneration_catch e w))
  (* the detached auto-audio block of executeGeneration *)
  | AwaitAutoScript c newScene, Text narrationScript =>
      Some (park (AwaitAutoSpeech c newScene narrationScript)
              (note (CallSpeech narrationScript (voiceName c)) w))
  | AwaitAutoSpeech c newScene narrationScript, Text speechUrl =>
      let w :=
        setTimeline
          (patch_id (Scene.id newScene) (Scene.with_audio speechUrl narrationScript))
          w in
      Some (park (AwaitAutoMerge newScene (Scene.url newScene) speechUrl)
              (note (CallMerge (Scene.url newScene) speechUrl) w))
  | AwaitAutoMerge newScene v a, Text mergedUrl =>
      Some (setTimeline
              (patch_id (Scene.id newScene) (Scene.with_merged mergedUrl))
              (log_merge mergedUrl v a w))
  | AwaitAutoScript _ newScene, Rejected _
  | AwaitAutoSpeech _ newScene _, Rejected _
  | AwaitAutoMerge newScene _ _, Rejected _ =>
      Some (setTimeline
              (patch_id (Scene.id newScene) Scene.with_merge_failed) w)
  (* handleGenerateVoiceover *)
  | AwaitVoiceScript c sceneIndex, Text textToSpeak =>
      Some (voiceover_speak c sceneIndex textToSpeak (setVoiceText textToSpeak w))
  | AwaitVoiceSpeech c sceneIndex textToSpeak, Text audioUrl =>
      let w :=
        setTimeline (patch_at sceneIndex (Scene.with_audio audioUrl textToSpeak)) w in
      match timeline c !! sceneIndex with
      | Some currentVideo =>
          Some (park (AwaitVoiceMerge sceneIndex (Scene.url currentVideo) audioUrl)
                  (note (CallMerge (Scene.url currentVideo) audioUrl) w))
      | None =>
          Some (setIsGeneratingAudio false
                  (setTimeline (patch_at sceneIndex Scene.with_merge_failed) w))
      end
  | AwaitVoiceMerge sceneIndex v a, Text mergedUrl =>
      Some (setIsGeneratingAudio false
              (setTimeline (patch_at sceneIndex (Scene.with_merged mergedUrl))
                 (log_merge mergedUrl v a w)))
  | AwaitVoiceMerge sceneIndex _ _, Rejected _ =>
      Some (setIsGeneratingAudio false
              (setTimeline (patch_at sceneIndex Scene.with_merge_failed) w))
  | AwaitVoiceScript _ _, Rejected e
  | AwaitVoiceSpeech _ _ _, Rejected e =>
      Some (voiceover_catch e w)
  | _, _ => None
  end.

(** The callback of a timeout. *)
Definition run_timer (a : timerAction) (w : World) : World :=
  match a with
  | TransitionTimer nextIndex => transitionDone nextIndex w
  | ThrottleTimer c count => loop_tail c count w
  end.

(** ** Events

    What can happen to the component: the user operates a control, an
    awaited operation settles, a timeout fires, the cooldown interval
    ticks, time passes. *)

Inductive event :=
| TypePrompt (value : string)
| TypeVoiceText (value : string)
| SetAutoGenCount (value : string)
| SetIsAutoAudio (checked : bool)
| DurationChange (value : string)
| ClearTimeline (confirmed : bool)
| ToggleSceneSelection (sceneId : string)
| ToggleTransition (index : nat)
| StartGeneration
| StopAuto
| GenerateVoiceover (useAutoScript : bool)
| PlayAll
| SelectScene (idx : nat)
| Ended (p : PlayerId)
| Settle (i : nat) (o : outcome)
| Fire (tid : nat)
| FireEffectTimer
| CoolDownTick
| Elapse (dt : Z).

(** [Math.max(1, Math.min(20, n))]; [NaN] stays [NaN]. *)
Definition clamp_count (n : number) : number :=
  match n with
  | Num z => Num (Z.max 1 (Z.min 20 z))
  | NaN => NaN
  end.

(** The first pending timeout with the given identifier, and the
    others. *)
Fixpoint take_timer (tid : nat) (l : list timer) : option (timer * list timer) :=
  match l with
  | [] => None
  | t :: l' =>
      if decide (timer_id t = tid) then Some (t, l')
      else
        match take_timer tid l' with
        | Some (t', rest) => Some (t', t :: rest)
        | None => None
        end
  end.

(** No timeout is due before the instant [t]. *)
Definition none_due_before (t : Z) (w : World) : bool :=
  forallb (λ x, t <=? due x) (timers w)
  && match effectTimer w with
     | Some et => t <=? et_due et
     | None => true
     end.

(** The cooldown countdown.  While [coolDown > 0] an interval calls
    [setCoolDown(c => Math.max(0, c - 1))] every second; with
    [coolDown] at 0 no interval runs. *)
Definition coolDownTick (w : World) : World :=
  if 0 <? coolDown (hooks w)
  then setCoolDown (Z.max 0 (coolDown (hooks w) - 1)) w
  else w.

(** The handler or continuation that an event runs.  A handler is the
    one created by the latest render, so its closure is the live hooks.
    Timeouts fire no earlier than they are due, and time does not pass
    beyond a pending timeout.  The cooldown interval exists only while
    the cooldown is positive; its period of one second is not part of
    the model: a tick can come at any moment of a cooldown. *)
Definition handle (e : event) (w : World) : option World :=
  match e with
  | TypePrompt value => Some (setPrompt value w)
  | TypeVoiceText value => Some (setVoiceText value w)
  | SetAutoGenCount value => Some (setAutoGenCount (clamp_count (parseInt value)) w)
  | SetIsAutoAudio checked => Some (setIsAutoAudio checked w)
  | DurationChange value => Some (handleDurationChange (hooks w) value w)
  | ClearTimeline confirmed => Some (clearTimeline confirmed w)
  | ToggleSceneSelection sceneId => Some (toggleSceneSelection sceneId w)
  | ToggleTransition index => Some (toggleTransition index w)
  | StartGeneration => Some (handleStartGeneration (hooks w) w)
  | StopAuto => Some (handleStopAuto w)
  | GenerateVoiceover useAutoScript =>
      Some (handleGenerateVoiceover (hooks w) useAutoScript w)
  | PlayAll => Some (handlePlayAll (hooks w) w)
  | SelectScene idx => Some (handleSelectScene idx w)
  | Ended p => Some (onEnded p w)
  | Settle i o =>
      match tasks w !! i with
      | Some t => continue_task t o (upd_tasks (delete i (tasks w)) w)
      | None => None
      end
  | Fire tid =>
      match take_timer tid (timers w) with
      | Some (t, rest) =>
          if due t <=? now w then Some (run_timer (action t) (upd_timers rest w))
          else None
      | None => None
      end
  | FireEffectTimer =>
      match effectTimer w with
      | Some et =>
          if et_due et <=? now w
          then Some (handleSceneEnd (et_closure et) (upd_effectTimer None w))
          else None
      | None => None
      end
  | CoolDownTick =>
      if 0 <? coolDown (hooks w) then Some (coolDownTick w) else None
  | Elapse dt =>
      if (0 <=? dt) && none_due_before (now w + dt) w
      then Some (upd_now (now w + dt) w)
      else None
  end.

Definition step (e : event) (w : World) : option World :=
  commit w <$> handle e w.

Fixpoint run (es : list event) (w : World) : option World :=
  match es with
  | [] => Some w
  | e :: es' =>
      match step e w with
      | Some w' => run es' w'
      | None => None
      end
  end.

(** ** What the rendered controls offer

    The handlers above are total.  The page only offers some of their
    calls: a button may be disabled or not rendered, the duration control
    is a range input with [min="1" max="15" step="1"]. *)

Definition slider_values : list string := toString <$> seqZ 1 15.

Definition offered (e : event) (w : World) : bool :=
  let c := hooks w in
  match e with
  | TypePrompt _ | SetIsAutoAudio _ => true
  | TypeVoiceText _ => bool_decide (timeline c ≠ [])
  | SetAutoGenCount _ => isAutoGenerating c
  | DurationChange value => bool_decide (value ∈ slider_values)
  | ClearTimeline _ | PlayAll => bool_decide (timeline c ≠ [])
  | ToggleSceneSelection sceneId =>
      bool_decide (sceneId ∈ Scene.id <$> timeline c)
  | ToggleTransition index =>
      bool_decide (0 < index < length (timeline c))%nat
  | StartGeneration => negb (isGenerating c) && negb (0 <? coolDown c)
  | StopAuto => isGenerating c
  | GenerateVoiceover useAutoScript =>
      bool_decide (timeline c ≠ [])
      && negb (isGeneratingAudio c) && negb (0 <? coolDown c)
      && (useAutoScript || truthy (voiceText c))
  | SelectScene idx => bool_decide (idx < length (timeline c))%nat
  | Ended p => playing (player p w) && negb (loop (player p w))
  | Settle _ _ | Fire _ | FireEffectTimer | CoolDownTick | Elapse _ => true
  end.

(** A sequence of events that the page offers one after the other and
    that the component can take. *)
Fixpoint feasible (es : list event) (w : World) : bool :=
  match es with
  | [] => true
  | e :: es' =>
      offered e w
      && match step e w with
         | Some w' => feasible es' w'
         | None => false
         end
  end.

(** ** Letting the timeouts run

    With no other event, the pending timeouts fire in the order of their
    due times. *)

Definition pending_timeouts (w : World) : list (Z * event) :=
  match effectTimer w with
  | Some et => [(et_due et, FireEffectTimer)]
  | None => []
  end
  ++ ((λ t, (due t, Fire (timer_id t))) <$> reverse (timers w)).

Fixpoint earliest (l : list (Z * event)) : option (Z * event) :=
  match l with
  | [] => None
  | x :: l' =>
      match earliest l' with
      | Some y => if y.1 <? x.1 then Some y else Some x
      | None => Some x
      end
  end.

(** Time passes until the next timeout is due, and it fires. *)
Definition tick (w : World) : option World :=
  match earliest (pending_timeouts w) with
  | Some (d, e) =>
      match step (Elapse (Z.max 0 (d - now w))) w with
      | Some w' => step e w'
      | None => None
      end
  | None => None
  end.

(** The worlds after each of the next [fuel] timeouts. *)
Fixpoint play_out (fuel : nat) (w : World) : list World :=
  match fuel with
  | O => []
  | S n =>
      match tick w with
      | Some w' => w' :: play_out n w'
      | None => []
      end
  end.

(** ** The component as mounted *)

Definition initial_hooks : Hooks :=
  {| selectedImage := None; prompt := "";
     isGenerating := false; isAutoGenerating := false;
     autoGenCount := Num 3; isAutoAudio := false;
     coolDown := 0;
     timeline := []; selectedSceneIds := ∅; activeSceneIndex := 0%nat;
     isPlayingAll := false;
     sceneDuration := Num 8; stylePreset := "None"; motionIntensity := 5;
     consistency := 5; outputFormat := MP4; isLooping := false;
     voiceText := ""; voiceName := "Kore"; isGeneratingAudio := false;
     videoVolume := 100%N; voiceVolume := 100%N;
     error := None; isApiKeyError := false; isSafetyError := false;
     isQuotaError := false;
     activePlayer := PlayerA; isTransitioning := false; transitionType := cut |}.

Definition blank_media : Media :=
  {| src := ""; volume := 100%N; loop := false; playing := false |}.

(** The world right after mounting, the clock reading [t]. *)
Definition mounted (h : Hooks) (t : Z) : World :=
  {| hooks := h; timelineRef := 0; stopAutoGenerationRef := false;
     videoPlayerA := blank_media; videoPlayerB := blank_media;
     audioPlayer := blank_media; autoplay := true;
     now := t; tasks := []; timers := []; timerSeq := 0;
     effectTimer := None; calls := []; merges := [] |}.

(** ** Scenarios and predicates used in the properties *)

(** The world after a sequence of events (the world itself when the
    sequence cannot be taken). *)
Definition after_events (es : list event) (w : World) : World :=
  default w (run es w).

(** One scene is generated on a freshly mounted component. *)
Definition one_scene_events : list event :=
  [TypePrompt "a cat"; StartGeneration; Elapse 40000;
   Settle 0 (Video "blob:v1" "asset1")].

Definition scene_world : World :=
  after_events one_scene_events (mounted initial_hooks 1000).

(** A voiceover is generated and merged for that scene, then generated
    again with another text; the second speech has arrived, its merge
    is pending. *)
Definition first_voiceover_events : list event :=
  [TypeVoiceText "Hello"; GenerateVoiceover false; Elapse 3000;
   Settle 0 (Text "blob:a1"); Elapse 9000; Settle 0 (Text "blob:m1")].

Definition second_voiceover_events : list event :=
  [TypeVoiceText "Goodbye"; GenerateVoiceover false; Elapse 3000;
   Settle 0 (Text "blob:a2")].

Definition regenerating_world : World :=
  after_events (first_voiceover_events ++ second_voiceover_events) scene_world.

(** The same, just before the second speech arrives. *)
Definition before_second_speech : World :=
  after_events
    (first_voiceover_events
     ++ [TypeVoiceText "Goodbye"; GenerateVoiceover false; Elapse 3000])
    scene_world.

(** The second merge is about to fail. *)
Definition before_merge_failure : World :=
  after_events [Elapse 2000] regenerating_world.

(** The second merge fails. *)
Definition failed_merge_world : World :=
  after_events
    [Elapse 2000; Settle 0 (Rejected (new_Error "Failed to fetch"))]
    regenerating_world.

(** While the speech of a voiceover is awaited, the timeline is cleared
    and another scene is generated; then speech and merge arrive. *)
Definition overtaken_voiceover_events : list event :=
  [TypeVoiceText "Hello"; GenerateVoiceover false; Elapse 1000;
   ClearTimeline true; TypePrompt "a dog"; StartGeneration; Elapse 30000;
   Settle 0 (Video "blob:v2" "asset2"); Elapse 1000;
   Settle 0 (Text "blob:a1"); Elapse 9000; Settle 0 (Text "blob:m1")].

Definition overtaken_world : World :=
  after_events overtaken_voiceover_events scene_world.

(** The merged asset of scene [s], if any, was made from the scene's
    present video and audio. *)
Definition merged_from_current (w : World) (s : VideoScene) : Prop :=
  ∀ m, Scene.mergedUrl s = Some m →
    ∃ a, Scene.audioUrl s = Some a
         ∧ {| merged_asset := m; merged_video := Scene.url s; merged_audio := a |}
           ∈ merges w.

(** Scenes that differ at most in [isMerging]. *)
Definition same_but_isMerging (s s' : VideoScene) : Prop :=
  Scene.id s' = Scene.id s ∧ Scene.url s' = Scene.url s
  ∧ Scene.asset s' = Scene.asset s ∧ Scene.prompt s' = Scene.prompt s
  ∧ Scene.duration s' = Scene.duration s
  ∧ Scene.transition s' = Scene.transition s
  ∧ Scene.audioUrl s' = Scene.audioUrl s
  ∧ Scene.audioScript s' = Scene.audioScript s
  ∧ Scene.mergedUrl s' = Scene.mergedUrl s.





(** What an observer of the playback sees: the time, the scene shown,
    and whether the movie is playing. *)
Definition snapshot (w : World) : Z * nat * bool :=
  (now w, activeSceneIndex (hooks w), isPlayingAll (hooks w)).

(** The number of [generateVeoVideo] calls made so far, and of those
    still awaited. *)
Fixpoint video_calls (l : list call) : nat :=
  match l with
  | [] => 0
  | CallVideo _ :: l' => S (video_calls l')
  | _ :: l' => video_calls l'
  end.

Fixpoint pending_videos (l : list task) : nat :=
  match l with
  | [] => 0
  | AwaitVideo _ _ _ :: l' => S (pending_videos l')
  | _ :: l' => pending_videos l'
  end.

(** The separate audio element agrees with the active scene: when it
    plays, the scene has an audio track and no merged asset. *)
Definition audio_consistent (w : World) : Prop :=
  ∀ scene, timeline (hooks w) !! activeSceneIndex (hooks w) = Some scene →
    playing (audioPlayer w) = true →
    opt_truthy (Scene.audioUrl scene) = true
    ∧ opt_truthy (Scene.mergedUrl scene) = false.

(** The tasks that await a merge, and the scenes that the continuation
    of an audio task patches: those with the new scene's id in the
    auto-audio block ([s.id === newScene.id]), the one at the recorded
    index in the voiceover handler ([i === sceneIndex]). *)
Definition is_merge_task (t : task) : bool :=
  match t with
  | AwaitAutoMerge _ _ _ | AwaitVoiceMerge _ _ _ => true
  | _ => false
  end.

Definition addressed (t : task) (i : nat) (s : VideoScene) : bool :=
  match t with
  | AwaitAutoScript _ newScene | AwaitAutoSpeech _ newScene _
  | AwaitAutoMerge newScene _ _ =>
      bool_decide (Scene.id s = Scene.id newScene)
  | AwaitVoiceSpeech _ sceneIndex _ | AwaitVoiceMerge sceneIndex _ _ =>
      bool_decide (i = sceneIndex)
  | AwaitVideo _ _ _ | AwaitVoiceScript _ _ => false
  end.

(** Two worlds that agree on everything the generation code reads or
    writes outside the hooks for errors and progress flags. *)
Definition same_generation_state (w w' : World) : Prop :=
  timeline (hooks w') = timeline (hooks w)
  ∧ activeSceneIndex (hooks w') = activeSceneIndex (hooks w)
  ∧ isPlayingAll (hooks w') = isPlayingAll (hooks w)
  ∧ sceneDuration (hooks w') = sceneDuration (hooks w)
  ∧ timers w' = timers w ∧ timerSeq w' = timerSeq w
  ∧ merges w' = merges w ∧ now w' = now w
  ∧ effectTimer w' = effectTimer w
  ∧ timelineRef w' = timelineRef w
  ∧ audioPlayer w' = audioPlayer w.

(** A sequencer run with target count 3 on a freshly mounted component. *)
Definition auto_hooks : Hooks :=
  upd_isAutoGenerating true (upd_prompt "a cat" initial_hooks).

Definition auto_run_events : list event :=
  [StartGeneration; Elapse 30000; Settle 0 (Video "blob:v1" "asset1");
   Elapse 5000; Fire 0; Elapse 30000; Settle 0 (Video "blob:v2" "asset2");
   Elapse 5000; Fire 1; Elapse 30000; Settle 0 (Video "blob:v3" "asset3")].

(** The first request of such a run is in flight. *)
Definition auto_started_world : World :=
  after_events [StartGeneration; Elapse 30000] (mounted auto_hooks 1000).

(** What a handler or continuation may do to the state that the
    playback effect depends on: it leaves the audio element alone, and it
    changes the timeline only through [setTimeline], which renews the
    array identity. *)
Definition render_sound (w w' : World) : Prop :=
  audioPlayer w' = audioPlayer w
  ∧ (timelineRef w ≤ timelineRef w')%nat
  ∧ (timelineRef w' = timelineRef w → timeline (hooks w') = timeline (hooks w)).

(** Two scenes with declared durations 2 and 3 are on the timeline. *)
Definition movie_events : list event :=
  [TypePrompt "a cat"; StartGeneration; Elapse 40000;
   Settle 0 (Video "blob:v1" "asset1"); DurationChange "2";
   StartGeneration; Elapse 40000; Settle 0 (Video "blob:v2" "asset2");
   DurationChange "3"].

Definition movie_world : World :=
  after_events movie_events (mounted initial_hooks 1000).

(** *** The duration control

    The control is a range input with [min="1" max="15" step="1"].  Set
    to the whole number [x], the element holds the nearest value between
    its bounds, and that is what [e.target.value] reads in its
    [onChange]. *)
Definition range_value (x : Z) : string := toString (Z.max 1 (Z.min 15 x)).

(** [setDuration]: the duration control is set to [x] and its handler
    runs. *)
Definition setDuration (x : Z) (w : World) : World :=
  handleDurationChange (hooks w) (range_value x) w.

(** A duration between the bounds of the control. *)
Definition duration_ok (n : number) : Prop :=
  match n with
  | Num z => 1 ≤ z ≤ 15
  | NaN => False
  end.

(** The default duration held by the renders that can still create a
    scene: those of the generations awaited and of the sequencer's
    pending pauses. *)
Definition task_durations_ok (t : task) : Prop :=
  match t with
  | AwaitVideo c _ _ => duration_ok (sceneDuration c)
  | _ => True
  end.

Definition timer_durations_ok (tm : timer) : Prop :=
  match action tm with
  | ThrottleTimer c _ => duration_ok (sceneDuration c)
  | TransitionTimer _ => True
  end.

Definition durations_ok (w : World) : Prop :=
  duration_ok (sceneDuration (hooks w))
  ∧ Forall (λ s, duration_ok (Scene.duration s)) (timeline (hooks w))
  ∧ Forall task_durations_ok (tasks w)
  ∧ Forall timer_durations_ok (timers w).

(** *** Merge completions *)

(** The event is the arrival of a merged asset. *)
Definition is_merge_completion (e : event) (w : World) : bool :=
  match e with
  | Settle i (Text _) =>
      match tasks w !! i with
      | Some t => is_merge_task t
      | None => false
      end
  | _ => false
  end.

(** *** Scenarios of the playback *)

(** The movie of [movie_world] is started; from one second on, the
    transition button before the second scene is pressed three times, a
    quarter of a second apart, which brings the transition back to a
    cut. *)
Definition restarted_movie_events : list event :=
  [PlayAll; Elapse 1000; ToggleTransition 1; Elapse 250; ToggleTransition 1;
   Elapse 250; ToggleTransition 1].

Definition restarted_movie_world : World :=
  after_events restarted_movie_events movie_world.

(** A first scene with a merged voiceover, a second scene whose
    voiceover could not be merged; the movie is played up to the second
    scene. *)
Definition double_audio_events : list event :=
  one_scene_events ++ first_voiceover_events
  ++ [Elapse 1000; StartGeneration; Elapse 30000;
      Settle 0 (Video "blob:v2" "asset2");
      Elapse 1000; TypeVoiceText "Woof"; GenerateVoiceover false; Elapse 3000;
      Settle 0 (Text "blob:a2"); Elapse 2000;
      Settle 0 (Rejected (new_Error "Failed to fetch"));
      Elapse 1000; PlayAll; Elapse 8000; FireEffectTimer].

Definition double_audio_world : World :=
  after_events double_audio_events (mounted initial_hooks 1000).

(** The merged assets along the timeline. *)
Definition merged_view (w : World) : list (option string) :=
  Scene.mergedUrl <$> timeline (hooks w).


(** ** Further parts of the component *)

(** *** Downloads *)

(** [s.padStart(2, '0')] *)
Definition padStart2 (s : string) : string :=
  match s with
  | EmptyString => "00"
  | String _ EmptyString => String "0" s
  | _ => s
  end.

(** [(index + 1).toString().padStart(2, '0')] *)
Definition scene_num (index : nat) : string :=
  padStart2 (toString (Z.of_nat index + 1)).

(** The [href] and [download] attributes of the link that
    [handleDownloadScene] and [handleDownloadActiveVideo] create and
    click. *)
Definition download_link (scene : VideoScene) (index : nat) : string * string :=
  let downloadUrl := str_or (Scene.mergedUrl scene) (Scene.url scene) in
  let ext := if opt_truthy (Scene.mergedUrl scene) then "webm" else "mp4" in
  let num := scene_num index in
  (downloadUrl, "scene_" +:+ num +:+ "." +:+ ext).

Definition handleDownloadScene (scene : VideoScene) (index : nat) : string * string :=
  download_link scene index.

(** [None]: there is no active scene and nothing is downloaded. *)
Definition handleDownloadActiveVideo (c : Hooks) : option (string * string) :=
  match timeline c !! activeSceneIndex c with
  | Some scene => Some (download_link scene (activeSceneIndex c))
  | None => None
  end.

(** *** The project archive *)

Definition newline : string := String "010" EmptyString.

(** [array.join(sep)] *)
Definition join (sep : string) (l : list string) : string := String.concat sep l.

(** A file of the archive: fetched from a URL, or written as text. *)
Inductive content :=
| Fetched (url : string)
| Written (text : string).

Record archive := {
  archive_name : string;
  archive_files : list (string * content)
}.

Definition scenesToExport (c : Hooks) : list VideoScene :=
  if bool_decide (0 < size (selectedSceneIds c))%nat
  then filter (λ s, Scene.id s ∈ selectedSceneIds c) (timeline c)
  else timeline c.

(** The files that one pass of the [for] loop adds. *)
Definition scene_files (i : nat) (scene : VideoScene) : list (string * content) :=
  let num := scene_num i in
  ([("scene_" +:+ num +:+ "_video.mp4", Fetched (Scene.url scene))]
   ++ (if opt_truthy (Scene.audioUrl scene)
       then [("scene_" +:+ num +:+ "_audio.wav",
              Fetched (default "" (Scene.audioUrl scene)))]
       else [])
   ++ (if opt_truthy (Scene.mergedUrl scene)
       then [("scene_" +:+ num +:+ "_merged.webm",
              Fetched (default "" (Scene.mergedUrl scene)))]
       else []))%list.

(** The line that the pass appends to [fileListText]. *)
Definition list_line (i : nat) (scene : VideoScene) : string :=
  let num := scene_num i in
  if opt_truthy (Scene.audioUrl scene)
  then "file 'scene_" +:+ num +:+ "_final.mp4'" +:+ newline
  else "file 'scene_" +:+ num +:+ "_video.mp4'" +:+ newline.

Definition fileListText (scenes : list VideoScene) : string :=
  join "" (imap list_line scenes).

Definition winScript (scenes : list VideoScene) : string :=
  newline +:+ "@echo off" +:+ newline
  +:+ "mkdir merged_scenes 2>nul" +:+ newline
  +:+ join newline
        (imap (λ i s,
                 let num := scene_num i in
                 if opt_truthy (Scene.audioUrl s)
                 then "ffmpeg -i scene_" +:+ num +:+ "_video.mp4 -i scene_" +:+ num
                      +:+ "_audio.wav -c:v copy -c:a aac -map 0:v:0 -map 1:a:0 -shortest scene_"
                      +:+ num +:+ "_final.mp4"
                 else "REM No audio scene " +:+ num)
           scenes)
  +:+ newline +:+ "(" +:+ newline
  +:+ join newline
        (imap (λ i s,
                 let num := scene_num i in
                 if opt_truthy (Scene.audioUrl s)
                 then "echo file 'scene_" +:+ num +:+ "_final.mp4'"
                 else "echo file 'scene_" +:+ num +:+ "_video.mp4'")
           scenes)
  +:+ newline +:+ ") > list.txt" +:+ newline
  +:+ "ffmpeg -f concat -safe 0 -i list.txt -c copy full_movie_final.mp4" +:+ newline
  +:+ "pause" +:+ newline +:+ "        ".

(** [handleDownloadProjectZip] when every fetch succeeds: the archive it
    offers for download; [None] on an empty timeline, where it returns at
    once. *)
Definition handleDownloadProjectZip (c : Hooks) : option archive :=
  if bool_decide (timeline c = []) then None
  else
    let scenes := scenesToExport c in
    Some {| archive_name :=
              if bool_decide (0 < size (selectedSceneIds c))%nat
              then "wrm_studio_selection.zip"
              else "wrm_studio_full_project.zip";
            archive_files :=
              (List.concat (imap scene_files scenes)
               ++ [("merge_movie.bat", Written (winScript scenes));
                   ("list.txt", Written (fileListText scenes))])%list |}.

(** *** The classes of the two video elements *)

Definition base_classes : string :=
  "absolute inset-0 w-full h-full object-contain transition-all duration-700 ease-in-out".

Definition getPlayerClasses (c : Hooks) (p : PlayerId) : string :=
  let isActive := bool_decide (activePlayer c = p) in
  if negb (isTransitioning c) then
    if isActive then base_classes +:+ " opacity-100 z-10"
    else base_classes +:+ " opacity-0 z-0"
  else
    match transitionType c with
    | fade =>
        if isActive then base_classes +:+ " opacity-0 z-0"
        else base_classes +:+ " opacity-100 z-10"
    | slide =>
        if isActive then base_classes +:+ " -translate-x-full z-10"
        else base_classes +:+ " translate-x-0 z-20"
    | cut => base_classes +:+ " opacity-100"
    end.

(** A transition window is open only for a fade or a slide. *)
Definition transition_ok (c : Hooks) : Prop :=
  isTransitioning c = true → transitionType c ≠ cut.

(** *** Saved projects ([saveToProject] of the projects view)

    The storage entry holds the JSON text of a list of projects; an
    absent entry counts as the empty list.  The saved item is not looked
    into. *)
Section projects.
Variable Item : Type.

Record Project := {
  project_id : string;
  project_name : string;
  project_description : string;
  project_createdAt : string;
  project_items : list Item
}.

(** [targetProject.items.unshift(item)] *)
Definition unshift_item (item : Item) (p : Project) : Project :=
  {| project_id := project_id p; project_name := project_name p;
     project_description := project_description p;
     project_createdAt := project_createdAt p;
     project_items := item :: project_items p |}.

(** The new content of the storage entry and the text of the alert.
    [t] is [Date.now()] and [today] is [new Date().toLocaleDateString()]. *)
Definition saveToProject (item : Item) (projectName : option string) (t : Z)
    (today : string) (projects : list Project) : list Project * string :=
  let found :=
    if opt_truthy projectName
    then List.find (λ p, bool_decide (project_name p = default "" projectName))
           projects
    else head projects in
  let '(targetProject, projects) :=
    match found with
    | Some p => (p, projects)
    | None =>
        let p := {| project_id := toString t;
                    project_name := str_or projectName "General";
                    project_description := "Default Project";
                    project_createdAt := today;
                    project_items := [] |} in
        (p, (projects ++ [p])%list)
    end in
  let saved := unshift_item item targetProject in
  ((λ p, if decide (project_id p = project_id targetProject) then saved else p)
     <$> projects,
   "Saved to project: " +:+ project_name targetProject).

(** The project that [saveToProject] looks for: one with the given name,
    or any project when no name is given. *)
Definition project_wanted (projectName : option string) (p : Project) : bool :=
  if opt_truthy projectName
  then bool_decide (project_name p = default "" projectName)
  else true.

(** The project that [saveToProject] makes when it finds none. *)
Definition new_project (projectName : option string) (t : Z)
    (today : string) : Project :=
  {| project_id := toString t;
     project_name := str_or projectName "General";
     project_description := "Default Project";
     project_createdAt := today;
     project_items := [] |}.

End projects.

Arguments project_id {Item} _.
Arguments project_name {Item} _.
Arguments project_items {Item} _.
Arguments unshift_item {Item} _ _.
Arguments saveToProject {Item} _ _ _ _ _.
Arguments project_wanted {Item} _ _.
Arguments new_project {Item} _ _ _.

(** *** Decimal digits (for the numbers in file names) *)

Definition is_digit (a : ascii) : bool :=
  let n := N_of_ascii a in ((48 <=? n) && (n <=? 57))%N.

Fixpoint all_digits (s : string) : bool :=
  match s with
  | EmptyString => true
  | String a s' => is_digit a && all_digits s'
  end.

(** The number of exported scenes with an audio track, and with a merged
    asset. *)
Definition count_audio (l : list VideoScene) : nat :=
  length (filter (λ s, opt_truthy (Scene.audioUrl s) = true) l).

Definition count_merged (l : list VideoScene) : nat :=
  length (filter (λ s, opt_truthy (Scene.mergedUrl s) = true) l).

(** *** Scenario: a fade between two scenes is under way

    Two scenes, the second entered with a fade; the movie is started and
    the first scene has played for its two seconds. *)
Definition fading_events : list event :=
  [ToggleTransition 1; PlayAll; Elapse 2000; FireEffectTimer].

Definition fading_world : World := after_events fading_events movie_world.

(** What a scene is, apart from what can be attached to it later. *)
Definition scene_identity (s : VideoScene) : string * string * Asset * string :=
  (Scene.id s, Scene.url s, Scene.asset s, Scene.prompt s).

Definition identities (w : World) : list (string * string * Asset * string) :=
  scene_identity <$> timeline (hooks w).

(** *** Saving the story ([handleSaveProject])

    The saved item.  [characterLock] is a hook of the component that
    nothing else modelled here reads; it is passed in. *)
Record SavedItem := {
  item_id : string;
  item_type : string;
  item_title : string;
  item_date : string;
  item_timeline : list VideoScene;
  item_settings : string * Z * bool;
  item_tags : list string
}.

(** [None]: the timeline is empty and nothing is saved.  [t] and [today]
    are [Date.now()] and [new Date().toLocaleDateString()] as read for the
    item, [t'] and [today'] as read by [saveToProject] afterwards. *)
Definition handleSaveProject (c : Hooks) (characterLock : bool) (t : Z)
    (today : string) (t' : Z) (today' : string)
    (projects : list (Project SavedItem)) :
    option (list (Project SavedItem) * string) :=
  if bool_decide (timeline c = []) then None
  else
    let n := toString (Z.of_nat (length (timeline c))) in
    let item :=
      {| item_id := toString t;
         item_type := "VIDEO";
         item_title := "Cinematic Story (" +:+ n +:+ " Scenes)";
         item_date := today;
         item_timeline := timeline c;
         item_settings := (stylePreset c, motionIntensity c, characterLock);
         item_tags := ["video"; "story"; "scenes:" +:+ n] |} in
    Some (saveToProject item None t' today' projects).

(** *** Scenario: narration for a scene that is gone

    With automatic narration on, a scene is generated and the timeline is
    cleared while the narration is being written; the script has arrived
    and the speech is awaited. *)
Definition orphan_audio_events : list event :=
  [SetIsAutoAudio true; TypePrompt "a cat"; StartGeneration; Elapse 40000;
   Settle 0 (Video "blob:v1" "asset1"); ClearTimeline true;
   Settle 0 (Text "A cat walks in.")].

Definition orphan_audio_world : World :=
  after_events orphan_audio_events (mounted initial_hooks 1000).

(** The requests made to the video generator, newest first. *)
Fixpoint video_requests (l : list call) : list VeoRequest :=
  match l with
  | [] => []
  | CallVideo r :: l' => r :: video_requests l'
  | _ :: l' => video_requests l'
  end.

(** The automatic mode is not switched on and the loop setting is not
    changed between two worlds. *)
Definition auto_frame (w w' : World) : Prop :=
  (isAutoGenerating (hooks w') = true → isAutoGenerating (hooks w) = true)
  ∧ isLooping (hooks w') = isLooping (hooks w).

(** ** Properties *)

(** *** The model at work *)

Example parseInt_examples :
  parseInt "8" = Num 8 ∧ parseInt "15" = Num 15 ∧ parseInt " -12px" = Num (-12)
  ∧ parseInt "0x1f" = Num 31 ∧ parseInt "" = NaN ∧ parseInt "abc" = NaN.
Proof. repeat split; reflexivity. Qed.

Example toString_examples :
  toString 0 = "0" ∧ toString 1700000000000 = "1700000000000".
Proof. split; reflexivity. Qed.

Example slider_values_eq :
  slider_values =
  ["1"; "2"; "3"; "4"; "5"; "6"; "7"; "8"; "9"; "10"; "11"; "12"; "13"; "14"; "15"].
Proof. reflexivity. Qed.

Example scene_world_timeline :
  timeline (hooks scene_world)
  = [{| Scene.id := "41000"; Scene.url := "blob:v1"; Scene.asset := "asset1";
        Scene.prompt := "a cat"; Scene.duration := Num 8;
        Scene.transition := cut; Scene.audioUrl := None;
        Scene.audioScript := None; Scene.mergedUrl := None;
        Scene.isMerging := None |}]
  ∧ activeSceneIndex (hooks scene_world) = 0%nat
  ∧ tasks scene_world = [].
Proof. vm_compute. done. Qed.

(** *** Patches of the timeline *)

#[global] Arguments patch_at : simpl never.
#[global] Arguments patch_id : simpl never.

Section patches.
Context (f : VideoScene → VideoScene) (l : list VideoScene).

Lemma patch_at_lookup index i :
  patch_at index f l !! i
  = (λ s, if decide (i = index) then f s else s) <$> l !! i.
Proof. unfold patch_at. by rewrite list_lookup_imap. Qed.

Lemma patch_at_length index : length (patch_at index f l) = length l.
Proof. apply length_imap. Qed.

Lemma patch_at_nil_iff index : patch_at index f l = [] ↔ l = [].
Proof.
  split; [|by intros ->].
  intros H. apply (f_equal length) in H. rewrite patch_at_length in H.
  by destruct l.
Qed.

Lemma patch_id_lookup sceneId i :
  patch_id sceneId f l !! i
  = (λ s, if decide (Scene.id s = sceneId) then f s else s) <$> l !! i.
Proof. unfold patch_id. by rewrite list_lookup_fmap. Qed.

Lemma patch_id_length sceneId : length (patch_id sceneId f l) = length l.
Proof. apply length_fmap. Qed.
End patches.

Lemma patch_at_idem index f (l : list VideoScene) :
  (∀ s, f (f s) = f s) →
  patch_at index f (patch_at index f l) = patch_at index f l.
Proof.
  intros Hf. apply list_eq. intros i. rewrite !patch_at_lookup.
  destruct (l !! i) as [s|]; simpl; [|done].
  case_decide; by rewrite ?Hf.
Qed.

(** *** What a render leaves alone

    The playback effect writes the media elements and its own timeout,
    nothing else. *)

Ltac effect_frame :=
  unfold playback_effect, cleanup, on_player; repeat case_match; reflexivity.

Lemma hooks_playback_effect (w : World) : hooks (playback_effect w) = hooks w.
Proof. effect_frame. Qed.

Section render_frame.
Context (before after : World).

Lemma commit_cases :
  commit before after = after
  ∨ commit before after = playback_effect (cleanup after).
Proof. unfold commit. case_decide; auto. Qed.

Lemma hooks_commit : hooks (commit before after) = hooks after.
Proof. destruct commit_cases as [-> | ->]; [done | effect_frame]. Qed.

Lemma tasks_commit : tasks (commit before after) = tasks after.
Proof. destruct commit_cases as [-> | ->]; [done | effect_frame]. Qed.

Lemma timers_commit : timers (commit before after) = timers after.
Proof. destruct commit_cases as [-> | ->]; [done | effect_frame]. Qed.

Lemma timerSeq_commit : timerSeq (commit before after) = timerSeq after.
Proof. destruct commit_cases as [-> | ->]; [done | effect_frame]. Qed.

Lemma calls_commit : calls (commit before after) = calls after.
Proof. destruct commit_cases as [-> | ->]; [done | effect_frame]. Qed.

Lemma merges_commit : merges (commit before after) = merges after.
Proof. destruct commit_cases as [-> | ->]; [done | effect_frame]. Qed.

Lemma now_commit : now (commit before after) = now after.
Proof. destruct commit_cases as [-> | ->]; [done | effect_frame]. Qed.

Lemma stop_commit :
  stopAutoGenerationRef (commit before after) = stopAutoGenerationRef after.
Proof. destruct commit_cases as [-> | ->]; [done | effect_frame]. Qed.

Lemma timelineRef_commit : timelineRef (commit before after) = timelineRef after.
Proof. destruct commit_cases as [-> | ->]; [done | effect_frame]. Qed.
End render_frame.

Ltac rendered :=
  rewrite ?hooks_commit, ?tasks_commit, ?timers_commit, ?timerSeq_commit,
    ?calls_commit, ?merges_commit, ?now_commit, ?stop_commit,
    ?timelineRef_commit.

Lemma run_one (e : event) (w : World) : run [e] w = step e w.
Proof. simpl. by destruct (step e w). Qed.

Lemma run_cons (e : event) (es : list event) (w w' : World) :
  step e w = Some w' → run (e :: es) w = run es w'.
Proof. intros H. simpl. by rewrite H. Qed.

(** A settled task continues from the world without that task. *)
Lemma step_settle_head (w : World) (t : task) (rest : list task) (o : outcome) :
  tasks w = t :: rest →
  step (Settle 0 o) w = commit w <$> continue_task t o (upd_tasks rest w).
Proof. intros H. unfold step. simpl. by rewrite H. Qed.

(** *** Setting a scene's duration *)

Lemma slider_value_range (value : string) :
  value ∈ slider_values → ∃ z, parseInt value = Num z ∧ 1 ≤ z ≤ 15.
Proof.
  rewrite slider_values_eq. intros H.
  repeat (apply elem_of_cons in H as [-> | H];
          [eexists; split; [cbv; reflexivity | lia] |]).
  by apply elem_of_nil in H.
Qed.

(** The value that the control holds is one of its fifteen values, and
    the handler reads it back as the number it stands for. *)
Lemma range_value_read (x : Z) :
  range_value x ∈ slider_values
  ∧ parseInt (range_value x) = Num (Z.max 1 (Z.min 15 x)).
Proof.
  unfold range_value. set (z := Z.max 1 (Z.min 15 x)).
  assert (Hz : z = 1 ∨ z = 2 ∨ z = 3 ∨ z = 4 ∨ z = 5 ∨ z = 6 ∨ z = 7 ∨ z = 8
               ∨ z = 9 ∨ z = 10 ∨ z = 11 ∨ z = 12 ∨ z = 13 ∨ z = 14 ∨ z = 15)
    by lia.
  clearbody z. rewrite slider_values_eq.
  repeat (destruct Hz as [-> | Hz];
          [split; [set_solver | vm_compute; reflexivity] |]).
  subst z. split; [set_solver | vm_compute; reflexivity].
Qed.

(** What [handleDurationChange] does with any text it is given: it
    stores the parsed number in the default for new scenes and in the
    active scene, leaves the other scenes and the length of the timeline
    alone, and does nothing more when it runs again on the same text. *)
Lemma handleDurationChange_stores (w : World) (value : string) (i : nat)
    (s : VideoScene) :
  timeline (hooks w) !! i = Some s →
  let val := parseInt value in
  let w1 := handleDurationChange (hooks w) value w in
  let w2 := handleDurationChange (hooks w1) value w1 in
  sceneDuration (hooks w1) = val
  ∧ timeline (hooks w1) !! i
    = Some (if decide (i = activeSceneIndex (hooks w))
            then Scene.with_duration val s else s)
  ∧ length (timeline (hooks w1)) = length (timeline (hooks w))
  ∧ timeline (hooks w2) = timeline (hooks w1)
  ∧ sceneDuration (hooks w2) = sceneDuration (hooks w1).
Proof.
  intros Hs val w1 w2.
  assert (Hne : timeline (hooks w) ≠ []) by (intros E; by rewrite E in Hs).
  assert (E1 : timeline (hooks w1)
               = patch_at (activeSceneIndex (hooks w)) (Scene.with_duration val)
                   (timeline (hooks w))).
  { subst w1. unfold handleDurationChange. by rewrite bool_decide_true. }
  assert (Ei : activeSceneIndex (hooks w1) = activeSceneIndex (hooks w)).
  { subst w1. unfold handleDurationChange. by case_bool_decide. }
  repeat split.
  - subst w1. unfold handleDurationChange. by case_bool_decide.
  - by rewrite E1, patch_at_lookup, Hs.
  - by rewrite E1, patch_at_length.
  - subst w2. unfold handleDurationChange at 1.
    rewrite bool_decide_true.
    + cbn. rewrite Ei, E1. by apply patch_at_idem.
    + by rewrite E1, patch_at_nil_iff.
  - subst w2. unfold handleDurationChange at 1. case_bool_decide; cbn.
    all: subst w1; unfold handleDurationChange; by case_bool_decide.
Qed.

(** *** Voiceover, merge and the merged asset *)

Example regenerating_world_facts :
  feasible (one_scene_events ++ first_voiceover_events ++ second_voiceover_events)
    (mounted initial_hooks 1000) = true
  ∧ timeline (hooks regenerating_world)
    = [{| Scene.id := "41000"; Scene.url := "blob:v1"; Scene.asset := "asset1";
          Scene.prompt := "a cat"; Scene.duration := Num 8;
          Scene.transition := cut; Scene.audioUrl := Some "blob:a2";
          Scene.audioScript := Some "Goodbye"; Scene.mergedUrl := Some "blob:m1";
          Scene.isMerging := Some true |}]
  ∧ merges regenerating_world
    = [{| merged_asset := "blob:m1"; merged_video := "blob:v1";
          merged_audio := "blob:a1" |}]
  ∧ tasks regenerating_world = [AwaitVoiceMerge 0 "blob:v1" "blob:a2"].
Proof. vm_compute. done. Qed.

(** C1, as stated, fails.  On the page, a voiceover is generated and
    merged for a scene and then generated again: when the second speech
    has arrived, the scene holds the new [audioUrl] together with the
    [mergedUrl] made from the first one. *)
Lemma regeneration_keeps_stale_merge :
  feasible (one_scene_events ++ first_voiceover_events ++ second_voiceover_events)
    (mounted initial_hooks 1000) = true
  ∧ ¬ (∀ s, s ∈ timeline (hooks regenerating_world) →
            merged_from_current regenerating_world s).
Proof.
  destruct regenerating_world_facts as (Hf & Ht & Hm & _).
  split; [exact Hf |].
  intros H. rewrite Ht in H.
  destruct (H _ (list_elem_of_here _ _) "blob:m1" eq_refl) as (a & Ha & Hin).
  simpl in Ha. injection Ha as <-.
  rewrite Hm in Hin. apply list_elem_of_singleton in Hin. discriminate Hin.
Qed.

(** *** A failed merge *)

Example failed_merge_world_facts :
  feasible
    (one_scene_events ++ first_voiceover_events ++ second_voiceover_events
     ++ [Elapse 2000; Settle 0 (Rejected (new_Error "Failed to fetch"))])
    (mounted initial_hooks 1000) = true
  ∧ timeline (hooks failed_merge_world)
    = [{| Scene.id := "41000"; Scene.url := "blob:v1"; Scene.asset := "asset1";
          Scene.prompt := "a cat"; Scene.duration := Num 8;
          Scene.transition := cut; Scene.audioUrl := Some "blob:a2";
          Scene.audioScript := Some "Goodbye"; Scene.mergedUrl := Some "blob:m1";
          Scene.isMerging := Some false |}].
Proof. vm_compute. done. Qed.

(** C6, as stated, fails in one respect: after a failed merge the scene
    need not be without [mergedUrl].  When the voiceover of a scene that
    has a merged asset is generated again and the new merge fails, the
    earlier [mergedUrl] is still there. *)
Lemma merge_failure_keeps_old_mergedUrl :
  feasible
    (one_scene_events ++ first_voiceover_events ++ second_voiceover_events
     ++ [Elapse 2000; Settle 0 (Rejected (new_Error "Failed to fetch"))])
    (mounted initial_hooks 1000) = true
  ∧ Scene.isMerging <$> timeline (hooks failed_merge_world) = [Some false]
  ∧ Scene.mergedUrl <$> timeline (hooks failed_merge_world) = [Some "blob:m1"]
  ∧ ¬ (∀ s, s ∈ timeline (hooks failed_merge_world) → Scene.mergedUrl s = None).
Proof.
  destruct failed_merge_world_facts as (Hf & Ht).
  split; [exact Hf |]. rewrite Ht. repeat split.
  intros H. by specialize (H _ (list_elem_of_here _ _)).
Qed.

Lemma with_merge_failed_same (s : VideoScene) :
  same_but_isMerging s (Scene.with_merge_failed s).
Proof. by repeat split. Qed.

(** C6, as the code has it.  When the merge awaited by a task fails, the
    continuation sets [isMerging = false] on the scenes it addresses and
    changes no other field of them: video, duration, audio and
    [mergedUrl] are as they were.  No scene is removed, the scenes not
    addressed are unchanged, and no further merge is requested. *)
Theorem merge_failure_frame (w : World) (t : task) (rest : list task)
    (e : JsError) :
  is_merge_task t = true →
  tasks w = t :: rest →
  ∃ w',
    step (Settle 0 (Rejected e)) w = Some w'
    ∧ length (timeline (hooks w')) = length (timeline (hooks w))
    ∧ (∀ i s, timeline (hooks w) !! i = Some s →
         ∃ s', timeline (hooks w') !! i = Some s'
               ∧ if addressed t i s
                 then Scene.isMerging s' = Some false ∧ same_but_isMerging s s'
                 else s' = s)
    ∧ tasks w' = rest
    ∧ calls w' = calls w.
Proof.
  intros Hm Ht. rewrite (step_settle_head _ _ _ _ Ht).
  destruct t as [| | |newScene v a| | |idx v a]; try discriminate Hm;
    simpl continue_task; (eexists; split; [reflexivity |]); rendered; cbn.
  - split; [apply patch_id_length |]. split; [| done].
    intros i s Hs. rewrite patch_id_lookup, Hs. cbn.
    eexists; split; [reflexivity |].
    case_bool_decide; [rewrite decide_True by done | rewrite decide_False by done].
    + split; [done | apply with_merge_failed_same].
    + done.
  - split; [apply patch_at_length |]. split; [| done].
    intros i s Hs. rewrite patch_at_lookup, Hs. cbn.
    eexists; split; [reflexivity |].
    case_bool_decide; [rewrite decide_True by done | rewrite decide_False by done].
    + split; [done | apply with_merge_failed_same].
    + done.
Qed.

Lemma merge_failure_frame_witness :
  ∃ w',
    step (Settle 0 (Rejected (new_Error "Failed to fetch"))) before_merge_failure
    = Some w'
    ∧ length (timeline (hooks w')) = 1%nat
    ∧ tasks w' = [].
Proof.
  assert (Ht : tasks before_merge_failure = [AwaitVoiceMerge 0 "blob:v1" "blob:a2"])
    by (vm_compute; reflexivity).
  assert (Hl : length (timeline (hooks before_merge_failure)) = 1%nat)
    by (vm_compute; reflexivity).
  destruct (merge_failure_frame before_merge_failure
              (AwaitVoiceMerge 0 "blob:v1" "blob:a2") []
              (new_Error "Failed to fetch") eq_refl Ht)
    as (w' & Hs & Hlen & _ & Hr & _).
  exists w'. rewrite Hlen, Hl. by repeat split.
Defined.

(** *** A voiceover overtaken by a change of the timeline *)

(** C2 holds for the auto-audio block of [executeGeneration], which
    patches by [s.id === newScene.id], and fails for
    [handleGenerateVoiceover], which patches by the index it read before
    its awaits.  On the page: the voiceover of scene "41000" is
    requested, the timeline is cleared and scene "72000" generated while
    the speech is awaited; the speech and the merged asset, made from the
    video of scene "41000", then land on scene "72000". *)
Theorem voiceover_patch_hits_other_scene :
  feasible (one_scene_events ++ overtaken_voiceover_events)
    (mounted initial_hooks 1000) = true
  ∧ Scene.id <$> timeline (hooks scene_world) = ["41000"]
  ∧ timeline (hooks overtaken_world)
    = [{| Scene.id := "72000"; Scene.url := "blob:v2"; Scene.asset := "asset2";
          Scene.prompt := "a dog"; Scene.duration := Num 8;
          Scene.transition := cut; Scene.audioUrl := Some "blob:a1";
          Scene.audioScript := Some "Hello"; Scene.mergedUrl := Some "blob:m1";
          Scene.isMerging := Some false |}]
  ∧ merges overtaken_world
    = [{| merged_asset := "blob:m1"; merged_video := "blob:v1";
          merged_audio := "blob:a1" |}].
Proof. vm_compute. done. Qed.

(** *** Scene ids and appends *)

Lemma toString_inj (a b : Z) : toString a = toString b → a = b.
Proof.
  unfold toString. intros H.
  assert (Hn : ∀ z, Z.to_int z ≠ Decimal.Pos Decimal.Nil
                    ∧ Z.to_int z ≠ Decimal.Neg Decimal.Nil).
  { intros [|p|p]; simpl; split; try discriminate;
      intros [= E]; by apply DecimalPos.Unsigned.to_uint_nonnil in E. }
  apply DecimalZ.to_int_inj.
  assert (E : Some (Z.to_int a) = Some (Z.to_int b)).
  { rewrite <- (NilZero.isi (Z.to_int a)), <- (NilZero.isi (Z.to_int b));
      try apply Hn. by rewrite H. }
  by injection E.
Qed.

#[global] Instance toString_Inj : Inj (=) (=) toString.
Proof. intros a b. apply toString_inj. Qed.

Lemma executeGeneration_resume_hooks (c : Hooks) (p u : string) (a : Asset)
    (w : World) :
  timeline (hooks (executeGeneration_resume c p u a w))
  = (timeline (hooks w) ++ [newScene_of c p u a w])%list
  ∧ activeSceneIndex (hooks (executeGeneration_resume c p u a w))
    = length (timeline (hooks w))
  ∧ now (executeGeneration_resume c p u a w) = now w.
Proof.
  unfold executeGeneration_resume. destruct (isAutoAudio c); cbn.
  all: rewrite length_app; cbn; repeat split; lia.
Qed.






(** *** Scene generation and the sequencer *)

#[global] Arguments commit : simpl never.

Lemma same_generation_state_refl (w : World) : same_generation_state w w.
Proof. by repeat split. Qed.

Lemma same_generation_state_trans (w1 w2 w3 : World) :
  same_generation_state w1 w2 → same_generation_state w2 w3 →
  same_generation_state w1 w3.
Proof.
  unfold same_generation_state. intros H1 H2.
  destruct H1 as (?&?&?&?&?&?&?&?&?&?&?), H2 as (?&?&?&?&?&?&?&?&?&?&?).
  repeat split; congruence.
Qed.

(** The effect sets no timeout while the movie is not playing. *)
Lemma effectTimer_commit_idle (before after : World) :
  isPlayingAll (hooks after) = false → effectTimer after = None →
  effectTimer (commit before after) = None.
Proof.
  intros Hp He. destruct (commit_cases before after) as [-> | ->]; [done |].
  unfold playback_effect, cleanup. cbn. rewrite Hp.
  repeat case_match; reflexivity.
Qed.

(** What the [catch] block of [executeGeneration] leaves alone. *)
Lemma executeGeneration_catch_frame (e : JsError) (w : World) :
  let w' := executeGeneration_catch e w in
  same_generation_state w w'
  ∧ isAutoGenerating (hooks w') = isAutoGenerating (hooks w)
  ∧ isGenerating (hooks w') = false
  ∧ is_Some (error (hooks w'))
  ∧ tasks w' = tasks w ∧ calls w' = calls w
  ∧ stopAutoGenerationRef w' = stopAutoGenerationRef w.
Proof.
  unfold executeGeneration_catch, same_generation_state.
  repeat match goal with
         | |- context [orb ?a ?b] => generalize (orb a b); intros ?
         end.
  repeat match goal with
         | |- context [includes ?a ?b] => generalize (includes a b); intros ?
         end.
  repeat case_match; simplify_eq; cbn; repeat split; eauto.
Qed.

(** [executeGeneration] with a usable prompt: the request is made and
    awaited. *)
Lemma executeGeneration_suspends (c : Hooks) (isChain : bool) (k : kont)
    (w : World) (p : string) :
  enhance c isChain = Some p →
  let w' := (executeGeneration c isChain k w).1 in
  (executeGeneration c isChain k w).2 = true
  ∧ same_generation_state w w'
  ∧ tasks w' = AwaitVideo c p k :: tasks w
  ∧ (∃ r, calls w' = CallVideo r :: calls w)
  ∧ isGenerating (hooks w') = true
  ∧ isAutoGenerating (hooks w') = isAutoGenerating (hooks w)
  ∧ stopAutoGenerationRef w' = stopAutoGenerationRef w.
Proof.
  intros Hp. unfold executeGeneration. rewrite Hp. cbn.
  unfold same_generation_state. cbn. repeat split; eauto.
Qed.

(** [executeGeneration] without image and prompt on an empty timeline:
    it fails before any request. *)
Lemma executeGeneration_rejects (c : Hooks) (isChain : bool) (k : kont)
    (w : World) :
  enhance c isChain = None →
  let w' := (executeGeneration c isChain k w).1 in
  (executeGeneration c isChain k w).2 = false
  ∧ same_generation_state w w'
  ∧ tasks w' = tasks w ∧ calls w' = calls w
  ∧ isGenerating (hooks w') = false
  ∧ is_Some (error (hooks w'))
  ∧ isAutoGenerating (hooks w') = isAutoGenerating (hooks w)
  ∧ stopAutoGenerationRef w' = stopAutoGenerationRef w.
Proof.
  intros Hp. unfold executeGeneration. rewrite Hp. cbn.
  match goal with
  | |- context [executeGeneration_catch ?e ?w0] =>
      destruct (executeGeneration_catch_frame e w0) as (Hs & Ha & Hg & He & Ht & Hc & Hst)
  end.
  split; [done |].
  split.
  { eapply same_generation_state_trans; [| exact Hs]. by repeat split. }
  rewrite Ht, Hc, Hg, Ha, Hst. cbn. by repeat split.
Qed.

(** With a timeline that is not empty, the prompt check cannot fail. *)
Lemma enhance_extension (c : Hooks) (isChain : bool) :
  timeline c ≠ [] → is_Some (enhance c isChain).
Proof.
  intros H. unfold enhance. rewrite bool_decide_true by done. cbn.
  repeat case_match; eauto.
Qed.

(** The continuation of a successful generation in the loop. *)
Lemma loop_success_step (w : World) (c : Hooks) (p u : string) (a : Asset)
    (count : Z) (rest : list task) :
  tasks w = AwaitVideo c p (K_loop count) :: rest →
  ∃ w1,
    step (Settle 0 (Video u a)) w = Some w1
    ∧ timeline (hooks w1) = (timeline (hooks w) ++ [newScene_of c p u a w])%list
    ∧ activeSceneIndex (hooks w1) = length (timeline (hooks w))
    ∧ isPlayingAll (hooks w1) = isPlayingAll (hooks w)
    ∧ video_calls (calls w1) = video_calls (calls w)
    ∧ pending_videos (tasks w1) = pending_videos rest
    ∧ now w1 = now w
    ∧ stopAutoGenerationRef w1 = stopAutoGenerationRef w
    ∧ sceneDuration (hooks w1) = sceneDuration (hooks w)
    ∧ (isPlayingAll (hooks w) = false → effectTimer w = None →
       effectTimer w1 = None)
    ∧ if lt_num (count + 1) (autoGenCount c) && negb (stopAutoGenerationRef w)
      then timers w1
           = {| timer_id := timerSeq w; due := now w + 5000;
                action := ThrottleTimer c (count + 1) |} :: timers w
           ∧ timerSeq w1 = S (timerSeq w)
           ∧ isAutoGenerating (hooks w1) = isAutoGenerating (hooks w)
      else timers w1 = timers w
           ∧ timerSeq w1 = timerSeq w
           ∧ isAutoGenerating (hooks w1) = false.
Proof.
  intros Ht. rewrite (step_settle_head _ _ _ _ Ht).
  cbv beta iota zeta delta [continue_task resume_kont loop_after_generation].
  change (negb true) with false. cbv iota.
  eexists. split; [reflexivity |].
  match goal with
  | |- context [commit w ?W] =>
      assert (Hidle : isPlayingAll (hooks W) = isPlayingAll (hooks w)
                      ∧ effectTimer W = effectTimer w);
      [| assert (Hi : isPlayingAll (hooks w) = false → effectTimer w = None →
                      effectTimer (commit w W) = None)
           by (destruct Hidle as [Hi1 Hi2]; intros Hp0 He0;
               apply effectTimer_commit_idle; congruence);
         clear Hidle; revert Hi; generalize (effectTimer (commit w W)); intros et Hi ]
  end.
  { unfold executeGeneration_resume, loop_tail, loop_head.
    repeat case_match; simplify_eq; cbn; try done.
    all: match goal with
         | H : executeGeneration ?c ?b ?k ?w0 = (?w', ?s) |- _ =>
             destruct (enhance c b) as [q|] eqn:Hq;
             [ destruct (executeGeneration_suspends c b k w0 q Hq) as (_ & Hs & _)
             | destruct (executeGeneration_rejects c b k w0 Hq) as (_ & Hs & _) ];
             rewrite H in Hs; simpl in Hs;
             destruct Hs as (_ & _ & Hs1 & _ & _ & _ & _ & _ & Hs2 & _);
             cbn in *; by rewrite ?Hs1, ?Hs2
         end. }
  rendered.
  set (w0 := executeGeneration_resume c p u a (upd_tasks rest w)).
  assert (H0 : timeline (hooks w0) = (timeline (hooks w) ++ [newScene_of c p u a w])%list
               ∧ sceneDuration (hooks w0) = sceneDuration (hooks w)
               ∧ activeSceneIndex (hooks w0) = length (timeline (hooks w))
               ∧ isPlayingAll (hooks w0) = isPlayingAll (hooks w)
               ∧ isAutoGenerating (hooks w0) = isAutoGenerating (hooks w)
               ∧ video_calls (calls w0) = video_calls (calls w)
               ∧ pending_videos (tasks w0) = pending_videos rest
               ∧ now w0 = now w ∧ stopAutoGenerationRef w0 = stopAutoGenerationRef w
               ∧ timers w0 = timers w ∧ timerSeq w0 = timerSeq w).
  { subst w0. unfold executeGeneration_resume.
    destruct (isAutoAudio c); cbn; rewrite length_app; cbn;
      repeat split; try lia; try done. }
  destruct H0 as (E1 & E0 & E2 & E3 & E4 & E5 & E6 & E7 & E8 & E9 & E10).
  clearbody w0. rewrite E8.
  destruct (lt_num (count + 1) (autoGenCount c) && negb (stopAutoGenerationRef w))
    eqn:Hc.
  - cbn. rewrite E0, E1, E2, E3, E4, E5, E6, E7, E8, E9, E10. by repeat split.
  - unfold loop_tail, loop_head. rewrite E8.
    assert (Hh : (if ge_num (count + 1) (autoGenCount c) || stopAutoGenerationRef w
                  then false else true)
                 && negb (stopAutoGenerationRef w)
                 && lt_num (count + 1) (autoGenCount c) = false).
    { destruct (stopAutoGenerationRef w), (lt_num (count + 1) (autoGenCount c)),
        (ge_num (count + 1) (autoGenCount c)); done. }
    rewrite Hh. cbn. rewrite E0, E1, E2, E3, E5, E6, E7, E8, E9, E10. by repeat split.
Qed.

(** The continuation of a failed generation in the loop: the loop ends. *)
Lemma loop_failure_step (w : World) (c : Hooks) (p : string) (count : Z)
    (rest : list task) (e : JsError) :
  tasks w = AwaitVideo c p (K_loop count) :: rest →
  ∃ w1,
    step (Settle 0 (Rejected e)) w = Some w1
    ∧ timeline (hooks w1) = timeline (hooks w)
    ∧ tasks w1 = rest
    ∧ calls w1 = calls w
    ∧ timers w1 = timers w
    ∧ isAutoGenerating (hooks w1) = false
    ∧ is_Some (error (hooks w1)).
Proof.
  intros Ht. rewrite (step_settle_head _ _ _ _ Ht).
  cbv beta iota zeta delta [continue_task resume_kont loop_after_generation].
  change (negb false) with true. cbv iota.
  eexists. split; [reflexivity |]. rendered.
  destruct (executeGeneration_catch_frame e (upd_tasks rest w))
    as (Hs & Ha & Hg & He & Htk & Hc & Hst).
  destruct Hs as (Htl & _ & _ & _ & Htm & _).
  cbn. rewrite Htl, Htk, Hc, Htm. by repeat split.
Qed.

(** Time passes when no timeout is due earlier. *)
Lemma step_elapse (w : World) (dt : Z) :
  0 ≤ dt → none_due_before (now w + dt) w = true →
  step (Elapse dt) w = Some (upd_now (now w + dt) w).
Proof.
  intros Hdt Hd. unfold step. simpl.
  rewrite Hd, (proj2 (Z.leb_le 0 dt) Hdt). simpl.
  unfold commit. by rewrite decide_True.
Qed.

(** A pending throttle timeout: it cannot fire before it is due; when it
    fires, the next request is made unless the run was stopped or the
    target count is reached. *)
Lemma throttle_fire_step (w : World) (tm : timer) (others : list timer)
    (c : Hooks) (count : Z) :
  take_timer (timer_id tm) (timers w) = Some (tm, others) →
  action tm = ThrottleTimer c count →
  (now w < due tm → step (Fire (timer_id tm)) w = None)
  ∧ (due tm ≤ now w →
     ∃ w1,
       step (Fire (timer_id tm)) w = Some w1
       ∧ timers w1 = others
       ∧ timeline (hooks w1) = timeline (hooks w)
       ∧ now w1 = now w
       ∧ isPlayingAll (hooks w1) = isPlayingAll (hooks w)
       ∧ stopAutoGenerationRef w1 = stopAutoGenerationRef w
       ∧ match enhance c true with
         | Some p =>
             if negb (stopAutoGenerationRef w) && lt_num count (autoGenCount c)
             then tasks w1 = AwaitVideo c p (K_loop count) :: tasks w
                  ∧ ∃ r, calls w1 = CallVideo r :: calls w
             else tasks w1 = tasks w ∧ calls w1 = calls w
                  ∧ isAutoGenerating (hooks w1) = false
         | None =>
             tasks w1 = tasks w ∧ calls w1 = calls w
             ∧ isAutoGenerating (hooks w1) = false
         end).
Proof.
  intros Htk Ha. split.
  - intros Hlt. unfold step. simpl. rewrite Htk.
    by rewrite (proj2 (Z.leb_gt (due tm) (now w)) Hlt).
  - intros Hle. unfold step. simpl. rewrite Htk.
    rewrite (proj2 (Z.leb_le (due tm) (now w)) Hle). simpl. rewrite Ha. simpl.
    eexists. split; [reflexivity |]. rendered.
    unfold loop_tail, loop_head. cbn [stopAutoGenerationRef upd_timers].
    set (w0 := upd_timers others w).
    destruct (stopAutoGenerationRef w) eqn:Hst.
    { rewrite orb_true_r. cbn. rewrite Hst.
      destruct (enhance c true); by repeat split. }
    rewrite orb_false_r, andb_true_r. simpl negb.
    destruct (lt_num count (autoGenCount c)) eqn:Hlt.
    + assert (Hge : ge_num count (autoGenCount c) = false).
      { destruct (autoGenCount c); [| done]. simpl in *. lia. }
      rewrite Hge. simpl andb. cbv iota.
      destruct (enhance c true) as [p|] eqn:Hen.
      * destruct (executeGeneration_suspends c true (K_loop count) w0 p Hen)
          as (H2 & Hs & Ht & Hc & _ & _ & Hstop).
        destruct (executeGeneration c true (K_loop count) w0) as [w' b].
        simpl in *. subst b.
        destruct Hs as (Htl & _ & Hpl & _ & Htm & _ & _ & Hnow & _).
        rewrite Htl, Htm, Hnow, Hpl, Hstop, Ht. subst w0. cbn.
        rewrite Hst. repeat split; try done.
      * destruct (executeGeneration_rejects c true (K_loop count) w0 Hen)
          as (H2 & Hs & Ht & Hc & _ & _ & _ & Hstop).
        destruct (executeGeneration c true (K_loop count) w0) as [w' b].
        simpl in *. subst b.
        destruct Hs as (Htl & _ & Hpl & _ & Htm & _ & _ & Hnow & _).
        cbn. rewrite Htl, Htm, Hnow, Hpl, Hstop, Ht, Hc. subst w0. cbn.
        rewrite Hst. by repeat split.
    + rewrite andb_false_r. cbn. rewrite Hst.
      destruct (enhance c true); by repeat split.
Qed.

(** Stopping leaves the request in flight and the pending timeouts
    alone; it raises the flag. *)
Lemma stop_step (w : World) :
  ∃ w1,
    step StopAuto w = Some w1
    ∧ tasks w1 = tasks w ∧ timers w1 = timers w ∧ calls w1 = calls w
    ∧ timeline (hooks w1) = timeline (hooks w)
    ∧ stopAutoGenerationRef w1 = true
    ∧ isAutoGenerating (hooks w1) = false.
Proof.
  unfold step. simpl. eexists. split; [reflexivity |]. rendered.
  by repeat split.
Qed.

(** Pressing the generate button when no cooldown runs and the prompt
    check passes: one request is made and awaited. *)
Lemma start_step (w : World) (p : string) :
  coolDown (hooks w) ≤ 0 →
  enhance (hooks w) (isAutoGenerating (hooks w)) = Some p →
  (isAutoGenerating (hooks w) = true → lt_num 0 (autoGenCount (hooks w)) = true) →
  ∃ w1,
    step StartGeneration w = Some w1
    ∧ tasks w1
      = AwaitVideo (hooks w) p
          (if isAutoGenerating (hooks w) then K_loop 0 else K_single) :: tasks w
    ∧ (∃ r, calls w1 = CallVideo r :: calls w)
    ∧ timeline (hooks w1) = timeline (hooks w)
    ∧ isPlayingAll (hooks w1) = isPlayingAll (hooks w)
    ∧ timers w1 = timers w ∧ timerSeq w1 = timerSeq w ∧ now w1 = now w
    ∧ stopAutoGenerationRef w1 = false
    ∧ (isPlayingAll (hooks w) = false → effectTimer w = None →
       effectTimer w1 = None)
    ∧ sceneDuration (hooks w1) = sceneDuration (hooks w).
Proof.
  intros Hcd Hen Hcount. unfold step. simpl handle. unfold handleStartGeneration.
  rewrite (proj2 (Z.ltb_ge 0 (coolDown (hooks w))) Hcd).
  set (w0 := upd_stopAutoGenerationRef false w).
  assert (Hx : ∀ k, let w' := (executeGeneration (hooks w) (isAutoGenerating (hooks w)) k w0).1 in
               (executeGeneration (hooks w) (isAutoGenerating (hooks w)) k w0).2 = true
               ∧ tasks w' = AwaitVideo (hooks w) p k :: tasks w
               ∧ (∃ r, calls w' = CallVideo r :: calls w)
               ∧ timeline (hooks w') = timeline (hooks w)
               ∧ isPlayingAll (hooks w') = isPlayingAll (hooks w)
               ∧ timers w' = timers w ∧ timerSeq w' = timerSeq w ∧ now w' = now w
               ∧ stopAutoGenerationRef w' = false
               ∧ effectTimer w' = effectTimer w
               ∧ sceneDuration (hooks w') = sceneDuration (hooks w)).
  { intros k.
    destruct (executeGeneration_suspends _ _ k w0 p Hen)
      as (H2 & Hs & Ht & Hc & _ & _ & Hstop).
    destruct Hs as (Htl & _ & Hpl & Hsd & Htm & Hsq & _ & Hnow & Het & _).
    cbn zeta. by rewrite Htl, Hpl, Hsd, Htm, Hsq, Hnow, Het, Ht, Hstop. }
  destruct (isAutoGenerating (hooks w)) eqn:Hauto; simpl negb; cbv iota.
  - unfold loop_head. simpl andb. rewrite (Hcount eq_refl).
    specialize (Hx (K_loop 0)). cbn zeta in Hx.
    destruct (executeGeneration (hooks w) true (K_loop 0) w0) as [w' b].
    simpl in Hx.
    destruct Hx as (-> & Ht & Hc & Htl & Hpl & Htm & Hsq & Hnow & Hstop & Het & Hsd).
    subst w0. cbn in *. eexists. split; [reflexivity |]. rendered.
    repeat split; try done.
    intros Hp He. apply effectTimer_commit_idle; congruence.
  - specialize (Hx K_single). cbn zeta in Hx.
    destruct (executeGeneration (hooks w) false K_single w0) as [w' b].
    simpl in Hx.
    destruct Hx as (-> & Ht & Hc & Htl & Hpl & Htm & Hsq & Hnow & Hstop & Het & Hsd).
    simpl. eexists. split; [reflexivity |]. rendered.
    repeat split; try done.
    intros Hp He. apply effectTimer_commit_idle; congruence.
Qed.

(** A successful single generation appends its scene. *)
Lemma generation_success_step (w : World) (c : Hooks) (p u : string) (a : Asset)
    (k : kont) (rest : list task) :
  tasks w = AwaitVideo c p k :: rest →
  ∃ w1,
    step (Settle 0 (Video u a)) w = Some w1
    ∧ timeline (hooks w1) = (timeline (hooks w) ++ [newScene_of c p u a w])%list
    ∧ activeSceneIndex (hooks w1) = length (timeline (hooks w))
    ∧ sceneDuration (hooks w1) = sceneDuration (hooks w).
Proof.
  intros Ht. destruct k as [|count].
  - rewrite (step_settle_head _ _ _ _ Ht).
    cbv beta iota zeta delta [continue_task resume_kont].
    eexists. split; [reflexivity |]. rendered.
    unfold executeGeneration_resume. destruct (isAutoAudio c); cbn;
      rewrite length_app; cbn; repeat split; try lia; done.
  - destruct (loop_success_step w c p u a count rest Ht)
      as (w1 & Hs & Htl & Hi & _ & _ & _ & _ & _ & Hd & _).
    by exists w1.
Qed.

(** C4.  A run with target count 3 on a component whose movie is not
    playing: the first generation succeeds, the throttle passes, the
    second generation fails.  Then exactly the first scene has been
    appended to what the timeline held, two generation calls were made
    and none is awaited, no timeout is pending and the auto flag is
    cleared.  More generally, when a generation awaited by the loop
    fails, the loop ends at once: the timeline is as it was, nothing is
    requested and no timeout is set. *)
Theorem auto_generation_halts_on_failure (h : Hooks) (t0 : Z) (p u : string)
    (a : Asset) (e : JsError) :
  isAutoGenerating h = true →
  autoGenCount h = Num 3 →
  coolDown h ≤ 0 →
  isPlayingAll h = false →
  enhance h true = Some p →
  (∃ w,
     run [StartGeneration; Settle 0 (Video u a); Elapse 5000; Fire 0;
          Settle 0 (Rejected e)] (mounted h t0) = Some w
     ∧ timeline (hooks w)
       = (timeline h ++ [newScene_of h p u a (mounted h t0)])%list
     ∧ video_calls (calls w) = 2%nat
     ∧ pending_videos (tasks w) = 0%nat
     ∧ timers w = []
     ∧ isAutoGenerating (hooks w) = false)
  ∧ (∀ (w : World) (c : Hooks) (q : string) (count : Z) (rest : list task)
       (e' : JsError),
       tasks w = AwaitVideo c q (K_loop count) :: rest →
       ∃ w1,
         step (Settle 0 (Rejected e')) w = Some w1
         ∧ timeline (hooks w1) = timeline (hooks w)
         ∧ tasks w1 = rest
         ∧ calls w1 = calls w
         ∧ timers w1 = timers w
         ∧ isAutoGenerating (hooks w1) = false).
Proof.
  intros Hauto Hn Hcd Hpl Hen. split.
  2:{ intros w c q count rest e' Ht.
      destruct (loop_failure_step w c q count rest e' Ht) as (w1 & H & ?&?&?&?&?&?).
      by exists w1. }
  set (w0 := mounted h t0).
  (* the button *)
  destruct (start_step w0 p) as
    (w1 & S1 & T1 & (r1 & C1) & L1 & P1 & M1 & Q1 & N1 & St1 & I1 & _).
  { exact Hcd. } { simpl. by rewrite Hauto. } { intros _. simpl. by rewrite Hn. }
  simpl in T1, C1, L1, P1, M1, Q1, N1. rewrite Hauto in T1.
  specialize (I1 Hpl eq_refl).
  (* the first generation succeeds *)
  destruct (loop_success_step w1 h p u a 0 [] T1) as
    (w2 & S2 & L2 & _ & P2 & C2 & T2 & N2 & St2 & _ & I2 & X2).
  rewrite P1 in P2. specialize (I2 (eq_trans P1 Hpl) I1).
  rewrite Hn, St1 in X2. simpl in X2. destruct X2 as (M2 & Q2 & A2).
  rewrite M1, Q1, N1 in M2.
  (* five seconds pass *)
  assert (S3 : step (Elapse 5000) w2 = Some (upd_now (now w2 + 5000) w2)).
  { apply step_elapse; [done |]. unfold none_due_before.
    rewrite M2, I2, N2, N1. simpl. by rewrite Z.leb_refl. }
  set (w3 := upd_now (now w2 + 5000) w2) in S3.
  (* the throttle timeout fires and the second request is made *)
  set (tm := {| timer_id := 0; due := t0 + 5000; action := ThrottleTimer h 1 |}).
  destruct (throttle_fire_step w3 tm [] h 1) as [_ F4].
  { subst w3. cbn. by rewrite M2. }
  { done. }
  destruct F4 as (w4 & S4 & M4 & L4 & _ & _ & _ & X4).
  { subst w3 tm. cbn. rewrite N2, N1. done. }
  rewrite Hen in X4. subst w3. cbn in X4, L4. rewrite St2, St1, Hn in X4.
  simpl in X4. destruct X4 as (T4 & r4 & C4).
  (* the second generation fails *)
  destruct (loop_failure_step w4 h p 1 (tasks w2) e T4) as
    (w5 & S5 & L5 & T5 & C5 & M5 & A5 & _).
  exists w5. split.
  { rewrite (run_cons _ _ _ _ S1), (run_cons _ _ _ _ S2), (run_cons _ _ _ _ S3),
      (run_cons _ _ _ _ S4), run_one. exact S5. }
  split. { rewrite L5, L4, L2, L1. unfold newScene_of. by rewrite N1. }
  split. { rewrite C5, C4. simpl. by rewrite C2, C1. }
  split. { by rewrite T5, T2. }
  split. { by rewrite M5, M4. }
  exact A5.
Qed.

Lemma auto_generation_halts_on_failure_witness :
  ∃ w,
    run [StartGeneration; Settle 0 (Video "blob:v1" "asset1"); Elapse 5000; Fire 0;
         Settle 0 (Rejected (new_Error "503 overloaded"))] (mounted auto_hooks 1000)
    = Some w
    ∧ Scene.url <$> timeline (hooks w) = ["blob:v1"]
    ∧ video_calls (calls w) = 2%nat.
Proof.
  assert (Hcd : coolDown auto_hooks ≤ 0) by (simpl; lia).
  destruct (auto_generation_halts_on_failure auto_hooks 1000 "a cat" "blob:v1"
              "asset1" (new_Error "503 overloaded") eq_refl eq_refl Hcd eq_refl
              eq_refl) as [(w & Hr & Ht & Hc & _) _].
  exists w. split; [exact Hr |]. rewrite Ht. split; [reflexivity | exact Hc].
Defined.

Example auto_run_facts :
  feasible auto_run_events (mounted auto_hooks 1000) = true
  ∧ (let w := after_events auto_run_events (mounted auto_hooks 1000) in
     video_calls (calls w) = 3%nat
     ∧ Scene.id <$> timeline (hooks w) = ["31000"; "66000"; "101000"]
     ∧ tasks w = [] ∧ timers w = []
     ∧ isAutoGenerating (hooks w) = false)
  ∧ run [StartGeneration; Elapse 30000; Settle 0 (Video "blob:v1" "asset1");
         Elapse 4999; Fire 0] (mounted auto_hooks 1000) = None
  ∧ run [StartGeneration; Elapse 30000; Settle 0 (Video "blob:v1" "asset1");
         Elapse 5001] (mounted auto_hooks 1000) = None.
Proof. vm_compute. done. Qed.

(** C5.  When a generation awaited by the loop succeeds, its scene is
    appended and no request is made by that continuation.  If further
    iterations remain and the run was not stopped, a timeout of 5000 ms is
    set; otherwise (after the last iteration, or when stopped) none is set
    and the loop ends.  The timeout cannot fire before it is due; when it
    fires, the next request is made, unless the run was stopped meanwhile.
    Stopping raises the flag and touches neither the request in flight nor
    the pending timeouts, so a request already made still delivers its
    scene. *)
Theorem throttle_and_cancellation (w : World) (c : Hooks) (p u : string)
    (a : Asset) (count : Z) (rest : list task) :
  tasks w = AwaitVideo c p (K_loop count) :: rest →
  (∃ w1,
     step (Settle 0 (Video u a)) w = Some w1
     ∧ timeline (hooks w1) = (timeline (hooks w) ++ [newScene_of c p u a w])%list
     ∧ video_calls (calls w1) = video_calls (calls w)
     ∧ pending_videos (tasks w1) = pending_videos rest
     ∧ if lt_num (count + 1) (autoGenCount c) && negb (stopAutoGenerationRef w)
       then timers w1
            = {| timer_id := timerSeq w; due := now w + 5000;
                 action := ThrottleTimer c (count + 1) |} :: timers w
       else timers w1 = timers w ∧ isAutoGenerating (hooks w1) = false)
  ∧ (∀ (w2 : World) (tm : timer) (others : list timer) (c' : Hooks) (n : Z),
       take_timer (timer_id tm) (timers w2) = Some (tm, others) →
       action tm = ThrottleTimer c' n →
       (now w2 < due tm → step (Fire (timer_id tm)) w2 = None)
       ∧ (due tm ≤ now w2 →
          ∃ w3,
            step (Fire (timer_id tm)) w2 = Some w3
            ∧ timers w3 = others
            ∧ match enhance c' true with
              | Some q =>
                  if negb (stopAutoGenerationRef w2) && lt_num n (autoGenCount c')
                  then tasks w3 = AwaitVideo c' q (K_loop n) :: tasks w2
                       ∧ ∃ r, calls w3 = CallVideo r :: calls w2
                  else tasks w3 = tasks w2 ∧ calls w3 = calls w2
                       ∧ isAutoGenerating (hooks w3) = false
              | None =>
                  tasks w3 = tasks w2 ∧ calls w3 = calls w2
                  ∧ isAutoGenerating (hooks w3) = false
              end))
  ∧ (∀ w2 : World,
       ∃ w3,
         step StopAuto w2 = Some w3
         ∧ tasks w3 = tasks w2 ∧ timers w3 = timers w2 ∧ calls w3 = calls w2
         ∧ timeline (hooks w3) = timeline (hooks w2)
         ∧ stopAutoGenerationRef w3 = true).
Proof.
  intros Ht. split; [| split].
  - destruct (loop_success_step w c p u a count rest Ht)
      as (w1 & S & L & _ & _ & C & T & _ & _ & _ & _ & X).
    exists w1. repeat (split; [done |]).
    destruct (lt_num (count + 1) (autoGenCount c) && negb (stopAutoGenerationRef w));
      [by destruct X | by destruct X as (? & _ & ?)].
  - intros w2 tm others c' n Htk Ha.
    destruct (throttle_fire_step w2 tm others c' n Htk Ha) as [F1 F2].
    split; [exact F1 |]. intros Hle.
    destruct (F2 Hle) as (w3 & S & M & _ & _ & _ & _ & X).
    by exists w3.
  - intros w2. destruct (stop_step w2) as (w3 & S & ? & ? & ? & ? & ? & _).
    by exists w3.
Qed.

Lemma throttle_and_cancellation_witness :
  ∃ w1,
    step (Settle 0 (Video "blob:v1" "asset1")) auto_started_world = Some w1
    ∧ timers w1
      = [{| timer_id := 0; due := 36000; action := ThrottleTimer auto_hooks 1 |}].
Proof.
  assert (Ht : tasks auto_started_world = [AwaitVideo auto_hooks "a cat" (K_loop 0)])
    by (vm_compute; reflexivity).
  assert (Hw : stopAutoGenerationRef auto_started_world = false
               ∧ timerSeq auto_started_world = 0%nat
               ∧ now auto_started_world = 31000
               ∧ timers auto_started_world = [])
    by (vm_compute; done).
  destruct Hw as (Hs & Hq & Hn & Hm).
  destruct (throttle_and_cancellation auto_started_world auto_hooks "a cat"
              "blob:v1" "asset1" 0 [] Ht) as [(w1 & S & _ & _ & _ & X) _].
  exists w1. split; [exact S |].
  rewrite Hs, Hq, Hn, Hm in X. exact X.
Defined.

(** C10.  On a timeline with an active scene, moving the duration
    control writes the parsed value both into that scene and into the
    default for new scenes: the scene generated by the next press of the
    generate button receives it as its duration. *)
Theorem duration_control_sets_default (w : World) (value u : string)
    (a : Asset) (s : VideoScene) :
  timeline (hooks w) !! activeSceneIndex (hooks w) = Some s →
  coolDown (hooks w) ≤ 0 →
  (isAutoGenerating (hooks w) = true → lt_num 0 (autoGenCount (hooks w)) = true) →
  ∃ w' new,
    run [DurationChange value; StartGeneration; Settle 0 (Video u a)] w = Some w'
    ∧ sceneDuration (hooks w') = parseInt value
    ∧ timeline (hooks w')
      = (patch_at (activeSceneIndex (hooks w)) (Scene.with_duration (parseInt value))
           (timeline (hooks w)) ++ [new])%list
    ∧ Scene.duration new = parseInt value
    ∧ timeline (hooks w') !! activeSceneIndex (hooks w)
      = Some (Scene.with_duration (parseInt value) s).
Proof.
  intros Hs Hcd Hcount.
  assert (Hne : timeline (hooks w) ≠ []) by (intros E; by rewrite E in Hs).
  set (w1 := commit w (handleDurationChange (hooks w) value w)).
  assert (S1 : step (DurationChange value) w = Some w1) by reflexivity.
  assert (H1 : hooks w1 = hooks (handleDurationChange (hooks w) value w)
               ∧ tasks w1 = tasks w).
  { subst w1. rendered. split; [done |].
    unfold handleDurationChange. by case_bool_decide. }
  destruct H1 as [H1 T1].
  assert (D1 : sceneDuration (hooks w1) = parseInt value
               ∧ timeline (hooks w1)
                 = patch_at (activeSceneIndex (hooks w))
                     (Scene.with_duration (parseInt value)) (timeline (hooks w))
               ∧ coolDown (hooks w1) = coolDown (hooks w)
               ∧ isAutoGenerating (hooks w1) = isAutoGenerating (hooks w)
               ∧ autoGenCount (hooks w1) = autoGenCount (hooks w)).
  { rewrite H1. unfold handleDurationChange. by rewrite bool_decide_true. }
  destruct D1 as (D1 & L1 & C1 & A1 & G1). clearbody w1.
  assert (Hne1 : timeline (hooks w1) ≠ []) by (by rewrite L1, patch_at_nil_iff).
  destruct (enhance_extension (hooks w1) (isAutoGenerating (hooks w1)) Hne1)
    as [p Hen].
  destruct (start_step w1 p) as (w2 & S2 & T2 & _ & L2 & _ & _ & _ & _ & _ & _ & D2).
  { by rewrite C1. } { exact Hen. } { rewrite A1, G1. exact Hcount. }
  destruct (generation_success_step w2 (hooks w1) p u a _ _ T2)
    as (w3 & S3 & L3 & _ & D3).
  exists w3, (newScene_of (hooks w1) p u a w2).
  split. { by rewrite (run_cons _ _ _ _ S1), (run_cons _ _ _ _ S2), run_one. }
  split. { by rewrite D3, D2. }
  split. { by rewrite L3, L2, L1. }
  split. { simpl. exact D1. }
  rewrite L3, L2, L1. rewrite lookup_app_l.
  - rewrite patch_at_lookup, Hs. simpl. by rewrite decide_True.
  - rewrite patch_at_length. by eapply lookup_lt_Some.
Qed.

Lemma duration_control_sets_default_witness :
  ∃ w',
    run [DurationChange "12"; StartGeneration; Settle 0 (Video "blob:v2" "asset2")]
      scene_world = Some w'
    ∧ Scene.duration <$> timeline (hooks w') = [Num 12; Num 12].
Proof.
  assert (H0 : ∃ s, timeline (hooks scene_world) !! activeSceneIndex (hooks scene_world)
                    = Some s
                    ∧ timeline (hooks scene_world) = [s]
                    ∧ activeSceneIndex (hooks scene_world) = 0%nat
                    ∧ coolDown (hooks scene_world) = 0
                    ∧ isAutoGenerating (hooks scene_world) = false).
  { vm_compute. eexists. repeat split; reflexivity. }
  destruct H0 as (s & Hs & Hl & Hi & Hc & Ha).
  destruct (duration_control_sets_default scene_world "12" "blob:v2" "asset2" s Hs)
    as (w' & new & Hr & _ & Ht & Hd & _).
  { rewrite Hc. lia. }
  { rewrite Ha. discriminate. }
  exists w'. split; [exact Hr |].
  rewrite Ht, Hl, Hi. rewrite fmap_app. simpl. rewrite Hd. reflexivity.
Defined.

(** *** Movie playback *)

Lemma commit_changed (before after : World) :
  deps before ≠ deps after →
  commit before after = playback_effect (cleanup after).
Proof. intros H. unfold commit. by rewrite decide_False. Qed.

Lemma commit_same (before after : World) :
  deps before = deps after → commit before after = after.
Proof. intros H. unfold commit. by rewrite decide_True. Qed.

(** In movie mode the effect sets its timeout from the declared
    duration of the active scene, 5 seconds when the duration is 0 or not
    a number, and makes the active video element loop. *)
Lemma playback_effect_playing (w : World) (scene : VideoScene) :
  isPlayingAll (hooks w) = true →
  timeline (hooks w) !! activeSceneIndex (hooks w) = Some scene →
  let w' := playback_effect (cleanup w) in
  hooks w' = hooks w ∧ now w' = now w ∧ timers w' = timers w
  ∧ effectTimer w'
    = Some {| et_due := now w + Z.max 0 (num_or (Scene.duration scene) 5 * 1000);
              et_closure := hooks w |}
  ∧ (truthy (str_or (Scene.mergedUrl scene) (Scene.url scene)) = true →
     (activePlayer (hooks w) = PlayerA → loop (videoPlayerA w') = true)
     ∧ (activePlayer (hooks w) = PlayerB → loop (videoPlayerB w') = true)).
Proof.
  intros Hp Hs. unfold playback_effect, cleanup. cbn. rewrite Hs, Hp.
  unfold on_player.
  destruct (truthy (str_or (Scene.mergedUrl scene) (Scene.url scene))),
    (activePlayer (hooks w)),
    (opt_truthy (Scene.audioUrl scene) && negb (opt_truthy (Scene.mergedUrl scene)));
    cbn; repeat split; try done; intros; simplify_eq.
Qed.

(** Outside movie mode the effect sets no timeout. *)
Lemma playback_effect_stopped (w : World) :
  isPlayingAll (hooks w) = false →
  let w' := playback_effect (cleanup w) in
  hooks w' = hooks w ∧ now w' = now w ∧ timers w' = timers w
  ∧ effectTimer w' = None.
Proof.
  intros Hp. unfold playback_effect, cleanup. cbn. rewrite Hp.
  repeat case_match; cbn; by repeat split.
Qed.

Lemma tick_effect (w : World) (et : effect_timer) :
  effectTimer w = Some et → timers w = [] → now w ≤ et_due et →
  tick w
  = Some (commit (upd_now (et_due et) w)
            (handleSceneEnd (et_closure et)
               (upd_effectTimer None (upd_now (et_due et) w)))).
Proof.
  intros He Ht Hle. unfold tick, pending_timeouts. rewrite He, Ht. simpl.
  rewrite Z.max_r by lia.
  rewrite step_elapse; [| lia |].
  2:{ unfold none_due_before. rewrite He, Ht. simpl. apply Z.leb_le. lia. }
  replace (now w + (et_due et - now w)) with (et_due et) by lia.
  unfold step. simpl. rewrite He. by rewrite Z.leb_refl.
Qed.

Lemma tick_timer (w : World) (tm : timer) :
  effectTimer w = None → timers w = [tm] → now w ≤ due tm →
  tick w
  = Some (commit (upd_now (due tm) w)
            (run_timer (action tm) (upd_timers [] (upd_now (due tm) w)))).
Proof.
  intros He Ht Hle. unfold tick, pending_timeouts. rewrite He, Ht. simpl.
  rewrite Z.max_r by lia.
  rewrite step_elapse; [| lia |].
  2:{ unfold none_due_before. rewrite He, Ht. simpl.
      rewrite !andb_true_r. apply Z.leb_le. lia. }
  replace (now w + (due tm - now w)) with (due tm) by lia.
  unfold step. simpl. rewrite Ht. simpl. rewrite decide_True by done.
  by rewrite Z.leb_refl.
Qed.

Lemma tick_idle (w : World) :
  effectTimer w = None → timers w = [] → tick w = None.
Proof. intros He Ht. unfold tick, pending_timeouts. by rewrite He, Ht. Qed.

(** A native end-of-media event in movie mode only marks the element
    as stopped. *)
Lemma ended_in_movie_mode (w : World) (p : PlayerId) :
  isPlayingAll (hooks w) = true →
  step (Ended p) w = Some (on_player p pause w).
Proof.
  intros Hp. unfold step. simpl. unfold onEnded.
  assert (E : hooks (on_player p pause w) = hooks w) by (by destruct p).
  rewrite E, Hp. simpl. rewrite commit_same; [done |].
  unfold deps. rewrite E. by destruct p.
Qed.

(** Selecting a scene card leaves movie mode and clears the effect's
    timeout. *)
Lemma select_scene_stops (w : World) (idx : nat) :
  ∃ w', step (SelectScene idx) w = Some w'
        ∧ isPlayingAll (hooks w') = false
        ∧ (isPlayingAll (hooks w) = true → effectTimer w' = None).
Proof.
  unfold step. simpl. eexists. split; [reflexivity |]. rendered.
  split; [done |]. intros Hp.
  rewrite commit_changed.
  - by apply playback_effect_stopped.
  - unfold deps. cbn. rewrite Hp. intros [=].
Qed.

(** The scene-end callback at the last scene, without looping, leaves
    movie mode. *)
Lemma tick_last_scene (w : World) (c : Hooks) (d : Z) :
  effectTimer w = Some {| et_due := d; et_closure := c |} →
  timers w = [] → now w ≤ d →
  hooks w = c → isPlayingAll c = true → isLooping c = false →
  S (activeSceneIndex c) = length (timeline c) →
  ∃ w',
    tick w = Some w'
    ∧ snapshot w' = (d, activeSceneIndex c, false)
    ∧ effectTimer w' = None ∧ timers w' = [].
Proof.
  intros He Ht Hle Hh Hp Hl Hlast.
  rewrite (tick_effect w _ He Ht Hle). simpl et_due. simpl et_closure.
  eexists. split; [reflexivity |].
  unfold handleSceneEnd. rewrite Hp, Hl.
  rewrite (proj2 (Z.ltb_ge _ _)) by lia.
  rewrite commit_changed.
  2:{ unfold deps. cbn. rewrite Hh, Hp. intros [=]. }
  match goal with
  | |- context [playback_effect (cleanup ?W)] =>
      destruct (playback_effect_stopped W eq_refl) as (E1 & E2 & E3 & E4)
  end.
  unfold snapshot. rewrite E1, E2, E3, E4. cbn. by rewrite Hh, Ht.
Qed.

Lemma play_out_S (fuel : nat) (w w' : World) :
  tick w = Some w' → play_out (S fuel) w = w' :: play_out fuel w'.
Proof. intros H. simpl. by rewrite H. Qed.

Lemma play_out_done (fuel : nat) (w : World) :
  tick w = None → play_out fuel w = [].
Proof. intros H. destruct fuel; simpl; [done | by rewrite H]. Qed.

(** A timeline of two scenes with declared durations 2 and 3 is played
    as a movie, without looping and with nothing else pending.  Pressing
    play sets the effect's timeout 2000 ms ahead, from the declared
    duration, and makes the video element loop.  Left to its timeouts, the
    playback shows the second scene from 2000 ms on (from 2800 ms when its
    transition is a fade or slide, the transition window having started at
    2000 ms) and leaves movie mode 3000 ms later; nothing follows. *)
Lemma movie_scenario (w : World) (s1 s2 : VideoScene) :
  timeline (hooks w) = [s1; s2] →
  Scene.duration s1 = Num 2 →
  Scene.duration s2 = Num 3 →
  isLooping (hooks w) = false →
  isPlayingAll (hooks w) = false →
  timers w = [] →
  ∃ w1,
    step PlayAll w = Some w1
    ∧ snapshot w1 = (now w, 0%nat, true)
    ∧ et_due <$> effectTimer w1 = Some (now w + 2000)
    ∧ (truthy (Scene.url s1) = true → loop (videoPlayerA w1) = true)
    ∧ (∀ fuel, (3 ≤ fuel)%nat →
       snapshot <$> play_out fuel w1
       = if decide (Scene.transition s2 = cut)
         then [(now w + 2000, 1%nat, true); (now w + 5000, 1%nat, false)]
         else [(now w + 2000, 0%nat, true); (now w + 2800, 1%nat, true);
               (now w + 5800, 1%nat, false)])
    ∧ (∀ p, ∃ w',
         step (Ended p) w1 = Some w'
         ∧ hooks w' = hooks w1 ∧ effectTimer w' = effectTimer w1
         ∧ timers w' = timers w1 ∧ now w' = now w1)
    ∧ (∀ idx, ∃ w',
         step (SelectScene idx) w1 = Some w'
         ∧ isPlayingAll (hooks w') = false ∧ effectTimer w' = None)
    ∧ (∀ (v : World) (scene : VideoScene),
         isPlayingAll (hooks v) = true →
         timeline (hooks v) !! activeSceneIndex (hooks v) = Some scene →
         effectTimer (playback_effect (cleanup v))
         = Some {| et_due := now v + Z.max 0 (num_or (Scene.duration scene) 5 * 1000);
                   et_closure := hooks v |}).
Proof.
  intros Htl Hd1 Hd2 Hloop Hplay Htm.
  (* pressing play *)
  set (c1 := upd_isTransitioning false
               (upd_activePlayer PlayerA
                  (upd_activeSceneIndex 0 (upd_isPlayingAll true (hooks w))))).
  assert (S1 : ∃ w1, step PlayAll w = Some w1
                 ∧ hooks w1 = c1 ∧ now w1 = now w ∧ timers w1 = []
                 ∧ effectTimer w1 = Some {| et_due := now w + 2000; et_closure := c1 |}
                 ∧ (truthy (Scene.url s1) = true → loop (videoPlayerA w1) = true)).
  { unfold step. simpl. eexists. split; [reflexivity |].
    unfold handlePlayAll. rewrite bool_decide_false by (by rewrite Htl).
    rewrite commit_changed by (unfold deps; cbn; rewrite Hplay; intros [=]).
    match goal with
    | |- context [playback_effect (cleanup ?W)] =>
        destruct (playback_effect_playing W s1) as (E1 & E2 & E3 & E4 & E5);
          [reflexivity | cbn; by rewrite Htl |]
    end.
    rewrite E1, E2, E3, E4. cbn -[Z.max Z.mul]. rewrite Hd1, Htm.
    split; [reflexivity |]. split; [reflexivity |]. split; [reflexivity |].
    split; [reflexivity |].
    intros Hu. apply E5; [| reflexivity]. unfold str_or.
    destruct (Scene.mergedUrl s1) as [m|]; [| exact Hu].
    destruct (truthy m) eqn:Hm; [exact Hm | exact Hu]. }
  destruct S1 as (w1 & S1 & H1 & N1 & M1 & T1 & L1).
  exists w1. split; [exact S1 |].
  assert (Hp1 : isPlayingAll (hooks w1) = true) by (by rewrite H1).
  split. { unfold snapshot. by rewrite N1, H1. }
  split. { by rewrite T1. }
  split; [exact L1 |].
  split.
  2:{ split.
      { intros p. rewrite (ended_in_movie_mode w1 p Hp1). eexists.
        split; [reflexivity |]. by destruct p. }
      split.
      { intros idx. destruct (select_scene_stops w1 idx) as (w' & S & P & E).
        exists w'. auto. }
      intros v scene Hp Hs. by apply playback_effect_playing. }
  (* the first timeout *)
  intros fuel Hfuel.
  assert (Tk1 : tick w1
                = Some (commit (upd_now (now w + 2000) w1)
                          (handleSceneEnd c1
                             (upd_effectTimer None (upd_now (now w + 2000) w1))))).
  { rewrite (tick_effect w1 _ T1 M1); [done | simpl; lia]. }
  set (w1' := upd_now (now w + 2000) w1) in Tk1.
  assert (Hw1' : hooks w1' = c1 ∧ now w1' = now w + 2000 ∧ timers w1' = []
                 ∧ timerSeq w1' = timerSeq w1).
  { subst w1'. cbn. by rewrite H1, M1. }
  destruct Hw1' as (H1' & N1' & M1' & Q1'). clearbody w1'.
  unfold handleSceneEnd in Tk1.
  assert (Hc1 : isPlayingAll c1 = true ∧ activeSceneIndex c1 = 0%nat
                ∧ timeline c1 = [s1; s2] ∧ isLooping c1 = false).
  { subst c1. cbn. by rewrite Htl, Hloop. }
  destruct Hc1 as (Pc1 & Ic1 & Tc1 & Lc1).
  rewrite Pc1, Ic1, Tc1 in Tk1. simpl in Tk1.
  destruct fuel as [|[|[|fuel]]]; try lia. clear Hfuel.
  destruct (decide (Scene.transition s2 = cut)) as [Hcut | Hcut].
  - (* a cut: the second scene is shown at once *)
    rewrite decide_False in Tk1 by (intros H; by apply H).
    set (c2 := upd_activePlayer (flip (activePlayer c1))
                 (upd_activeSceneIndex 1
                    (upd_transitionType (Scene.transition s2) c1))).
    assert (W2 : ∃ w2, tick w1 = Some w2 ∧ hooks w2 = c2 ∧ now w2 = now w + 2000
                   ∧ timers w2 = []
                   ∧ effectTimer w2
                     = Some {| et_due := now w + 2000 + 3000; et_closure := c2 |}).
    { rewrite Tk1. eexists. split; [reflexivity |].
      rewrite commit_changed by (unfold deps; cbn; rewrite H1', Ic1; intros [=]).
      match goal with
      | |- context [playback_effect (cleanup ?W)] =>
          destruct (playback_effect_playing W s2) as (E1 & E2 & E3 & E4 & _);
            [cbn; by rewrite H1' | cbn; by rewrite H1', Tc1 |]
      end.
      rewrite E1, E2, E3, E4. cbn -[Z.max Z.mul]. rewrite Hd2, H1', N1', M1'.
      by repeat split. }
    destruct W2 as (w2 & Tk & H2 & N2 & M2 & T2).
    assert (Hc2 : isPlayingAll c2 = true ∧ isLooping c2 = false
                  ∧ S (activeSceneIndex c2) = length (timeline c2)).
    { unfold c2, c1. cbn. by rewrite Htl, Hloop. }
    destruct Hc2 as (Pc2 & Lc2 & Sc2).
    destruct (tick_last_scene w2 c2 (now w + 2000 + 3000) T2 M2
                ltac:(rewrite N2; lia) H2 Pc2 Lc2 Sc2) as
      (w3 & Tk3 & Sn3 & T3 & M3).
    rewrite (play_out_S _ _ _ Tk), (play_out_S _ _ _ Tk3),
      (play_out_done _ _ (tick_idle w3 T3 M3)).
    rewrite !fmap_cons, fmap_nil, Sn3. unfold snapshot. rewrite N2, H2.
    unfold c2. cbn.
    by replace (now w + 2000 + 3000) with (now w + 5000) by lia.
  - (* a fade or slide: 800 ms of transition first *)
    rewrite decide_True in Tk1 by done.
    set (W := setTimeout (TransitionTimer 1) 800 _) in Tk1.
    assert (W2 : ∃ w2 tm, tick w1 = Some w2 ∧ snapshot w2 = (now w + 2000, 0%nat, true)
                   ∧ now w2 = now w + 2000
                   ∧ isLooping (hooks w2) = false
                   ∧ timeline (hooks w2) = [s1; s2]
                   ∧ timers w2 = [tm] ∧ due tm = now w + 2000 + 800
                   ∧ action tm = TransitionTimer 1
                   ∧ effectTimer w2 = None).
    { rewrite Tk1. eexists _, _. split; [reflexivity |].
      rewrite commit_same by (subst W; unfold deps; by cbn).
      subst W. unfold snapshot. cbn. rewrite H1', N1', M1', Pc1, Ic1, Tc1, Lc1.
      by repeat split. }
    destruct W2 as (w2 & tm & Tk & Sn2 & N2 & L2 & Tl2 & M2 & D2 & A2 & T2).
    clear Tk1 W.
    set (c3 := upd_isTransitioning false
                 (upd_activePlayer (flip (activePlayer (hooks w2)))
                    (upd_activeSceneIndex 1 (hooks w2)))).
    assert (W3 : ∃ w3, tick w2 = Some w3 ∧ hooks w3 = c3
                   ∧ now w3 = now w + 2000 + 800 ∧ timers w3 = []
                   ∧ effectTimer w3
                     = Some {| et_due := now w + 2000 + 800 + 3000;
                               et_closure := c3 |}).
    { rewrite (tick_timer w2 tm T2 M2) by (rewrite N2, D2; lia).
      rewrite A2. simpl run_timer. eexists. split; [reflexivity |].
      assert (Hi : activeSceneIndex (hooks w2) = 0%nat).
      { unfold snapshot in Sn2. by injection Sn2. }
      assert (Hpl : isPlayingAll (hooks w2) = true).
      { unfold snapshot in Sn2. by injection Sn2. }
      rewrite commit_changed by (unfold deps; cbn; rewrite Hi; intros [=]).
      match goal with
      | |- context [playback_effect (cleanup ?W)] =>
          destruct (playback_effect_playing W s2) as (E1 & E2 & E3 & E4 & _);
            [cbn; by rewrite Hpl | cbn; by rewrite Tl2 |]
      end.
      rewrite E1, E2, E3, E4. cbn -[Z.max Z.mul]. rewrite Hd2, D2.
      by repeat split. }
    destruct W3 as (w3 & Tk3 & H3 & N3 & M3 & T3).
    assert (Hpl : isPlayingAll (hooks w2) = true).
    { unfold snapshot in Sn2. by injection Sn2. }
    assert (Hc3 : isPlayingAll c3 = true ∧ isLooping c3 = false
                  ∧ S (activeSceneIndex c3) = length (timeline c3)).
    { unfold c3. cbn. by rewrite Tl2, L2, Hpl. }
    destruct Hc3 as (Pc3 & Lc3 & Sc3).
    destruct (tick_last_scene w3 c3 (now w + 2000 + 800 + 3000) T3 M3
                ltac:(rewrite N3; lia) H3 Pc3 Lc3 Sc3) as
      (w4 & Tk4 & Sn4 & T4 & M4).
    rewrite (play_out_S _ _ _ Tk), (play_out_S _ _ _ Tk3), (play_out_S _ _ _ Tk4),
      (play_out_done _ _ (tick_idle w4 T4 M4)).
    rewrite !fmap_cons, fmap_nil, Sn2, Sn4. unfold snapshot. rewrite N3, H3.
    unfold c3. cbn. rewrite Hpl.
    replace (now w + 2000 + 800) with (now w + 2800) by lia.
    by replace (now w + 2800 + 3000) with (now w + 5800) by lia.
Qed.

(** *** The separate audio element *)

(** After the effect ran for an active scene, the audio element plays
    only if the scene has an audio track and no merged asset. *)
Lemma playback_effect_audio (w : World) :
  audio_consistent (playback_effect (cleanup w)).
Proof.
  intros scene. rewrite hooks_playback_effect. cbn [cleanup hooks upd_effectTimer].
  intros Hs. unfold playback_effect. cbn [cleanup hooks upd_effectTimer]. rewrite Hs.
  destruct (opt_truthy (Scene.audioUrl scene)) eqn:Ha;
    destruct (opt_truthy (Scene.mergedUrl scene)) eqn:Hm; cbn [andb negb].
  all: repeat case_match; unfold on_player; repeat case_match; cbn; try done.
Qed.

Lemma render_sound_refl (w : World) : render_sound w w.
Proof. by repeat split. Qed.

Lemma render_sound_trans (w1 w2 w3 : World) :
  render_sound w1 w2 → render_sound w2 w3 → render_sound w1 w3.
Proof.
  intros (A1 & B1 & C1) (A2 & B2 & C2). split; [congruence |].
  split; [lia |]. intros E.
  rewrite C2 by lia. apply C1. lia.
Qed.

Lemma same_generation_state_sound (w w' : World) :
  same_generation_state w w' → render_sound w w'.
Proof.
  intros (Htl & _ & _ & _ & _ & _ & _ & _ & _ & Hr & Ha).
  split; [done |]. split; [lia | done].
Qed.

Ltac sound :=
  unfold render_sound; cbn;
  split; [done | split; [lia | intros; first [done | lia]]].

Lemma executeGeneration_sound (c : Hooks) (b : bool) (k : kont) (w : World) :
  render_sound w (executeGeneration c b k w).1.
Proof.
  apply same_generation_state_sound.
  destruct (enhance c b) as [p|] eqn:Hp.
  - by destruct (executeGeneration_suspends c b k w p Hp) as (_ & ? & _).
  - by destruct (executeGeneration_rejects c b k w Hp) as (_ & ? & _).
Qed.

Lemma loop_head_sound (c : Hooks) (b : bool) (count : Z) (w : World) :
  render_sound w (loop_head c b count w).
Proof.
  unfold loop_head. case_match; [| sound].
  pose proof (executeGeneration_sound c true (K_loop count) w) as Hx.
  destruct (executeGeneration c true (K_loop count) w) as [w' s]. simpl in Hx.
  destruct s; [done |].
  eapply render_sound_trans; [exact Hx | sound].
Qed.

Lemma loop_after_generation_sound (c : Hooks) (count : Z) (b : bool) (w : World) :
  render_sound w (loop_after_generation c count b w).
Proof.
  unfold loop_after_generation, loop_tail.
  destruct b; simpl; [| sound].
  case_match; [sound | apply loop_head_sound].
Qed.

Lemma executeGeneration_resume_sound (c : Hooks) (p u : string) (a : Asset)
    (w : World) :
  render_sound w (executeGeneration_resume c p u a w).
Proof. unfold executeGeneration_resume. case_match; sound. Qed.

Lemma handleSceneEnd_sound (c : Hooks) (w : World) :
  render_sound w (handleSceneEnd c w).
Proof.
  unfold handleSceneEnd, on_player. repeat case_match; sound.
Qed.

Lemma voiceover_catch_sound (e : JsError) (w : World) :
  render_sound w (voiceover_catch e w).
Proof. unfold voiceover_catch. case_match; sound. Qed.

Lemma voiceover_speak_sound (c : Hooks) (i : nat) (text : string) (w : World) :
  render_sound w (voiceover_speak c i text w).
Proof. unfold voiceover_speak. case_match; sound. Qed.

Lemma continue_task_sound (t : task) (o : outcome) (w w' : World) :
  continue_task t o w = Some w' → render_sound w w'.
Proof.
  destruct t, o; simpl; intros H; simplify_eq; try sound.
  - destruct k; simpl.
    + apply executeGeneration_resume_sound.
    + eapply render_sound_trans;
        [apply executeGeneration_resume_sound | apply loop_after_generation_sound].
  - destruct k; simpl.
    + apply same_generation_state_sound.
      by destruct (executeGeneration_catch_frame e w) as (? & _).
    + eapply render_sound_trans; [| apply loop_after_generation_sound].
      apply same_generation_state_sound.
      by destruct (executeGeneration_catch_frame e w) as (? & _).
  - eapply render_sound_trans; [| apply voiceover_speak_sound]. sound.
  - apply voiceover_catch_sound.
  - case_match; simplify_eq; sound.
  - apply voiceover_catch_sound.
Qed.

Lemma handle_sound (e : event) (w w' : World) :
  handle e w = Some w' → render_sound w w'.
Proof.
  destruct e; simpl; intros H; simplify_eq; try sound.
  - unfold handleDurationChange. case_match; sound.
  - unfold clearTimeline. case_match; sound.
  - unfold handleStartGeneration. case_match; [sound |].
    case_match.
    + eapply render_sound_trans; [| apply executeGeneration_sound]. sound.
    + eapply render_sound_trans; [| apply loop_head_sound]. sound.
  - unfold handleGenerateVoiceover. repeat case_match; try sound.
    all: eapply render_sound_trans;
      [| first [apply voiceover_catch_sound | apply voiceover_speak_sound]];
      sound.
  - unfold handlePlayAll. case_match; sound.
  - unfold onEnded. case_match.
    + eapply render_sound_trans; [| apply handleSceneEnd_sound].
      unfold on_player. case_match; sound.
    + unfold on_player. case_match; sound.
  - repeat case_match; simplify_eq.
    match goal with
    | Hc : continue_task _ _ ?w0 = Some _ |- _ =>
        apply (render_sound_trans _ w0); [sound | by eapply continue_task_sound]
    end.
  - repeat case_match; simplify_eq.
    match goal with
    | |- render_sound _ (run_timer ?a ?w0) =>
        apply (render_sound_trans _ w0);
          [sound | destruct a; simpl; [sound | unfold loop_tail; apply loop_head_sound]]
    end.
  - repeat case_match; simplify_eq.
    match goal with
    | |- render_sound _ (handleSceneEnd _ ?w0) =>
        apply (render_sound_trans _ w0); [sound | apply handleSceneEnd_sound]
    end.
  - case_match; simplify_eq. unfold coolDownTick. case_match; sound.
  - case_match; simplify_eq. sound.
Qed.

Lemma step_audio_consistent (e : event) (w w' : World) :
  audio_consistent w → step e w = Some w' → audio_consistent w'.
Proof.
  intros Hw Hs. unfold step in Hs.
  destruct (handle e w) as [W|] eqn:Hh; [| discriminate].
  simpl in Hs. injection Hs as <-.
  destruct (handle_sound e w W Hh) as (Ha & _ & Ht).
  unfold commit. case_decide as Hd; [| apply playback_effect_audio].
  unfold deps in Hd. injection Hd as Hi _ _ Hr _ _ _.
  intros scene. rewrite Ht, <- Hi, Ha by done. apply Hw.
Qed.

(** C8, as the code has it.  In every world that the component reaches
    from its mounted state, whatever its hooks were: when there is an
    active scene with a merged asset, the separate audio element is not
    playing; and when the audio element is playing, the active scene has
    an audio track and no merged asset. *)
Theorem merged_scene_silences_audio (h : Hooks) (t0 : Z) (es : list event)
    (w : World) (scene : VideoScene) :
  run es (mounted h t0) = Some w →
  timeline (hooks w) !! activeSceneIndex (hooks w) = Some scene →
  (opt_truthy (Scene.mergedUrl scene) = true → playing (audioPlayer w) = false)
  ∧ (playing (audioPlayer w) = true →
     opt_truthy (Scene.audioUrl scene) = true
     ∧ opt_truthy (Scene.mergedUrl scene) = false).
Proof.
  intros Hrun Hs.
  assert (Hc : audio_consistent w).
  { assert (H0 : audio_consistent (mounted h t0)) by (intros s _ Hp; discriminate Hp).
    revert Hrun H0. generalize (mounted h t0). clear.
    induction es as [|e es IH]; intros w0 Hrun H0; simpl in Hrun.
    - by injection Hrun as <-.
    - destruct (step e w0) as [w1|] eqn:Hstep; [| discriminate].
      eapply IH; [exact Hrun |]. by eapply step_audio_consistent. }
  split.
  - intros Hm. destruct (playing (audioPlayer w)) eqn:Hp; [| done].
    destruct (Hc scene Hs Hp) as [_ Hm']. congruence.
  - intros Hp. by apply Hc.
Qed.

Lemma merged_scene_silences_audio_witness :
  ∃ w scene,
    run (one_scene_events ++ first_voiceover_events ++ [PlayAll])
      (mounted initial_hooks 1000) = Some w
    ∧ timeline (hooks w) !! activeSceneIndex (hooks w) = Some scene
    ∧ Scene.mergedUrl scene = Some "blob:m1"
    ∧ isPlayingAll (hooks w) = true
    ∧ playing (audioPlayer w) = false.
Proof.
  assert (H0 : ∃ w scene,
             run (one_scene_events ++ first_voiceover_events ++ [PlayAll])
               (mounted initial_hooks 1000) = Some w
             ∧ timeline (hooks w) !! activeSceneIndex (hooks w) = Some scene
             ∧ Scene.mergedUrl scene = Some "blob:m1"
             ∧ isPlayingAll (hooks w) = true).
  { vm_compute. eexists _, _. repeat split; reflexivity. }
  destruct H0 as (w & scene & Hr & Hs & Hm & Hp).
  exists w, scene. repeat (split; [assumption |]).
  destruct (merged_scene_silences_audio _ _ _ w scene Hr Hs) as [H _].
  apply H. rewrite Hm. reflexivity.
Defined.

(** C8, as stated, fails: the merged asset of one scene and the separate
    audio track of another can sound together.  On the page, the first
    scene has a merged voiceover and the second a voiceover whose merge
    failed.  The movie is played; when it cuts to the second scene, the
    audio element plays that scene's track, and the player of the first
    scene, which nothing pauses, goes on playing the merged asset in a
    loop. *)
Lemma previous_merged_asset_plays_beside_audio :
  feasible double_audio_events (mounted initial_hooks 1000) = true
  ∧ Scene.mergedUrl <$> timeline (hooks double_audio_world)
    = [Some "blob:m1"; None]
  ∧ Scene.audioUrl <$> timeline (hooks double_audio_world)
    = [Some "blob:a1"; Some "blob:a2"]
  ∧ {| merged_asset := "blob:m1"; merged_video := "blob:v1";
       merged_audio := "blob:a1" |} ∈ merges double_audio_world
  ∧ isPlayingAll (hooks double_audio_world) = true
  ∧ activeSceneIndex (hooks double_audio_world) = 1%nat
  ∧ videoPlayerA double_audio_world
    = {| src := "blob:m1"; volume := 100%N; loop := true; playing := true |}
  ∧ videoPlayerB double_audio_world
    = {| src := "blob:v2"; volume := 100%N; loop := true; playing := true |}
  ∧ audioPlayer double_audio_world
    = {| src := "blob:a2"; volume := 100%N; loop := false; playing := true |}
  ∧ ¬ (∀ m, m ∈ [videoPlayerA double_audio_world; videoPlayerB double_audio_world] →
            playing m = true → playing (audioPlayer double_audio_world) = true →
            ¬ Some (src m) ∈ merged_view double_audio_world).
Proof.
  assert (H : feasible double_audio_events (mounted initial_hooks 1000) = true
              ∧ Scene.mergedUrl <$> timeline (hooks double_audio_world)
                = [Some "blob:m1"; None]
              ∧ Scene.audioUrl <$> timeline (hooks double_audio_world)
                = [Some "blob:a1"; Some "blob:a2"]
              ∧ merges double_audio_world
                = [{| merged_asset := "blob:m1"; merged_video := "blob:v1";
                      merged_audio := "blob:a1" |}]
              ∧ isPlayingAll (hooks double_audio_world) = true
              ∧ activeSceneIndex (hooks double_audio_world) = 1%nat
              ∧ videoPlayerA double_audio_world
                = {| src := "blob:m1"; volume := 100%N; loop := true; playing := true |}
              ∧ videoPlayerB double_audio_world
                = {| src := "blob:v2"; volume := 100%N; loop := true; playing := true |}
              ∧ audioPlayer double_audio_world
                = {| src := "blob:a2"; volume := 100%N; loop := false;
                     playing := true |})
    by (vm_compute; repeat split; reflexivity).
  destruct H as (Hf & Hm & Ha & Hg & Hp & Hi & HA & HB & HU).
  split; [exact Hf |]. split; [exact Hm |]. split; [exact Ha |].
  split; [rewrite Hg; apply list_elem_of_here |].
  split; [exact Hp |]. split; [exact Hi |]. split; [exact HA |].
  split; [exact HB |]. split; [exact HU |].
  intros H. apply (H (videoPlayerA double_audio_world)).
  - apply list_elem_of_here.
  - by rewrite HA.
  - by rewrite HU.
  - unfold merged_view. rewrite Hm, HA. apply list_elem_of_here.
Qed.

(** *** Who writes the merged asset *)

Lemma step_settle (w : World) (k : nat) (t : task) (o : outcome) :
  tasks w !! k = Some t →
  step (Settle k o) w
  = commit w <$> continue_task t o (upd_tasks (delete k (tasks w)) w).
Proof. intros H. unfold step. cbn [handle]. by rewrite H. Qed.

Lemma merged_patch_at (index : nat) (f : VideoScene → VideoScene)
    (l : list VideoScene) :
  (∀ s, Scene.mergedUrl (f s) = Scene.mergedUrl s) →
  Scene.mergedUrl <$> patch_at index f l = Scene.mergedUrl <$> l.
Proof.
  intros Hf. apply list_eq. intros i.
  rewrite !list_lookup_fmap, patch_at_lookup.
  destruct (l !! i) as [s|]; [| done]. cbn. case_decide; by rewrite ?Hf.
Qed.

Lemma merged_patch_id (sceneId : string) (f : VideoScene → VideoScene)
    (l : list VideoScene) :
  (∀ s, Scene.mergedUrl (f s) = Scene.mergedUrl s) →
  Scene.mergedUrl <$> patch_id sceneId f l = Scene.mergedUrl <$> l.
Proof.
  intros Hf. apply list_eq. intros i.
  rewrite !list_lookup_fmap, patch_id_lookup.
  destruct (l !! i) as [s|]; [| done]. cbn. case_decide; by rewrite ?Hf.
Qed.

Lemma merged_view_patch_at (index : nat) (f : VideoScene → VideoScene) (w : World) :
  (∀ s, Scene.mergedUrl (f s) = Scene.mergedUrl s) →
  merged_view (setTimeline (patch_at index f) w) = merged_view w.
Proof. intros Hf. unfold merged_view. cbn. by apply merged_patch_at. Qed.

Lemma merged_view_patch_id (sceneId : string) (f : VideoScene → VideoScene)
    (w : World) :
  (∀ s, Scene.mergedUrl (f s) = Scene.mergedUrl s) →
  merged_view (setTimeline (patch_id sceneId f) w) = merged_view w.
Proof. intros Hf. unfold merged_view. cbn. by apply merged_patch_id. Qed.

Lemma merged_view_catch (e : JsError) (w : World) :
  merged_view (executeGeneration_catch e w) = merged_view w.
Proof.
  unfold merged_view.
  destruct (executeGeneration_catch_frame e w) as ((-> & _) & _). done.
Qed.

Lemma merged_view_executeGeneration (c : Hooks) (isChain : bool) (k : kont)
    (w : World) :
  merged_view (executeGeneration c isChain k w).1 = merged_view w.
Proof.
  unfold merged_view. destruct (enhance c isChain) as [p|] eqn:E.
  - destruct (executeGeneration_suspends c isChain k w p E) as (_ & (-> & _) & _).
    done.
  - destruct (executeGeneration_rejects c isChain k w E) as (_ & (-> & _) & _).
    done.
Qed.

Lemma merged_view_loop_head (c : Hooks) (keepGoing : bool) (count : Z) (w : World) :
  merged_view (loop_head c keepGoing count w) = merged_view w.
Proof.
  unfold loop_head. case_match; [| done].
  pose proof (merged_view_executeGeneration c true (K_loop count) w) as Hx.
  destruct (executeGeneration c true (K_loop count) w) as [w' b]. cbn in Hx.
  by destruct b.
Qed.

Lemma merged_view_loop_tail (c : Hooks) (count : Z) (w : World) :
  merged_view (loop_tail c count w) = merged_view w.
Proof. unfold loop_tail. apply merged_view_loop_head. Qed.

Lemma merged_view_resume_kont (k : kont) (c : Hooks) (success : bool) (w : World) :
  merged_view (resume_kont k c success w) = merged_view w.
Proof.
  destruct k as [|count]; [done |].
  cbv beta iota zeta delta [resume_kont loop_after_generation].
  destruct success; cbn [negb]; [| done].
  case_match; [done | apply merged_view_loop_tail].
Qed.

Lemma merged_view_voiceover_catch (e : JsError) (w : World) :
  merged_view (voiceover_catch e w) = merged_view w.
Proof. unfold voiceover_catch. by case_match. Qed.

Lemma merged_view_voiceover_speak (c : Hooks) (i : nat) (t : string) (w : World) :
  merged_view (voiceover_speak c i t w) = merged_view w.
Proof. unfold voiceover_speak. by case_match. Qed.

Lemma merged_view_handleSceneEnd (c : Hooks) (w : World) :
  merged_view (handleSceneEnd c w) = merged_view w.
Proof.
  unfold handleSceneEnd, on_player. repeat case_match; reflexivity.
Qed.

Lemma merged_with (s : VideoScene) :
  (∀ d, Scene.mergedUrl (Scene.with_duration d s) = Scene.mergedUrl s)
  ∧ (∀ t, Scene.mergedUrl (Scene.with_transition t s) = Scene.mergedUrl s)
  ∧ (∀ a t, Scene.mergedUrl (Scene.with_audio a t s) = Scene.mergedUrl s)
  ∧ Scene.mergedUrl (Scene.with_merge_failed s) = Scene.mergedUrl s.
Proof. by destruct s. Qed.

(** The continuation of an awaited operation, a merged asset's arrival
    apart: the merged assets along the timeline stay, and a scene that is
    added has none. *)
Lemma merged_view_continue_task (t : task) (o : outcome) (w w' : World) :
  continue_task t o w = Some w' →
  (is_merge_task t = true → ∀ m, o ≠ Text m) →
  merged_view w' = merged_view w
  ∨ merged_view w' = (merged_view w ++ [None])%list.
Proof.
  intros H Hm.
  destruct t as [c p k | c ns | c ns scr | ns v a | c i | c i txt | i v a],
           o as [u asset | txt' | err];
    cbv beta iota zeta delta [continue_task] in H; try discriminate;
    try (by destruct (Hm eq_refl txt'));
    try (injection H as <-).
  - right. rewrite merged_view_resume_kont. unfold merged_view.
    destruct (executeGeneration_resume_hooks c p u asset w) as (-> & _).
    by rewrite fmap_app.
  - left. by rewrite merged_view_resume_kont, merged_view_catch.
  - by left.
  - left. apply merged_view_patch_id. intros s. apply merged_with.
  - left.
    change (merged_view (setTimeline (patch_id (Scene.id ns) (Scene.with_audio txt' scr)) w)
            = merged_view w).
    apply merged_view_patch_id. intros s. apply merged_with.
  - left. apply merged_view_patch_id. intros s. apply merged_with.
  - left. apply merged_view_patch_id. intros s. apply merged_with.
  - left. by rewrite merged_view_voiceover_speak.
  - left. by rewrite merged_view_voiceover_catch.
  - left.
    assert (E : merged_view
                  (setTimeline (patch_at i (Scene.with_audio txt' txt)) w)
                = merged_view w)
      by (apply merged_view_patch_at; intros s; apply merged_with).
    destruct (timeline c !! i); injection H as <-; [exact E |].
    change (merged_view
              (setTimeline (patch_at i Scene.with_merge_failed)
                 (setTimeline (patch_at i (Scene.with_audio txt' txt)) w))
            = merged_view w).
    rewrite merged_view_patch_at; [exact E | intros s; apply merged_with].
  - left. by rewrite merged_view_voiceover_catch.
  - left.
    change (merged_view (setTimeline (patch_at i Scene.with_merge_failed) w)
            = merged_view w).
    apply merged_view_patch_at. intros s. apply merged_with.
Qed.

Lemma merged_view_step (e : event) (w w' : World) :
  step e w = Some w' →
  is_merge_completion e w = false →
  merged_view w' = merged_view w
  ∨ merged_view w' = (merged_view w ++ [None])%list
  ∨ e = ClearTimeline true ∧ timeline (hooks w') = [].
Proof.
  intros H Hc. unfold step in H.
  destruct (handle e w) as [x|] eqn:E; [| discriminate].
  cbn in H. injection H as <-.
  assert (Hx : merged_view x = merged_view w
               ∨ merged_view x = (merged_view w ++ [None])%list
               ∨ e = ClearTimeline true ∧ timeline (hooks x) = []);
    [| unfold merged_view in *; by rendered].
  destruct e; cbn [handle] in E.
  - injection E as <-. by left.
  - injection E as <-. by left.
  - injection E as <-. by left.
  - injection E as <-. by left.
  - injection E as <-. left. unfold handleDurationChange.
    case_bool_decide; [| done].
    change (merged_view
              (setTimeline
                 (patch_at (activeSceneIndex (hooks w))
                    (Scene.with_duration (parseInt value)))
                 (setSceneDuration (parseInt value) w))
            = merged_view w).
    rewrite merged_view_patch_at; [done | intros s; apply merged_with].
  - injection E as <-. destruct confirmed; [by right; right | by left].
  - injection E as <-. by left.
  - injection E as <-. left. unfold toggleTransition.
    apply merged_view_patch_at. intros s. apply merged_with.
  - injection E as <-. left. unfold handleStartGeneration.
    case_match; [done |]. case_match.
    + by rewrite merged_view_executeGeneration.
    + by rewrite merged_view_loop_head.
  - injection E as <-. by left.
  - injection E as <-. left. unfold handleGenerateVoiceover.
    case_bool_decide; [done |]. destruct useAutoScript.
    + case_match; [done |]. by rewrite merged_view_voiceover_catch.
    + by rewrite merged_view_voiceover_speak.
  - injection E as <-. left. unfold handlePlayAll. by case_bool_decide.
  - injection E as <-. by left.
  - injection E as <-. left. unfold onEnded.
    case_match; [| by destruct p].
    rewrite merged_view_handleSceneEnd. by destruct p.
  - cbn [is_merge_completion] in Hc.
    destruct (tasks w !! i) as [t|]; [| discriminate].
    apply merged_view_continue_task in E.
    + destruct E as [E | E]; [by left | by right; left].
    + intros Ht m ->. congruence.
  - destruct (take_timer tid (timers w)) as [[t rest]|]; [| discriminate].
    case_match; [| discriminate]. injection E as <-. left.
    unfold run_timer. destruct (action t); [done |].
    by rewrite merged_view_loop_tail.
  - destruct (effectTimer w) as [et|]; [| discriminate].
    case_match; [| discriminate]. injection E as <-. left.
    by rewrite merged_view_handleSceneEnd.
  - case_match; [| discriminate]. injection E as <-. left.
    unfold coolDownTick. by case_match.
  - case_match; [| discriminate]. injection E as <-. by left.
Qed.

(** The arrival of the speech of a voiceover. *)
Lemma voiceover_speech_arrives (w : World) (k : nat) (c : Hooks) (i : nat)
    (text a : string) :
  tasks w !! k = Some (AwaitVoiceSpeech c i text) →
  ∃ w1,
    step (Settle k (Text a)) w = Some w1
    ∧ merged_view w1 = merged_view w
    ∧ (∀ j s, timeline (hooks w) !! j = Some s →
         timeline (hooks w1) !! j
         = Some (if decide (j = i)
                 then match timeline c !! i with
                      | Some _ => Scene.with_audio a text s
                      | None => Scene.with_merge_failed (Scene.with_audio a text s)
                      end
                 else s))
    ∧ (∀ s0, timeline c !! i = Some s0 →
         tasks w1 = AwaitVoiceMerge i (Scene.url s0) a :: delete k (tasks w)
         ∧ calls w1 = CallMerge (Scene.url s0) a :: calls w).
Proof.
  intros Ht. rewrite (step_settle _ _ _ _ Ht).
  cbv beta iota zeta delta [continue_task].
  destruct (timeline c !! i) as [s0|] eqn:Hc; cbn [fmap option_fmap option_map];
    (eexists; split; [reflexivity |]); unfold merged_view; rendered.
  - split; [| split].
    + cbn. apply merged_patch_at. intros s. apply merged_with.
    + intros j s Hs. cbn. by rewrite patch_at_lookup, Hs.
    + intros ? [= <-]. by split.
  - split; [| split; [| done]].
    + cbn. rewrite !merged_patch_at; [done | |]; intros s; apply merged_with.
    + intros j s Hs. cbn. rewrite !patch_at_lookup, Hs. cbn.
      by case_decide.
Qed.

(** The arrival of the merged asset of a voiceover. *)
Lemma voiceover_merge_arrives (w : World) (k i : nat) (v a m : string) :
  tasks w !! k = Some (AwaitVoiceMerge i v a) →
  ∃ w1,
    step (Settle k (Text m)) w = Some w1
    ∧ (∀ j s, timeline (hooks w) !! j = Some s →
         timeline (hooks w1) !! j
         = Some (if decide (j = i) then Scene.with_merged m s else s))
    ∧ merges w1
      = {| merged_asset := m; merged_video := v; merged_audio := a |} :: merges w
    ∧ tasks w1 = delete k (tasks w)
    ∧ calls w1 = calls w.
Proof.
  intros Ht. rewrite (step_settle _ _ _ _ Ht).
  cbv beta iota zeta delta [continue_task]. cbn [fmap option_fmap option_map].
  eexists; split; [reflexivity |]. rendered.
  split; [| done].
  intros j s Hs. cbn. by rewrite patch_at_lookup, Hs.
Qed.

(** The arrival of the merged asset of the narration of a new scene. *)
Lemma auto_merge_arrives (w : World) (k : nat) (newScene : VideoScene)
    (v a m : string) :
  tasks w !! k = Some (AwaitAutoMerge newScene v a) →
  ∃ w1,
    step (Settle k (Text m)) w = Some w1
    ∧ (∀ j s, timeline (hooks w) !! j = Some s →
         timeline (hooks w1) !! j
         = Some (if decide (Scene.id s = Scene.id newScene)
                 then Scene.with_merged m s else s))
    ∧ merges w1
      = {| merged_asset := m; merged_video := v; merged_audio := a |} :: merges w
    ∧ tasks w1 = delete k (tasks w)
    ∧ calls w1 = calls w.
Proof.
  intros Ht. rewrite (step_settle _ _ _ _ Ht).
  cbv beta iota zeta delta [continue_task]. cbn [fmap option_fmap option_map].
  eexists; split; [reflexivity |]. rendered.
  split; [| done].
  intros j s Hs. cbn. by rewrite patch_id_lookup, Hs.
Qed.

Lemma with_merged_from_current (w : World) (s : VideoScene) (v a m : string) :
  Scene.url s = v →
  Scene.audioUrl s = Some a →
  {| merged_asset := m; merged_video := v; merged_audio := a |} ∈ merges w →
  merged_from_current w (Scene.with_merged m s).
Proof.
  intros Hv Ha Hin m' Hm'. destruct s. cbn in *. simplify_eq.
  eexists. split; [reflexivity | exact Hin].
Qed.

(** C1, as the code has it.  The [mergedUrl] of a scene is written by
    the arrival of a merged asset and by nothing else: every other event
    leaves the merged assets along the timeline as they are, adds a
    scene that has none, or (the confirmed clear) empties the timeline.
    When the speech of a voiceover arrives, the scene at the handler's
    index receives the new [audioUrl] and text and keeps the [mergedUrl]
    it had; the other scenes are unchanged, and a merge of the new audio
    with the video that the handler's render had at that index is
    requested.  When the merged asset of a voiceover arrives, it
    replaces the [mergedUrl] of the scene at the handler's index
    ([isMerging] false) and is recorded as made from the requested video
    and audio; when the merged asset of the narration of a new scene
    arrives, the same holds of the scenes that have the new scene's id.
    If the scene still has that video and that audio, its [mergedUrl] is
    then made from its present video and audio. *)
Theorem mergedUrl_written_by_merge_completion :
  (∀ (e : event) (w w' : World),
     step e w = Some w' →
     is_merge_completion e w = false →
     merged_view w' = merged_view w
     ∨ merged_view w' = (merged_view w ++ [None])%list
     ∨ e = ClearTimeline true ∧ timeline (hooks w') = [])
  ∧ (∀ (w : World) (k : nat) (c : Hooks) (i : nat) (text a : string),
       tasks w !! k = Some (AwaitVoiceSpeech c i text) →
       ∃ w1,
         step (Settle k (Text a)) w = Some w1
         ∧ merged_view w1 = merged_view w
         ∧ (∀ j s, timeline (hooks w) !! j = Some s →
              ∃ s1, timeline (hooks w1) !! j = Some s1
                    ∧ if decide (j = i)
                      then Scene.audioUrl s1 = Some a
                           ∧ Scene.audioScript s1 = Some text
                           ∧ Scene.mergedUrl s1 = Scene.mergedUrl s
                           ∧ Scene.url s1 = Scene.url s
                      else s1 = s)
         ∧ (∀ s0, timeline c !! i = Some s0 →
              tasks w1 = AwaitVoiceMerge i (Scene.url s0) a :: delete k (tasks w)
              ∧ calls w1 = CallMerge (Scene.url s0) a :: calls w
              ∧ ∀ s, timeline (hooks w) !! i = Some s →
                     timeline (hooks w1) !! i = Some (Scene.with_audio a text s)))
  ∧ (∀ (w : World) (k i : nat) (v a m : string),
       tasks w !! k = Some (AwaitVoiceMerge i v a) →
       ∃ w1,
         step (Settle k (Text m)) w = Some w1
         ∧ merges w1
           = {| merged_asset := m; merged_video := v; merged_audio := a |}
             :: merges w
         ∧ (∀ j s, timeline (hooks w) !! j = Some s →
              timeline (hooks w1) !! j
              = Some (if decide (j = i) then Scene.with_merged m s else s))
         ∧ (∀ s, timeline (hooks w) !! i = Some s →
              Scene.url s = v → Scene.audioUrl s = Some a →
              merged_from_current w1 (Scene.with_merged m s)))
  ∧ (∀ (w : World) (k : nat) (newScene : VideoScene) (v a m : string),
       tasks w !! k = Some (AwaitAutoMerge newScene v a) →
       ∃ w1,
         step (Settle k (Text m)) w = Some w1
         ∧ merges w1
           = {| merged_asset := m; merged_video := v; merged_audio := a |}
             :: merges w
         ∧ (∀ j s, timeline (hooks w) !! j = Some s →
              timeline (hooks w1) !! j
              = Some (if decide (Scene.id s = Scene.id newScene)
                      then Scene.with_merged m s else s))
         ∧ (∀ j s, timeline (hooks w) !! j = Some s →
              Scene.id s = Scene.id newScene →
              Scene.url s = v → Scene.audioUrl s = Some a →
              merged_from_current w1 (Scene.with_merged m s))).
Proof.
  split; [exact merged_view_step |].
  split; [| split].
  - intros w k c i text a Ht.
    destruct (voiceover_speech_arrives w k c i text a Ht)
      as (w1 & H1 & Hv & Hl & Hc).
    exists w1. split; [exact H1 |].
    split; [exact Hv |].
    split.
    + intros j s Hs. rewrite (Hl j s Hs). eexists. split; [reflexivity |].
      case_decide; [| done]. destruct (timeline c !! i); by destruct s.
    + intros s0 Hs0. destruct (Hc s0 Hs0) as (? & ?).
      do 2 (split; [done |]).
      intros s Hs. rewrite (Hl i s Hs), Hs0. by rewrite decide_True.
  - intros w k i v a m Ht.
    destruct (voiceover_merge_arrives w k i v a m Ht) as (w1 & H1 & Hl & Hm & _).
    exists w1. do 3 (split; [done |]).
    intros s Hs Hv Ha. apply (with_merged_from_current _ _ v a); try done.
    rewrite Hm. apply list_elem_of_here.
  - intros w k ns v a m Ht.
    destruct (auto_merge_arrives w k ns v a m Ht) as (w1 & H1 & Hl & Hm & _).
    exists w1. do 3 (split; [done |]).
    intros j s Hs _ Hv Ha. apply (with_merged_from_current _ _ v a); try done.
    rewrite Hm. apply list_elem_of_here.
Qed.

Lemma mergedUrl_written_by_merge_completion_witness :
  tasks regenerating_world !! 0%nat
  = Some (AwaitVoiceMerge 0 "blob:v1" "blob:a2")
  ∧ ∃ w1 s1,
      step (Settle 0 (Text "blob:m2")) regenerating_world = Some w1
      ∧ timeline (hooks w1) !! 0%nat = Some s1
      ∧ Scene.url s1 = "blob:v1"
      ∧ Scene.audioUrl s1 = Some "blob:a2"
      ∧ Scene.mergedUrl s1 = Some "blob:m2"
      ∧ merged_from_current w1 s1.
Proof.
  assert (H0 : tasks regenerating_world !! 0%nat
               = Some (AwaitVoiceMerge 0 "blob:v1" "blob:a2")
               ∧ ∃ s, timeline (hooks regenerating_world) !! 0%nat = Some s
                      ∧ Scene.url s = "blob:v1"
                      ∧ Scene.audioUrl s = Some "blob:a2").
  { vm_compute. split; [reflexivity |]. eexists. repeat split; reflexivity. }
  destruct H0 as (Ht & s & Hs & Hv & Ha).
  split; [exact Ht |].
  destruct mergedUrl_written_by_merge_completion as (_ & _ & Hmerge & _).
  destruct (Hmerge regenerating_world 0%nat 0%nat "blob:v1" "blob:a2" "blob:m2" Ht)
    as (w1 & H1 & _ & Hl & Hc).
  exists w1, (Scene.with_merged "blob:m2" s).
  split; [exact H1 |].
  split; [exact (Hl 0%nat s Hs) |].
  split; [by destruct s |].
  split; [by destruct s |].
  split; [by destruct s |].
  exact (Hc s Hs Hv Ha).
Defined.

(** *** Movie playback and the other events *)

Lemma run_app (es1 es2 : list event) (w : World) :
  run (es1 ++ es2) w
  = match run es1 w with
    | Some w' => run es2 w'
    | None => None
    end.
Proof.
  revert w. induction es1 as [|e es1 IH]; intros w; cbn; [done |].
  destruct (step e w); [apply IH | done].
Qed.

Lemma deps_commit (before after : World) : deps (commit before after) = deps after.
Proof. unfold deps. by rewrite hooks_commit, timelineRef_commit. Qed.

(** A render whose dependencies differ from those of the render before
    reruns the effect: in movie mode the timeout of the active scene
    starts again, from the present time and with the whole declared
    duration. *)
Lemma step_restarts_scene_timer (e : event) (w w' : World) (scene : VideoScene) :
  step e w = Some w' →
  deps w ≠ deps w' →
  isPlayingAll (hooks w') = true →
  timeline (hooks w') !! activeSceneIndex (hooks w') = Some scene →
  effectTimer w'
  = Some {| et_due := now w' + Z.max 0 (num_or (Scene.duration scene) 5 * 1000);
            et_closure := hooks w' |}.
Proof.
  intros H Hd Hp Hs. unfold step in H.
  destruct (handle e w) as [x|]; [| discriminate]. cbn in H. injection H as <-.
  rewrite deps_commit in Hd. rewrite hooks_commit in Hp, Hs.
  rewrite commit_changed by exact Hd.
  destruct (playback_effect_playing x scene Hp Hs) as (E1 & E2 & _ & E4 & _).
  by rewrite E1, E2, E4.
Qed.

(** C7, as stated, fails in two respects.  First, the timeout of a scene
    starts again with every change of the timeline: two scenes with
    declared durations 2 and 3 and cuts between them are played, and
    during the first scene the transition button before the second scene
    is pressed three times (a cut again), the last time 1.5 s after the
    start; the second scene is then shown 3.5 s after the start, and the
    movie ends 6.5 s after it, not after 2 s and 5 s.  Second, stopping
    the movie does not clear every pending timeout: when a scene is
    selected during the 800 ms of a fade, the timeout of the fade is
    still pending and, when it fires, moves the active index to the
    scene the movie was about to show. *)
Lemma timers_restart_and_survive :
  (feasible (movie_events ++ restarted_movie_events) (mounted initial_hooks 1000)
   = true
   ∧ Scene.duration <$> timeline (hooks restarted_movie_world) = [Num 2; Num 3]
   ∧ Scene.transition <$> timeline (hooks restarted_movie_world) = [cut; cut]
   ∧ isLooping (hooks restarted_movie_world) = false
   ∧ now movie_world = 81000
   ∧ snapshot restarted_movie_world = (82500, 0%nat, true)
   ∧ snapshot <$> play_out 3 restarted_movie_world
     = [(84500, 1%nat, true); (87500, 1%nat, false)]
   ∧ snapshot <$> play_out 3 restarted_movie_world
     ≠ [(83000, 1%nat, true); (86000, 1%nat, false)])
  ∧ (feasible
       (movie_events ++ fading_events
        ++ [Elapse 300; SelectScene 0; Elapse 500; Fire 0])
       (mounted initial_hooks 1000) = true
     ∧ snapshot fading_world = (83000, 0%nat, true)
     ∧ (∃ w1 w3,
          run [Elapse 300; SelectScene 0] fading_world = Some w1
          ∧ snapshot w1 = (83300, 0%nat, false)
          ∧ effectTimer w1 = None
          ∧ (due <$> timers w1) = [83800]
          ∧ ¬ (timers w1 = [])
          ∧ run [Elapse 500; Fire 0] w1 = Some w3
          ∧ snapshot w3 = (83800, 1%nat, false))).
Proof.
  split.
  - vm_compute. repeat split; try reflexivity. discriminate.
  - assert (H1 : ∃ w1,
               run [Elapse 300; SelectScene 0] fading_world = Some w1
               ∧ snapshot w1 = (83300, 0%nat, false)
               ∧ effectTimer w1 = None
               ∧ (due <$> timers w1) = [83800]).
    { vm_compute. eexists. repeat split; reflexivity. }
    assert (H3 : ∃ w3,
               run [Elapse 300; SelectScene 0; Elapse 500; Fire 0] fading_world
               = Some w3
               ∧ snapshot w3 = (83800, 1%nat, false)).
    { vm_compute. eexists. repeat split; reflexivity. }
    destruct H1 as (w1 & E1 & S1 & T1 & D1). destruct H3 as (w3 & E3 & S3).
    assert (E13 : run [Elapse 500; Fire 0] w1 = Some w3).
    { change [Elapse 300; SelectScene 0; Elapse 500; Fire 0]
        with ([Elapse 300; SelectScene 0] ++ [Elapse 500; Fire 0])%list in E3.
      rewrite run_app, E1 in E3. exact E3. }
    split; [vm_compute; reflexivity |].
    split; [vm_compute; reflexivity |].
    exists w1, w3.
    split; [exact E1 |]. split; [exact S1 |]. split; [exact T1 |].
    split; [exact D1 |].
    split; [intros Hn; rewrite Hn in D1; discriminate D1 |].
    split; [exact E13 | exact S3].
Qed.

(** C7, as the code has it.  In movie mode the effect sets one timeout
    for the active scene, due after the scene's declared duration (5 s
    when the duration is 0 or not a number), and makes the active video
    element loop; a native end-of-media event changes neither the state
    of the component nor any timeout.  The effect reruns, and the timeout
    starts again with the whole declared duration, whenever a render
    changes one of its dependencies (the active index, the active
    player, movie mode, the timeline, a volume, the loop setting).
    Selecting a scene leaves movie mode and clears the effect's timeout.
    For declared durations 2 and 3 without looping, when nothing but the
    timeouts happens after play is pressed: with a cut the second scene
    is shown after 2 s and the movie ends after 5 s; with a fade or a
    slide the second scene is shown after 2.8 s and the movie ends after
    5.8 s. *)
Theorem movie_playback_by_declared_duration :
  (∀ (v : World) (scene : VideoScene),
     isPlayingAll (hooks v) = true →
     timeline (hooks v) !! activeSceneIndex (hooks v) = Some scene →
     let v' := playback_effect (cleanup v) in
     effectTimer v'
     = Some {| et_due := now v + Z.max 0 (num_or (Scene.duration scene) 5 * 1000);
               et_closure := hooks v |}
     ∧ num_or NaN 5 = 5 ∧ num_or (Num 0) 5 = 5
     ∧ (truthy (str_or (Scene.mergedUrl scene) (Scene.url scene)) = true →
        (activePlayer (hooks v) = PlayerA → loop (videoPlayerA v') = true)
        ∧ (activePlayer (hooks v) = PlayerB → loop (videoPlayerB v') = true)))
  ∧ (∀ (e : event) (w w' : World) (scene : VideoScene),
       step e w = Some w' →
       deps w ≠ deps w' →
       isPlayingAll (hooks w') = true →
       timeline (hooks w') !! activeSceneIndex (hooks w') = Some scene →
       effectTimer w'
       = Some {| et_due := now w' + Z.max 0 (num_or (Scene.duration scene) 5 * 1000);
                 et_closure := hooks w' |})
  ∧ (∀ (w : World) (p : PlayerId),
       isPlayingAll (hooks w) = true →
       ∃ w',
         step (Ended p) w = Some w'
         ∧ hooks w' = hooks w ∧ effectTimer w' = effectTimer w
         ∧ timers w' = timers w ∧ now w' = now w)
  ∧ (∀ (w : World) (idx : nat),
       isPlayingAll (hooks w) = true →
       ∃ w',
         step (SelectScene idx) w = Some w'
         ∧ isPlayingAll (hooks w') = false ∧ effectTimer w' = None)
  ∧ (∀ (w : World) (s1 s2 : VideoScene),
       timeline (hooks w) = [s1; s2] →
       Scene.duration s1 = Num 2 →
       Scene.duration s2 = Num 3 →
       isLooping (hooks w) = false →
       isPlayingAll (hooks w) = false →
       timers w = [] →
       ∃ w1,
         step PlayAll w = Some w1
         ∧ snapshot w1 = (now w, 0%nat, true)
         ∧ et_due <$> effectTimer w1 = Some (now w + 2000)
         ∧ (truthy (Scene.url s1) = true → loop (videoPlayerA w1) = true)
         ∧ (∀ fuel, (3 ≤ fuel)%nat →
            snapshot <$> play_out fuel w1
            = if decide (Scene.transition s2 = cut)
              then [(now w + 2000, 1%nat, true); (now w + 5000, 1%nat, false)]
              else [(now w + 2000, 0%nat, true); (now w + 2800, 1%nat, true);
                    (now w + 5800, 1%nat, false)])).
Proof.
  split.
  { intros v scene Hp Hs v'.
    destruct (playback_effect_playing v scene Hp Hs) as (_ & _ & _ & E & L).
    split; [exact E |]. split; [reflexivity |]. split; [reflexivity | exact L]. }
  split; [exact step_restarts_scene_timer |].
  split.
  { intros w p Hp. rewrite (ended_in_movie_mode w p Hp). eexists.
    split; [reflexivity |]. by destruct p. }
  split.
  { intros w idx Hp. destruct (select_scene_stops w idx) as (w' & S & P & E).
    exists w'. auto. }
  intros w s1 s2 Ht H1 H2 Hl Hp Hm.
  destruct (movie_scenario w s1 s2 Ht H1 H2 Hl Hp Hm)
    as (w1 & S & Sn & Et & Lp & Hplay & _).
  exists w1. by repeat split.
Qed.

Lemma movie_playback_by_declared_duration_witness :
  ∃ w1,
    step PlayAll movie_world = Some w1
    ∧ snapshot <$> play_out 5 w1 = [(83000, 1%nat, true); (86000, 1%nat, false)].
Proof.
  assert (H0 : ∃ s1 s2,
             timeline (hooks movie_world) = [s1; s2]
             ∧ Scene.duration s1 = Num 2 ∧ Scene.duration s2 = Num 3
             ∧ Scene.transition s2 = cut
             ∧ isLooping (hooks movie_world) = false
             ∧ isPlayingAll (hooks movie_world) = false
             ∧ timers movie_world = []
             ∧ now movie_world = 81000).
  { vm_compute. eexists _, _. repeat split; reflexivity. }
  destruct H0 as (s1 & s2 & Ht & H1 & H2 & Hc & Hl & Hp & Hm & Hn).
  destruct movie_playback_by_declared_duration as (_ & _ & _ & _ & Hmovie).
  destruct (Hmovie movie_world s1 s2 Ht H1 H2 Hl Hp Hm)
    as (w1 & S & _ & _ & _ & Hplay).
  exists w1. split; [exact S |].
  rewrite (Hplay 5%nat) by lia. rewrite decide_True by exact Hc.
  rewrite Hn. reflexivity.
Defined.

(** *** The durations that are stored *)

Lemma Forall_patch_at (P : VideoScene → Prop) (index : nat)
    (f : VideoScene → VideoScene) (l : list VideoScene) :
  (∀ s, P s → P (f s)) → Forall P l → Forall P (patch_at index f l).
Proof.
  intros Hf Hl. apply Forall_lookup. intros i s.
  rewrite patch_at_lookup. destruct (l !! i) as [x|] eqn:E; [| done].
  cbn. intros [= <-]. pose proof (Forall_lookup_1 _ _ _ _ Hl E).
  case_decide; auto.
Qed.

Lemma Forall_patch_id (P : VideoScene → Prop) (sceneId : string)
    (f : VideoScene → VideoScene) (l : list VideoScene) :
  (∀ s, P s → P (f s)) → Forall P l → Forall P (patch_id sceneId f l).
Proof.
  intros Hf Hl. apply Forall_lookup. intros i s.
  rewrite patch_id_lookup. destruct (l !! i) as [x|] eqn:E; [| done].
  cbn. intros [= <-]. pose proof (Forall_lookup_1 _ _ _ _ Hl E).
  case_decide; auto.
Qed.

Lemma duration_with (s : VideoScene) :
  (∀ t, Scene.duration (Scene.with_transition t s) = Scene.duration s)
  ∧ (∀ a t, Scene.duration (Scene.with_audio a t s) = Scene.duration s)
  ∧ (∀ m, Scene.duration (Scene.with_merged m s) = Scene.duration s)
  ∧ Scene.duration (Scene.with_merge_failed s) = Scene.duration s.
Proof. by destruct s. Qed.

(** A patch that leaves the durations alone. *)
Lemma durations_ok_patch (g : list VideoScene → list VideoScene) (w : World) :
  (∀ l, Forall (λ s, duration_ok (Scene.duration s)) l →
        Forall (λ s, duration_ok (Scene.duration s)) (g l)) →
  durations_ok w → durations_ok (setTimeline g w).
Proof. intros Hg (D1 & D2 & D3 & D4). repeat split; cbn; auto. Qed.

Lemma durations_ok_same (w w' : World) :
  same_generation_state w w' → tasks w' = tasks w →
  durations_ok w → durations_ok w'.
Proof.
  intros (Htl & _ & _ & Hd & Htm & _) Ht (D1 & D2 & D3 & D4).
  unfold durations_ok. by rewrite Htl, Hd, Htm, Ht.
Qed.

Lemma durations_ok_executeGeneration (c : Hooks) (b : bool) (k : kont) (w : World) :
  duration_ok (sceneDuration c) →
  durations_ok w → durations_ok (executeGeneration c b k w).1.
Proof.
  intros Hc Hw. destruct (enhance c b) as [p|] eqn:Hp.
  - destruct (executeGeneration_suspends c b k w p Hp)
      as (_ & (Htl & _ & _ & Hd & Htm & _) & Ht & _).
    destruct Hw as (D1 & D2 & D3 & D4).
    unfold durations_ok. rewrite Htl, Hd, Htm, Ht.
    repeat split; try done. by constructor.
  - destruct (executeGeneration_rejects c b k w Hp) as (_ & Hs & Ht & _).
    by apply (durations_ok_same w).
Qed.

Lemma durations_ok_hooks (w w' : World) :
  sceneDuration (hooks w') = sceneDuration (hooks w) →
  timeline (hooks w') = timeline (hooks w) →
  tasks w' = tasks w → timers w' = timers w →
  durations_ok w → durations_ok w'.
Proof.
  intros Hd Htl Ht Htm (D1 & D2 & D3 & D4).
  unfold durations_ok. by rewrite Hd, Htl, Ht, Htm.
Qed.

Ltac same_durations := apply durations_ok_hooks; reflexivity.

Lemma durations_ok_loop_head (c : Hooks) (b : bool) (count : Z) (w : World) :
  duration_ok (sceneDuration c) →
  durations_ok w → durations_ok (loop_head c b count w).
Proof.
  intros Hc Hw. unfold loop_head. case_match; [| revert Hw; same_durations].
  pose proof (durations_ok_executeGeneration c true (K_loop count) w Hc Hw) as Hx.
  destruct (executeGeneration c true (K_loop count) w) as [w' s]. cbn in Hx.
  destruct s; [done |]. revert Hx. same_durations.
Qed.

Lemma durations_ok_loop_tail (c : Hooks) (count : Z) (w : World) :
  duration_ok (sceneDuration c) →
  durations_ok w → durations_ok (loop_tail c count w).
Proof. unfold loop_tail. apply durations_ok_loop_head. Qed.

Lemma durations_ok_loop_after (c : Hooks) (count : Z) (b : bool) (w : World) :
  duration_ok (sceneDuration c) →
  durations_ok w → durations_ok (loop_after_generation c count b w).
Proof.
  intros Hc Hw. unfold loop_after_generation.
  destruct b; cbn [negb]; [| revert Hw; same_durations].
  case_match; [| by apply durations_ok_loop_tail].
  destruct Hw as (D1 & D2 & D3 & D4). repeat split; try done.
  cbn. by constructor.
Qed.

Lemma durations_ok_resume (c : Hooks) (p u : string) (a : Asset) (w : World) :
  duration_ok (sceneDuration c) →
  durations_ok w → durations_ok (executeGeneration_resume c p u a w).
Proof.
  intros Hc (D1 & D2 & D3 & D4). unfold executeGeneration_resume.
  destruct (isAutoAudio c); repeat split; cbn; try done.
  all: try (apply Forall_app; split; [done | by repeat constructor]).
  by constructor.
Qed.

Lemma durations_ok_resume_kont (k : kont) (c : Hooks) (b : bool) (w : World) :
  duration_ok (sceneDuration c) →
  durations_ok w → durations_ok (resume_kont k c b w).
Proof.
  intros Hc Hw. destruct k; [done |]. by apply durations_ok_loop_after.
Qed.

Lemma durations_ok_voiceover_catch (e : JsError) (w : World) :
  durations_ok w → durations_ok (voiceover_catch e w).
Proof. unfold voiceover_catch. case_match; same_durations. Qed.

Lemma durations_ok_voiceover_speak (c : Hooks) (i : nat) (t : string) (w : World) :
  durations_ok w → durations_ok (voiceover_speak c i t w).
Proof.
  unfold voiceover_speak. case_match; [same_durations |].
  intros (D1 & D2 & D3 & D4). repeat split; try done. by constructor.
Qed.

Lemma durations_ok_handleSceneEnd (c : Hooks) (w : World) :
  durations_ok w → durations_ok (handleSceneEnd c w).
Proof.
  unfold handleSceneEnd, on_player. repeat case_match; try same_durations.
  all: intros (D1 & D2 & D3 & D4); repeat split; try done.
  all: by constructor.
Qed.

Ltac keeps_duration :=
  apply durations_ok_patch; intros l Hl;
  first [apply Forall_patch_at | apply Forall_patch_id]; [| exact Hl];
  intros s Hs; by rewrite ?(proj1 (duration_with s)),
    ?(proj1 (proj2 (duration_with s))),
    ?(proj1 (proj2 (proj2 (duration_with s)))),
    ?(proj2 (proj2 (proj2 (duration_with s)))).

Lemma durations_ok_park (t : task) (w : World) :
  task_durations_ok t → durations_ok w → durations_ok (park t w).
Proof. intros Ht (D1 & D2 & D3 & D4). repeat split; try done. by constructor. Qed.

Lemma durations_ok_continue_task (t : task) (o : outcome) (w w' : World) :
  task_durations_ok t →
  continue_task t o w = Some w' →
  durations_ok w → durations_ok w'.
Proof.
  intros Ht H Hw.
  destruct t as [c p k | c ns | c ns scr | ns v a | c i | c i txt | i v a],
           o as [u asset | txt' | err];
    cbv beta iota zeta delta [continue_task] in H; try discriminate;
    try (injection H as <-).
  - apply durations_ok_resume_kont; [exact Ht |].
    by apply durations_ok_resume.
  - apply durations_ok_resume_kont; [exact Ht |].
    destruct (executeGeneration_catch_frame err w) as (Hs & _ & _ & _ & Htk & _).
    by apply (durations_ok_same w).
  - apply durations_ok_park; [done |]. revert Hw. same_durations.
  - revert Hw. keeps_duration.
  - apply durations_ok_park; [done |].
    apply (durations_ok_hooks
             (setTimeline (patch_id (Scene.id ns) (Scene.with_audio txt' scr)) w));
      try reflexivity.
    revert Hw. keeps_duration.
  - revert Hw. keeps_duration.
  - apply durations_ok_patch.
    + intros l Hl. apply Forall_patch_id; [| exact Hl].
      intros s Hs. by rewrite (proj1 (proj2 (proj2 (duration_with s)))).
    + revert Hw. same_durations.
  - revert Hw. keeps_duration.
  - apply durations_ok_voiceover_speak. revert Hw. same_durations.
  - by apply durations_ok_voiceover_catch.
  - assert (Hx : durations_ok
                   (setTimeline (patch_at i (Scene.with_audio txt' txt)) w))
      by (revert Hw; keeps_duration).
    destruct (timeline c !! i); injection H as <-.
    + apply durations_ok_park; [done |]. revert Hx. same_durations.
    + apply (durations_ok_hooks
               (setTimeline (patch_at i Scene.with_merge_failed)
                  (setTimeline (patch_at i (Scene.with_audio txt' txt)) w)));
        try reflexivity.
      revert Hx. keeps_duration.
  - by apply durations_ok_voiceover_catch.
  - apply (durations_ok_hooks
             (setTimeline (patch_at i (Scene.with_merged txt'))
                (log_merge txt' v a w))); try reflexivity.
    apply durations_ok_patch.
    + intros l Hl. apply Forall_patch_at; [| exact Hl].
      intros s Hs. by rewrite (proj1 (proj2 (proj2 (duration_with s)))).
    + revert Hw. same_durations.
  - apply (durations_ok_hooks
             (setTimeline (patch_at i Scene.with_merge_failed) w)); try reflexivity.
    revert Hw. keeps_duration.
Qed.

Lemma take_timer_Forall (P : timer → Prop) (tid : nat) (l rest : list timer)
    (t : timer) :
  take_timer tid l = Some (t, rest) → Forall P l → P t ∧ Forall P rest.
Proof.
  revert rest. induction l as [|x l IH]; intros rest H Hl; [discriminate |].
  cbn in H. apply Forall_cons in Hl as [Hx Hl]. case_decide.
  - by simplify_eq.
  - destruct (take_timer tid l) as [[t' r]|]; [| discriminate]. simplify_eq.
    destruct (IH r eq_refl Hl). split; [done | by constructor].
Qed.

Lemma durations_ok_handle (e : event) (w w' : World) :
  offered e w = true →
  handle e w = Some w' →
  durations_ok w → durations_ok w'.
Proof.
  intros Ho H Hw. pose proof Hw as (D1 & D2 & D3 & D4).
  destruct e; cbn [handle] in H.
  - injection H as <-. revert Hw. same_durations.
  - injection H as <-. revert Hw. same_durations.
  - injection H as <-. revert Hw. same_durations.
  - injection H as <-. revert Hw. same_durations.
  - injection H as <-. cbn [offered] in Ho. apply bool_decide_eq_true in Ho.
    destruct (slider_value_range value Ho) as (z & Hz & Hr).
    unfold handleDurationChange. rewrite Hz.
    case_bool_decide; (split; [exact Hr |]); (split; [| by split]); cbn;
      [| exact D2].
    apply Forall_patch_at; [| exact D2]. intros s _. by destruct s.
  - injection H as <-. destruct confirmed; [| done].
    repeat split; cbn; try done.
  - injection H as <-. revert Hw. same_durations.
  - injection H as <-. unfold toggleTransition. revert Hw. keeps_duration.
  - injection H as <-. unfold handleStartGeneration.
    case_match; [done |]. case_match.
    + apply durations_ok_executeGeneration; [done |]. revert Hw. same_durations.
    + apply durations_ok_loop_head; [done |]. revert Hw. same_durations.
  - injection H as <-. revert Hw. same_durations.
  - injection H as <-. unfold handleGenerateVoiceover.
    case_bool_decide; [revert Hw; same_durations |].
    destruct useAutoScript.
    + case_match.
      * apply durations_ok_park; [done |]. revert Hw. same_durations.
      * apply durations_ok_voiceover_catch. revert Hw. same_durations.
    + apply durations_ok_voiceover_speak. revert Hw. same_durations.
  - injection H as <-. unfold handlePlayAll.
    case_bool_decide; [done |]. revert Hw. same_durations.
  - injection H as <-. revert Hw. same_durations.
  - injection H as <-. unfold onEnded.
    assert (Hp : durations_ok (on_player p pause w))
      by (revert Hw; destruct p; same_durations).
    case_match; [by apply durations_ok_handleSceneEnd | done].
  - destruct (tasks w !! i) as [t|] eqn:Et; [| discriminate].
    apply (durations_ok_continue_task t o _ _) in H; [done | |].
    + apply (Forall_lookup_1 _ _ _ _ D3 Et).
    + repeat split; try done. cbn.
      by apply Forall_delete.
  - destruct (take_timer tid (timers w)) as [[t rest]|] eqn:Et; [| discriminate].
    case_match; [| discriminate]. injection H as <-.
    destruct (take_timer_Forall _ _ _ _ _ Et D4) as (Pt & Pr).
    assert (Hx : durations_ok (upd_timers rest w)) by (by repeat split).
    unfold run_timer. unfold timer_durations_ok in Pt.
    destruct (action t); [revert Hx; same_durations |].
    by apply durations_ok_loop_tail.
  - destruct (effectTimer w) as [et|]; [| discriminate].
    case_match; [| discriminate]. injection H as <-.
    apply durations_ok_handleSceneEnd. revert Hw. same_durations.
  - case_match; [| discriminate]. injection H as <-. revert Hw.
    unfold coolDownTick. case_match; same_durations.
  - case_match; [| discriminate]. injection H as <-. revert Hw. same_durations.
Qed.

Lemma durations_ok_step (e : event) (w w' : World) :
  offered e w = true →
  step e w = Some w' →
  durations_ok w → durations_ok w'.
Proof.
  intros Ho H Hw. unfold step in H.
  destruct (handle e w) as [x|] eqn:E; [| discriminate].
  cbn in H. injection H as <-.
  pose proof (durations_ok_handle e w x Ho E Hw) as Hx.
  revert Hx. apply durations_ok_hooks; by rendered.
Qed.

Lemma durations_ok_run (es : list event) (w w' : World) :
  feasible es w = true →
  run es w = Some w' →
  durations_ok w → durations_ok w'.
Proof.
  revert w. induction es as [|e es IH]; intros w Hf Hr Hw.
  - cbn in Hr. by simplify_eq.
  - cbn in Hf, Hr. apply andb_true_iff in Hf as [Ho Hf].
    destruct (step e w) as [x|] eqn:E; [| discriminate].
    apply (IH x Hf Hr). by apply (durations_ok_step e w).
Qed.

Lemma handleDurationChange_hooks (c : Hooks) (value : string) (w : World) :
  sceneDuration (hooks (handleDurationChange c value w)) = parseInt value
  ∧ activeSceneIndex (hooks (handleDurationChange c value w))
    = activeSceneIndex (hooks w)
  ∧ timeline (hooks (handleDurationChange c value w))
    = if bool_decide (timeline c ≠ [])
      then patch_at (activeSceneIndex c) (Scene.with_duration (parseInt value))
             (timeline (hooks w))
      else timeline (hooks w).
Proof. unfold handleDurationChange. by case_bool_decide. Qed.

(** C3.  The duration control is a range input with bounds 1 and 15:
    set to any whole number [x], it holds the nearest value between the
    bounds, and that is what its handler is given.  The handler stores
    [max 1 (min 15 x)] as the duration of the active scene and as the
    default for new scenes, and leaves the other scenes alone; 0 gives 1
    and 20 gives 15.  Setting the same value again changes neither the
    timeline nor the default.  In every state that the page reaches from
    the mounted component, the default and the duration of every scene
    lie between 1 and 15. *)
Theorem setDuration_clamps :
  (∀ (x : Z) (w : World),
     let d := Z.max 1 (Z.min 15 x) in
     ∃ w1 w2,
       offered (DurationChange (range_value x)) w = true
       ∧ step (DurationChange (range_value x)) w = Some w1
       ∧ hooks w1 = hooks (setDuration x w)
       ∧ 1 ≤ d ≤ 15
       ∧ sceneDuration (hooks w1) = Num d
       ∧ (∀ i s, timeline (hooks w) !! i = Some s →
            timeline (hooks w1) !! i
            = Some (if decide (i = activeSceneIndex (hooks w))
                    then Scene.with_duration (Num d) s else s))
       ∧ length (timeline (hooks w1)) = length (timeline (hooks w))
       ∧ step (DurationChange (range_value x)) w1 = Some w2
       ∧ timeline (hooks w2) = timeline (hooks w1)
       ∧ sceneDuration (hooks w2) = sceneDuration (hooks w1))
  ∧ (range_value 0 = "1" ∧ parseInt (range_value 0) = Num 1
     ∧ range_value 20 = "15" ∧ parseInt (range_value 20) = Num 15)
  ∧ (∀ (t0 : Z) (es : list event) (w : World),
       feasible es (mounted initial_hooks t0) = true →
       run es (mounted initial_hooks t0) = Some w →
       duration_ok (sceneDuration (hooks w))
       ∧ ∀ s, s ∈ timeline (hooks w) →
           ∃ z, Scene.duration s = Num z ∧ 1 ≤ z ≤ 15).
Proof.
  split; [| split].
  - intros x w d.
    destruct (range_value_read x) as (Hin & Hread). fold d in Hread.
    set (v := range_value x) in *.
    set (w1 := commit w (handleDurationChange (hooks w) v w)).
    set (w2 := commit w1 (handleDurationChange (hooks w1) v w1)).
    destruct (handleDurationChange_hooks (hooks w) v w) as (A1 & A2 & A3).
    destruct (handleDurationChange_hooks (hooks w1) v w1) as (B1 & B2 & B3).
    assert (Hh : hooks w1 = hooks (handleDurationChange (hooks w) v w))
      by (unfold w1; by rendered).
    rewrite Hread in A1, A3, B1, B3.
    assert (S1 : sceneDuration (hooks w1) = Num d) by (by rewrite Hh).
    assert (I1 : activeSceneIndex (hooks w1) = activeSceneIndex (hooks w))
      by (by rewrite Hh).
    assert (T1 : timeline (hooks w1)
                 = if bool_decide (timeline (hooks w) ≠ [])
                   then patch_at (activeSceneIndex (hooks w))
                          (Scene.with_duration (Num d)) (timeline (hooks w))
                   else timeline (hooks w)) by (by rewrite Hh).
    rewrite I1 in B3.
    exists w1, w2.
    split; [cbn [offered]; by apply bool_decide_eq_true |].
    split; [reflexivity |].
    split; [exact Hh |].
    split; [unfold d; lia |].
    split; [exact S1 |].
    split.
    { intros i s Hs. rewrite T1.
      rewrite bool_decide_true by (intros E; by rewrite E in Hs).
      by rewrite patch_at_lookup, Hs. }
    split.
    { rewrite T1.
      destruct (bool_decide (timeline (hooks w) ≠ []));
        [by rewrite patch_at_length | done]. }
    split; [reflexivity |].
    split.
    + unfold w2. rendered. rewrite B3.
      destruct (bool_decide (timeline (hooks w1) ≠ [])); [| done].
      rewrite T1.
      destruct (bool_decide (timeline (hooks w) ≠ [])) eqn:E0.
      * apply patch_at_idem. intros s. by destruct s.
      * apply bool_decide_eq_false in E0.
        destruct (timeline (hooks w)); [done | by destruct E0].
    + unfold w2. rendered. by rewrite B1, S1.
  - by vm_compute.
  - intros t0 es w Hf Hr.
    assert (H0 : durations_ok (mounted initial_hooks t0)).
    { repeat split; cbn; try done; lia. }
    destruct (durations_ok_run es _ w Hf Hr H0) as (D1 & D2 & _).
    split; [exact D1 |].
    intros s Hs. rewrite Forall_forall in D2. specialize (D2 s Hs).
    destruct (Scene.duration s) as [z|]; [by exists z | done].
Qed.

Lemma setDuration_clamps_witness :
  (∃ w1 s1,
     step (DurationChange "15") scene_world = Some w1
     ∧ sceneDuration (hooks w1) = Num 15
     ∧ timeline (hooks w1) !! 0%nat = Some s1
     ∧ Scene.duration s1 = Num 15)
  ∧ feasible movie_events (mounted initial_hooks 1000) = true
  ∧ run movie_events (mounted initial_hooks 1000) = Some movie_world
  ∧ ∀ s, s ∈ timeline (hooks movie_world) →
      ∃ z, Scene.duration s = Num z ∧ 1 ≤ z ≤ 15.
Proof.
  assert (H0 : ∃ s, timeline (hooks scene_world) !! 0%nat = Some s
                    ∧ activeSceneIndex (hooks scene_world) = 0%nat).
  { vm_compute. eexists. split; reflexivity. }
  destruct H0 as (s & Hs & Hi).
  assert (Hf : feasible movie_events (mounted initial_hooks 1000) = true)
    by (vm_compute; reflexivity).
  assert (Hr : run movie_events (mounted initial_hooks 1000) = Some movie_world)
    by (vm_compute; reflexivity).
  destruct setDuration_clamps as (Hset & _ & Hinv).
  split.
  - destruct (Hset 20 scene_world) as (w1 & _ & _ & S1 & _ & _ & Hd & Hl & _).
    exists w1, (Scene.with_duration (Num 15) s).
    split; [exact S1 |]. split; [exact Hd |].
    split; [| by destruct s].
    rewrite (Hl 0%nat s Hs), Hi. by rewrite decide_True.
  - split; [exact Hf |]. split; [exact Hr |].
    exact (proj2 (Hinv 1000 movie_events movie_world Hf Hr)).
Defined.

(** *** Further properties: the timeline manager *)

(** X1.  A confirmed clear empties the timeline and the selection and
    resets the active index, the prompt and the error, whatever the state
    was; the effect's timeout is cleared.  It cancels nothing that is
    awaited and leaves movie mode as it is.  A declined clear changes
    nothing. *)
Theorem clear_timeline_resets (w : World) :
  (∃ w',
     step (ClearTimeline true) w = Some w'
     ∧ timeline (hooks w') = []
     ∧ selectedSceneIds (hooks w') = ∅
     ∧ activeSceneIndex (hooks w') = 0%nat
     ∧ prompt (hooks w') = ""
     ∧ error (hooks w') = None
     ∧ effectTimer w' = None
     ∧ tasks w' = tasks w ∧ timers w' = timers w
     ∧ isPlayingAll (hooks w') = isPlayingAll (hooks w))
  ∧ step (ClearTimeline false) w = Some w.
Proof.
  split.
  - unfold step. simpl. eexists. split; [reflexivity |]. rendered.
    repeat (split; [reflexivity |]).
    split; [| by repeat split].
    rewrite commit_changed.
    + unfold playback_effect, cleanup. reflexivity.
    + unfold deps. cbn. intros Hd. injection Hd as _ Hr. lia.
  - unfold step. simpl. by rewrite commit_same.
Qed.

(** X2.  Toggling the selection of a scene flips the membership of its
    id and of no other id, and toggling twice restores the selection.  The
    timeline and the active scene are not touched. *)
Theorem toggle_selection_flips (sceneId : string) (w : World) :
  let w1 := toggleSceneSelection sceneId w in
  (sceneId ∈ selectedSceneIds (hooks w1) ↔ sceneId ∉ selectedSceneIds (hooks w))
  ∧ (∀ x, x ≠ sceneId →
       x ∈ selectedSceneIds (hooks w1) ↔ x ∈ selectedSceneIds (hooks w))
  ∧ selectedSceneIds (hooks (toggleSceneSelection sceneId w1))
    = selectedSceneIds (hooks w)
  ∧ timeline (hooks w1) = timeline (hooks w)
  ∧ activeSceneIndex (hooks w1) = activeSceneIndex (hooks w).
Proof.
  cbn. set (sel := selectedSceneIds (hooks w)).
  split; [| split; [| split; [| done]]].
  - case_decide; set_solver.
  - intros x Hx. case_decide; set_solver.
  - apply set_eq. intros x.
    destruct (decide (sceneId ∈ sel)) as [Hin | Hout].
    + rewrite decide_False by set_solver.
      destruct (decide (x = sceneId)) as [-> | Hne]; set_solver.
    + rewrite decide_True by set_solver.
      destruct (decide (x = sceneId)) as [-> | Hne]; set_solver.
Qed.

Lemma next_transition_thrice (t : TransitionType) :
  next_transition (next_transition (next_transition t)) = t.
Proof. by destruct t. Qed.

(** X3.  Pressing a transition button changes the transition of the
    scene at its index to the next of cut, fade, slide and leaves every
    other scene and every other field alone; three presses restore the
    timeline. *)
Theorem toggle_transition_cycles (index : nat) (w : World) :
  (∀ i s, timeline (hooks w) !! i = Some s →
     timeline (hooks (toggleTransition index w)) !! i
     = Some (if decide (i = index)
             then Scene.with_transition (next_transition (Scene.transition s)) s
             else s))
  ∧ timeline
      (hooks (toggleTransition index (toggleTransition index (toggleTransition index w))))
    = timeline (hooks w)
  ∧ activeSceneIndex (hooks (toggleTransition index w)) = activeSceneIndex (hooks w).
Proof.
  split; [| split; [| done]].
  - intros i s Hs. cbn. by rewrite patch_at_lookup, Hs.
  - cbn. apply list_eq. intros i. rewrite !patch_at_lookup.
    destruct (timeline (hooks w) !! i) as [s|]; [| done]. cbn.
    case_decide; [| done]. cbn. rewrite next_transition_thrice.
    by destruct s.
Qed.

Example movie_world_second_transition :
  Scene.transition
    <$> timeline (hooks (toggleTransition 1 movie_world)) = [cut; fade].
Proof. vm_compute. reflexivity. Qed.

(** *** Further properties: file names *)

Lemma string_of_uint_digits (d : Decimal.uint) :
  all_digits (NilEmpty.string_of_uint d) = true.
Proof. induction d; simpl; by rewrite ?IHd. Qed.

Lemma unorm_head_zero (d d' : Decimal.uint) :
  Decimal.unorm d = Decimal.D0 d' → d' = Decimal.Nil.
Proof.
  induction d; simpl; intros H; try discriminate; auto.
  by injection H as <-.
Qed.

Lemma to_uint_head_nonzero (p : positive) (d : Decimal.uint) :
  Pos.to_uint p ≠ Decimal.D0 d.
Proof.
  intros H.
  assert (Hn : Decimal.unorm (Pos.to_uint p) = Pos.to_uint p).
  { change (Pos.to_uint p) with (N.to_uint (N.pos p)).
    rewrite <- (DecimalN.Unsigned.to_of (N.to_uint (N.pos p))).
    by rewrite DecimalN.Unsigned.of_to. }
  rewrite H in Hn. apply unorm_head_zero in Hn. subst d.
  by apply DecimalPos.Unsigned.to_uint_nonzero in H.
Qed.

(** The decimal text of a positive number: digits only, not empty, no
    leading zero. *)
Lemma toString_positive (z : Z) :
  0 < z →
  all_digits (toString z) = true
  ∧ ∃ a s, toString z = String a s ∧ a ≠ "0"%char.
Proof.
  intros Hz. destruct z as [|p|p]; try lia. unfold toString. simpl.
  pose proof (string_of_uint_digits (Pos.to_uint p)) as Hd.
  pose proof (to_uint_head_nonzero p) as Hh.
  pose proof (DecimalPos.Unsigned.to_uint_nonnil p) as Hn.
  destruct (Pos.to_uint p) as [|d|d|d|d|d|d|d|d|d|d]; try done; simpl in *;
    (split; [done |]); try (eexists _, _; split; [reflexivity | discriminate]).
  by destruct (Hh d).
Qed.

Lemma scene_num_digits (i : nat) : all_digits (scene_num i) = true.
Proof.
  unfold scene_num.
  destruct (toString_positive (Z.of_nat i + 1)) as (Hd & a & s & E & _); [lia |].
  rewrite E in *. destruct s as [|b s].
  - change (padStart2 (String a "")) with (String "0" (String a "")).
    change (all_digits (String "0" (String a ""))) with (all_digits (String a "")).
    exact Hd.
  - exact Hd.
Qed.

Lemma scene_num_inj (i j : nat) : scene_num i = scene_num j → i = j.
Proof.
  unfold scene_num. intros H.
  destruct (toString_positive (Z.of_nat i + 1)) as (_ & a & s & Ei & Hai); [lia |].
  destruct (toString_positive (Z.of_nat j + 1)) as (_ & b & t & Ej & Hbj); [lia |].
  assert (E : toString (Z.of_nat i + 1) = toString (Z.of_nat j + 1)).
  { rewrite Ei, Ej in *. destruct s as [|a' s], t as [|b' t]; simpl in H.
    - by injection H as ->.
    - injection H as <- <-. done.
    - injection H as -> ->. done.
    - done. }
  apply toString_inj in E. lia.
Qed.

(** Texts that begin with digits and continue with another character
    agree on the digits when they are equal. *)
Lemma digits_prefix_inj (s1 s2 : string) (c1 c2 : ascii) (t1 t2 : string) :
  all_digits s1 = true → all_digits s2 = true →
  is_digit c1 = false → is_digit c2 = false →
  s1 +:+ String c1 t1 = s2 +:+ String c2 t2 → s1 = s2 ∧ String c1 t1 = String c2 t2.
Proof.
  revert s2. induction s1 as [|a s1 IH]; intros [|b s2] H1 H2 Hc1 Hc2 H; simpl in *.
  - done.
  - injection H as -> _. apply andb_true_iff in H2 as [H2 _]. congruence.
  - injection H as -> _. apply andb_true_iff in H1 as [H1 _]. congruence.
  - injection H as -> H.
    apply andb_true_iff in H1 as [_ H1]. apply andb_true_iff in H2 as [_ H2].
    destruct (IH s2 H1 H2 Hc1 Hc2 H) as [-> ?]. done.
Qed.

Lemma append_inj_r (p s t : string) : p +:+ s = p +:+ t → s = t.
Proof. induction p; simpl; intros H; [done |]. injection H as H. auto. Qed.

(** A name made of a scene number and a suffix that starts with a
    character other than a digit determines both. *)
Lemma numbered_name_inj (i j : nat) (c1 c2 : ascii) (t1 t2 : string) :
  is_digit c1 = false → is_digit c2 = false →
  "scene_" +:+ scene_num i +:+ String c1 t1
  = "scene_" +:+ scene_num j +:+ String c2 t2 →
  i = j ∧ String c1 t1 = String c2 t2.
Proof.
  intros Hc1 Hc2 H. apply append_inj_r in H.
  destruct (digits_prefix_inj _ _ _ _ _ _ (scene_num_digits i) (scene_num_digits j)
              Hc1 Hc2 H) as [E1 E2].
  split; [by apply scene_num_inj | done].
Qed.

(** X4.  The download link of a scene points to the merged asset when
    the scene has one and to the raw video otherwise, with the extension
    to match; and the file names offered for scenes at different positions
    differ. *)
Theorem download_link_names (s s' : VideoScene) (i j : nat) :
  (opt_truthy (Scene.mergedUrl s) = true →
   download_link s i
   = (default "" (Scene.mergedUrl s), "scene_" +:+ scene_num i +:+ ".webm"))
  ∧ (opt_truthy (Scene.mergedUrl s) = false →
     download_link s i = (Scene.url s, "scene_" +:+ scene_num i +:+ ".mp4"))
  ∧ ((download_link s i).2 = (download_link s' j).2 → i = j).
Proof.
  unfold download_link, str_or, opt_truthy. split; [| split].
  - intros H. destruct (Scene.mergedUrl s) as [m|]; [| done]. by rewrite H.
  - intros H. destruct (Scene.mergedUrl s) as [m|]; [| done]. by rewrite H.
  - simpl. intros H.
    by destruct (numbered_name_inj i j "." "." _ _ eq_refl eq_refl H).
Qed.

Example download_of_active_scene :
  handleDownloadActiveVideo (hooks failed_merge_world)
  = Some ("blob:m1", "scene_01.webm")
  ∧ handleDownloadActiveVideo initial_hooks = None.
Proof. vm_compute. done. Qed.

(** *** Further properties: the project archive *)

Lemma NoDup_fmap_concat_imap {A B C} (g : B → C) (f : nat → A → list B)
    (l : list A) :
  (∀ i x, l !! i = Some x → NoDup (g <$> f i x)) →
  (∀ i j x y c, l !! i = Some x → l !! j = Some y →
     c ∈ g <$> f i x → c ∈ g <$> f j y → i = j) →
  NoDup (g <$> List.concat (imap f l)).
Proof.
  revert f. induction l as [|a l IH]; intros f H1 H2; simpl.
  - constructor.
  - rewrite fmap_app. apply NoDup_app. split; [apply (H1 0%nat a eq_refl) |]. split.
    + intros c Hc Hin.
      apply list_elem_of_fmap in Hin as (b & -> & Hb).
      apply list_elem_of_In, in_concat in Hb as (l' & Hl' & Hb).
      apply list_elem_of_In, elem_of_lookup_imap in Hl' as (i & y & -> & Hy).
      assert (E : 0%nat = S i); [| discriminate].
      apply (H2 0%nat (S i) a y (g b) eq_refl Hy Hc).
      apply list_elem_of_fmap. exists b. split; [done |]. by apply list_elem_of_In.
    + apply (IH (f ∘ S)).
      * intros i x Hx. apply (H1 (S i) x Hx).
      * intros i j x y c Hx Hy Hc1 Hc2.
        assert (E : S i = S j) by apply (H2 (S i) (S j) x y c Hx Hy Hc1 Hc2).
        by injection E.
Qed.

(** The names under which one pass of the loop can file a scene. *)
Lemma scene_files_names (i : nat) (s : VideoScene) :
  sublist ((scene_files i s).*1)
    ["scene_" +:+ scene_num i +:+ "_video.mp4";
     "scene_" +:+ scene_num i +:+ "_audio.wav";
     "scene_" +:+ scene_num i +:+ "_merged.webm"].
Proof.
  unfold scene_files.
  destruct (opt_truthy (Scene.audioUrl s)), (opt_truthy (Scene.mergedUrl s)); simpl;
    repeat first [ apply sublist_nil_l | apply sublist_skip | apply sublist_cons ].
Qed.

Lemma scene_names_of (i : nat) (s : VideoScene) (n : string) :
  n ∈ (scene_files i s).*1 →
  ∃ t, n = "scene_" +:+ scene_num i +:+ String "_" t.
Proof.
  intros H. apply (λ H, elem_of_sublist _ _ _ H (scene_files_names i s)) in H.
  repeat (apply elem_of_cons in H as [-> | H]; [eexists; reflexivity |]).
  by apply elem_of_nil in H.
Qed.

Lemma scene_names_NoDup (i : nat) (s : VideoScene) : NoDup ((scene_files i s).*1).
Proof.
  eapply sublist_NoDup; [| apply scene_files_names].
  assert (D : ∀ t1 t2 : string, t1 ≠ t2 →
            "scene_" +:+ scene_num i +:+ t1 ≠ "scene_" +:+ scene_num i +:+ t2).
  { intros t1 t2 Ht E. apply Ht. by do 2 apply append_inj_r in E. }
  repeat constructor; rewrite ?elem_of_cons, ?elem_of_nil;
    intros H; repeat (destruct H as [H | H]); try done;
    revert H; by apply D.
Qed.

Lemma scene_files_length (i : nat) (s : VideoScene) :
  length (scene_files i s)
  = (1 + (if opt_truthy (Scene.audioUrl s) then 1 else 0)
       + (if opt_truthy (Scene.mergedUrl s) then 1 else 0))%nat.
Proof.
  unfold scene_files.
  by destruct (opt_truthy (Scene.audioUrl s)), (opt_truthy (Scene.mergedUrl s)).
Qed.

Lemma export_length (f : nat → VideoScene → list (string * content))
    (l : list VideoScene) :
  (∀ i s, length (f i s)
          = (1 + (if opt_truthy (Scene.audioUrl s) then 1 else 0)
               + (if opt_truthy (Scene.mergedUrl s) then 1 else 0))%nat) →
  length (List.concat (imap f l))
  = (length l + count_audio l + count_merged l)%nat.
Proof.
  revert f. induction l as [|a l IH]; intros f Hf; [done |].
  simpl. rewrite length_app, Hf, (IH (f ∘ S)); [| intros; apply Hf].
  unfold count_audio, count_merged. rewrite !filter_cons.
  destruct (opt_truthy (Scene.audioUrl a)), (opt_truthy (Scene.mergedUrl a));
    repeat case_decide; try done; simpl; lia.
Qed.

(** X5.  The project archive.  Nothing is exported from an empty
    timeline.  Otherwise the exported scenes are the selected scenes of
    the timeline, or all of them when none is selected, in timeline
    order; the archive holds one raw video per exported scene, one audio
    file per scene with an audio track, one merged file per scene with a
    merged asset, and the two text files; and no two of its entries have
    the same name. *)
Theorem project_archive (c : Hooks) :
  (timeline c = [] → handleDownloadProjectZip c = None)
  ∧ (timeline c ≠ [] →
     ∃ ar, handleDownloadProjectZip c = Some ar
       ∧ sublist (scenesToExport c) (timeline c)
       ∧ (∀ s, s ∈ scenesToExport c ↔
               s ∈ timeline c
               ∧ (size (selectedSceneIds c) = 0%nat
                  ∨ Scene.id s ∈ selectedSceneIds c))
       ∧ length (archive_files ar)
         = (length (scenesToExport c) + count_audio (scenesToExport c)
            + count_merged (scenesToExport c) + 2)%nat
       ∧ NoDup ((archive_files ar).*1)).
Proof.
  unfold handleDownloadProjectZip. split; intros H.
  - by rewrite bool_decide_eq_true_2.
  - rewrite bool_decide_eq_false_2 by done. eexists. split; [reflexivity |].
    split; [| split; [| split]].
    + unfold scenesToExport. case_bool_decide; [apply sublist_filter | done].
    + intros s. unfold scenesToExport. case_bool_decide as Hs.
      * rewrite list_elem_of_filter. split.
        -- intros [? ?]. auto.
        -- intros [? [? | ?]]; [lia | done].
      * split; [intros ?; split; [done | left; lia] | by intros [? _]].
    + simpl. rewrite length_app. simpl.
      rewrite (export_length scene_files); [lia | apply scene_files_length].
    + simpl. rewrite fmap_app. apply NoDup_app. split; [| split].
      * apply NoDup_fmap_concat_imap.
        -- intros i x _. apply scene_names_NoDup.
        -- intros i j x y n _ _ Hi Hj.
           apply scene_names_of in Hi as [t1 ->].
           apply scene_names_of in Hj as [t2 E].
           by destruct (numbered_name_inj i j "_" "_" _ _ eq_refl eq_refl E).
      * intros n Hn Hfix.
        apply list_elem_of_fmap in Hn as (b & -> & Hb).
        apply list_elem_of_In, in_concat in Hb as (l' & Hl' & Hb).
        apply list_elem_of_In, elem_of_lookup_imap in Hl' as (i & y & -> & Hy).
        assert (Hn : b.1 ∈ (scene_files i y).*1).
        { apply list_elem_of_fmap. exists b. split; [done |]. by apply list_elem_of_In. }
        apply scene_names_of in Hn as [t E]. rewrite E in Hfix. simpl in Hfix.
        repeat (apply elem_of_cons in Hfix as [Hfix | Hfix]; [discriminate |]).
        by apply elem_of_nil in Hfix.
      * simpl. repeat constructor; rewrite ?elem_of_cons, ?elem_of_nil;
          intros Hx; repeat (destruct Hx as [Hx | Hx]); done.
Qed.

Lemma project_archive_witness :
  timeline (hooks failed_merge_world) ≠ []
  ∧ ∃ ar, handleDownloadProjectZip (hooks failed_merge_world) = Some ar
      ∧ length (archive_files ar) = 5%nat.
Proof.
  assert (H : timeline (hooks failed_merge_world) ≠ [])
    by (vm_compute; discriminate).
  split; [exact H |].
  destruct (project_archive (hooks failed_merge_world)) as [_ Hex].
  destruct (Hex H) as (ar & E & _ & _ & L & _).
  exists ar. split; [exact E |].
  rewrite L. vm_compute. reflexivity.
Defined.

(** X6.  What the archive holds for the scene at position [i] of the
    exported list: its raw video under the number [i + 1], its audio
    track exactly when it has one, and its merged asset exactly when it
    has one.  The number is the position among the exported scenes, so
    an export of a selection numbers its scenes from 01 whatever their
    place in the timeline. *)
Theorem project_archive_entries (c : Hooks) (ar : archive) (i : nat)
    (s : VideoScene) :
  handleDownloadProjectZip c = Some ar →
  scenesToExport c !! i = Some s →
  ("scene_" +:+ scene_num i +:+ "_video.mp4", Fetched (Scene.url s))
    ∈ archive_files ar
  ∧ (opt_truthy (Scene.audioUrl s) = true ↔
     "scene_" +:+ scene_num i +:+ "_audio.wav" ∈ (archive_files ar).*1)
  ∧ (opt_truthy (Scene.mergedUrl s) = true ↔
     "scene_" +:+ scene_num i +:+ "_merged.webm" ∈ (archive_files ar).*1).
Proof.
  unfold handleDownloadProjectZip. intros H Hs.
  case_bool_decide; [done |]. injection H as <-. simpl.
  assert (In1 : ∀ e, e ∈ scene_files i s →
                e ∈ (List.concat (imap scene_files (scenesToExport c))
                     ++ [("merge_movie.bat", Written (winScript (scenesToExport c)));
                         ("list.txt", Written (fileListText (scenesToExport c)))])%list).
  { intros e He. apply elem_of_app. left.
    apply list_elem_of_In, in_concat. exists (scene_files i s).
    split; [| by apply list_elem_of_In].
    apply list_elem_of_In, elem_of_lookup_imap. by exists i, s. }
  assert (Out : ∀ t, "scene_" +:+ scene_num i +:+ String "_" t
                ∈ (List.concat (imap scene_files (scenesToExport c))
                   ++ [("merge_movie.bat", Written (winScript (scenesToExport c)));
                       ("list.txt", Written (fileListText (scenesToExport c)))])%list.*1 →
                "scene_" +:+ scene_num i +:+ String "_" t ∈ (scene_files i s).*1).
  { intros t Ht. rewrite fmap_app in Ht. apply elem_of_app in Ht as [Ht | Ht].
    - apply list_elem_of_fmap in Ht as (b & Eb & Hb).
      apply list_elem_of_In, in_concat in Hb as (l' & Hl' & Hb).
      apply list_elem_of_In, elem_of_lookup_imap in Hl' as (j & y & -> & Hy).
      assert (Hn : b.1 ∈ (scene_files j y).*1).
      { apply list_elem_of_fmap. exists b. split; [done |]. by apply list_elem_of_In. }
      destruct (scene_names_of _ _ _ Hn) as [t' E]. rewrite <- Eb in E.
      destruct (numbered_name_inj i j "_" "_" _ _ eq_refl eq_refl E) as [<- _].
      assert (y = s) by congruence. subst y. by rewrite Eb.
    - simpl in Ht.
      repeat (apply elem_of_cons in Ht as [Ht | Ht]; [discriminate |]).
      by apply elem_of_nil in Ht. }
  assert (D : ∀ t1 t2 : string, t1 ≠ t2 →
            "scene_" +:+ scene_num i +:+ t1 ≠ "scene_" +:+ scene_num i +:+ t2).
  { intros t1 t2 Ht E. apply Ht. by do 2 apply append_inj_r in E. }
  split; [| split].
  - apply In1. unfold scene_files. apply elem_of_app. left. apply list_elem_of_singleton.
    reflexivity.
  - split.
    + intros Ha. apply list_elem_of_fmap.
      exists ("scene_" +:+ scene_num i +:+ "_audio.wav",
              Fetched (default "" (Scene.audioUrl s))).
      split; [done |]. apply In1. unfold scene_files. rewrite Ha.
      apply elem_of_app. right. apply elem_of_app. left.
      by apply list_elem_of_singleton.
    + intros Hin. apply Out in Hin. unfold scene_files in Hin.
      destruct (opt_truthy (Scene.audioUrl s)); [done |].
      destruct (opt_truthy (Scene.mergedUrl s)); simpl in Hin;
        repeat (apply elem_of_cons in Hin as [Hin | Hin];
                [by apply D in Hin |]);
        by apply elem_of_nil in Hin.
  - split.
    + intros Hm. apply list_elem_of_fmap.
      exists ("scene_" +:+ scene_num i +:+ "_merged.webm",
              Fetched (default "" (Scene.mergedUrl s))).
      split; [done |]. apply In1. unfold scene_files. rewrite Hm.
      apply elem_of_app. right. apply elem_of_app. right.
      by apply list_elem_of_singleton.
    + intros Hin. apply Out in Hin. unfold scene_files in Hin.
      destruct (opt_truthy (Scene.mergedUrl s)); [done |].
      destruct (opt_truthy (Scene.audioUrl s)); simpl in Hin;
        repeat (apply elem_of_cons in Hin as [Hin | Hin];
                [by apply D in Hin |]);
        by apply elem_of_nil in Hin.
Qed.

Lemma project_archive_entries_witness :
  ∃ ar s,
    handleDownloadProjectZip (hooks failed_merge_world) = Some ar
    ∧ scenesToExport (hooks failed_merge_world) !! 0%nat = Some s
    ∧ "scene_" +:+ scene_num 0 +:+ "_merged.webm" ∈ (archive_files ar).*1.
Proof.
  assert (∃ ar, handleDownloadProjectZip (hooks failed_merge_world) = Some ar)
    as [ar E] by (vm_compute; eexists; reflexivity).
  assert (∃ s, scenesToExport (hooks failed_merge_world) !! 0%nat = Some s
               ∧ opt_truthy (Scene.mergedUrl s) = true)
    as (s & Es & Hm) by (vm_compute; eexists; split; reflexivity).
  exists ar, s. split; [exact E |]. split; [exact Es |].
  destruct (project_archive_entries _ ar 0%nat s E Es) as (_ & _ & [H _]).
  exact (H Hm).
Defined.

(** The second scene of a two-scene timeline, exported alone, is filed
    under the number 01. *)
Example selection_export_renumbers :
  (w ← step (ToggleSceneSelection "81000") movie_world;
   ar ← handleDownloadProjectZip (hooks w);
   Some (archive_name ar, (archive_files ar).*1))
  = Some ("wrm_studio_selection.zip",
          ["scene_01_video.mp4"; "merge_movie.bat"; "list.txt"]).
Proof. vm_compute. reflexivity. Qed.

(** *** Further properties: failures of a generation *)

Lemma enhance_none_iff (c : Hooks) (isChain : bool) :
  enhance c isChain = None
  ↔ timeline c = [] ∧ opt_truthy (selectedImage c) = false
    ∧ truthy (trim (prompt c)) = false.
Proof.
  split.
  - intros H. destruct (decide (timeline c = [])) as [E | N].
    + unfold enhance in H. rewrite E in H.
      rewrite bool_decide_eq_false_2 in H by (intros X; by apply X).
      cbn [andb negb] in H.
      destruct (opt_truthy (selectedImage c)), (truthy (trim (prompt c)));
        cbn [andb negb] in H; try done;
        repeat case_match; done.
    + destruct (enhance_extension c isChain N) as [p Hp]. congruence.
  - intros (E & Hi & Hp). unfold enhance. rewrite E.
    rewrite bool_decide_eq_false_2 by (intros X; by apply X).
    cbn [andb negb]. by rewrite Hi, Hp.
Qed.

(** The [catch] block for an error that none of its tests recognises. *)
Lemma executeGeneration_catch_plain (e : JsError) (w : World) :
  truthy (message e) = true →
  startsWith (trim (message e)) "{" = false →
  includes (message e) "safety filters" = false →
  includes (message e) "Video generation failed or returned no URI" = false →
  includes (message e) "429" = false →
  includes (message e) "quota" = false →
  includes (message e) "RESOURCE_EXHAUSTED" = false →
  includes (message e) "Requested entity was not found" = false →
  includes (message e) "API key" = false →
  includes (message e) "403" = false →
  includes (message e) "PERMISSION_DENIED" = false →
  includes (message e) "billing" = false →
  executeGeneration_catch e w
  = setIsGenerating false (setError (Some (message e)) w).
Proof.
  intros Ht Hs H1 H2 H3 H4 H5 H6 H7 H8 H9 H10. unfold executeGeneration_catch.
  rewrite Ht, Hs, H1, H2. cbv beta iota zeta.
  rewrite H3, H4, H5. cbv beta iota zeta delta [orb].
  rewrite H6, H7, H8, H9, H10. reflexivity.
Qed.

Ltac closed_includes :=
  repeat match goal with
         | |- context [includes ?a ?b] =>
             let v := eval vm_compute in (includes a b) in
             change (includes a b) with v
         end.

Lemma includes_nonempty (s t : string) :
  includes s t = true → truthy t = true → truthy s = true.
Proof.
  intros H Ht. destruct s; [| reflexivity].
  destruct t; [discriminate Ht | discriminate H].
Qed.

Lemma quota_message_nonempty (m : string) :
  includes m "429" || includes m "quota" || includes m "RESOURCE_EXHAUSTED" = true →
  truthy m = true.
Proof.
  intros H. apply orb_true_iff in H as [H | H];
    [apply orb_true_iff in H as [H | H] |];
    by apply (includes_nonempty _ _ H).
Qed.

(** The [catch] block for an error that reports an exhausted quota. *)
Lemma executeGeneration_catch_quota (e : JsError) (w : World) :
  startsWith (trim (message e)) "{" = false →
  includes (message e) "429" || includes (message e) "quota"
  || includes (message e) "RESOURCE_EXHAUSTED" = true →
  includes (message e) "safety filters" = true
  ∨ includes (message e) "Video generation failed or returned no URI" = false →
  executeGeneration_catch e w
  = setIsGenerating false
      (setError
         (Some "Quota Limit Reached. The system is backing off to let your quota reset. Please wait...")
         (setCoolDown 60
            (setIsQuotaError true
               (if includes (message e) "safety filters"
                then setIsSafetyError true w else w)))).
Proof.
  intros Hs Hq Hv. unfold executeGeneration_catch.
  rewrite (quota_message_nonempty _ Hq), Hs.
  destruct (includes (message e) "safety filters").
  - cbv beta iota zeta. rewrite Hq. cbv beta iota zeta. closed_includes. reflexivity.
  - destruct Hv as [Hv | Hv]; [discriminate Hv |].
    rewrite Hv. cbv beta iota zeta. rewrite Hq. cbv beta iota zeta. closed_includes.
    reflexivity.
Qed.

(** The [catch] block for the failure that the generator reports when it
    has no video to return: the message is replaced before the other
    tests are made. *)
Lemma executeGeneration_catch_no_uri (e : JsError) (w : World) :
  startsWith (trim (message e)) "{" = false →
  includes (message e) "safety filters" = false →
  includes (message e) "Video generation failed or returned no URI" = true →
  executeGeneration_catch e w
  = setIsGenerating false
      (setError
         (Some "Video generation failed. The content may have been filtered or could not be processed. Please try a different prompt or image.")
         w).
Proof.
  intros Hs Hf Hv. unfold executeGeneration_catch.
  rewrite (includes_nonempty _ _ Hv eq_refl), Hs, Hf, Hv.
  cbv beta iota zeta. closed_includes. reflexivity.
Qed.

(** X7.  A generation needs something to start from: the prompt sent to
    the generator is missing exactly when the timeline is empty, no image
    is selected and the prompt is blank.  A start in that state makes no
    request and appends nothing; it reports the missing input and the
    generating flag is down again. *)
Theorem start_without_input (w : World) :
  (∀ isChain,
     enhance (hooks w) isChain = None
     ↔ timeline (hooks w) = [] ∧ opt_truthy (selectedImage (hooks w)) = false
       ∧ truthy (trim (prompt (hooks w))) = false)
  ∧ (coolDown (hooks w) ≤ 0 →
     isAutoGenerating (hooks w) = false →
     enhance (hooks w) false = None →
     ∃ w1,
       step StartGeneration w = Some w1
       ∧ error (hooks w1) = Some "Please provide an image or a prompt to start."
       ∧ isGenerating (hooks w1) = false
       ∧ calls w1 = calls w ∧ tasks w1 = tasks w
       ∧ timeline (hooks w1) = []).
Proof.
  split; [intros; apply enhance_none_iff |].
  intros Hc Ha He.
  pose proof (proj1 (enhance_none_iff _ _) He) as (Et & _ & _).
  unfold step. simpl. eexists. split; [reflexivity |]. rendered.
  unfold handleStartGeneration.
  replace (0 <? coolDown (hooks w)) with false by (symmetry; apply Z.ltb_ge; lia).
  rewrite Ha. cbn [negb]. unfold executeGeneration. rewrite He. cbn [fst].
  rewrite executeGeneration_catch_plain by (vm_compute; reflexivity).
  cbn. by rewrite Et.
Qed.

Lemma start_without_input_witness :
  ∃ w1,
    step StartGeneration (mounted initial_hooks 1000) = Some w1
    ∧ error (hooks w1) = Some "Please provide an image or a prompt to start."
    ∧ calls w1 = [].
Proof.
  destruct (start_without_input (mounted initial_hooks 1000)) as [_ H].
  destruct H as (w1 & E & He & _ & Hc & _);
    [vm_compute; discriminate | reflexivity | vm_compute; reflexivity |].
  exists w1. split; [exact E |]. split; [exact He | exact Hc].
Defined.

(** A prompt that holds nothing but white space is blank: spaces, a tab,
    a no-break space (U+00A0), an ideographic space (U+3000) and a line
    separator (U+2028), here in their UTF-8 form. *)
Example blank_prompt_unicode :
  let blank :=
    " " +:+ String "009" (String "194" (String "160"
      (String "227" (String "128" (String "128"
        (String "226" (String "128" (String "168" " ")))))))) in
  trim blank = ""
  ∧ enhance (upd_prompt blank initial_hooks) false = None
  ∧ ∃ w1,
      step StartGeneration (mounted (upd_prompt blank initial_hooks) 1000) = Some w1
      ∧ error (hooks w1) = Some "Please provide an image or a prompt to start."
      ∧ calls w1 = [].
Proof. vm_compute. repeat split. eexists. repeat split; reflexivity. Qed.

(** X8.  A generation fails with an error whose message is not JSON
    text.  When the message names an exhausted quota (it contains 429,
    quota or RESOURCE_EXHAUSTED) and either contains "safety filters" or
    does not contain "Video generation failed or returned no URI", a
    cooldown of 60 seconds starts, whatever else the message names: the
    message shown is the quota text, the API-key flag is not touched,
    nothing is appended, and until the cooldown has run down the start
    button is disabled and the start handler does nothing.  When the
    message contains "Video generation failed or returned no URI" and
    not "safety filters", it is replaced before the quota test: the text
    about filtered content is shown and no cooldown starts, even if the
    message names a quota. *)
Theorem quota_failure_starts_cooldown (w : World) (c : Hooks) (p : string)
    (k : kont) (rest : list task) (e : JsError) :
  tasks w = AwaitVideo c p k :: rest →
  startsWith (trim (message e)) "{" = false →
  (includes (message e) "429" || includes (message e) "quota"
   || includes (message e) "RESOURCE_EXHAUSTED" = true →
   includes (message e) "safety filters" = true
   ∨ includes (message e) "Video generation failed or returned no URI" = false →
   ∃ w1,
     step (Settle 0 (Rejected e)) w = Some w1
     ∧ coolDown (hooks w1) = 60
     ∧ isQuotaError (hooks w1) = true
     ∧ isApiKeyError (hooks w1) = isApiKeyError (hooks w)
     ∧ error (hooks w1)
       = Some "Quota Limit Reached. The system is backing off to let your quota reset. Please wait..."
     ∧ timeline (hooks w1) = timeline (hooks w)
     ∧ tasks w1 = rest ∧ calls w1 = calls w
     ∧ offered StartGeneration w1 = false
     ∧ step StartGeneration w1 = Some w1)
  ∧ (includes (message e) "safety filters" = false →
     includes (message e) "Video generation failed or returned no URI" = true →
     ∃ w1,
       step (Settle 0 (Rejected e)) w = Some w1
       ∧ coolDown (hooks w1) = coolDown (hooks w)
       ∧ isQuotaError (hooks w1) = isQuotaError (hooks w)
       ∧ error (hooks w1)
         = Some "Video generation failed. The content may have been filtered or could not be processed. Please try a different prompt or image."
       ∧ timeline (hooks w1) = timeline (hooks w)
       ∧ tasks w1 = rest ∧ calls w1 = calls w).
Proof.
  intros Ht H2. split.
  - intros H4 H3.
    rewrite (step_settle_head w _ _ _ Ht).
    cbv beta iota zeta delta [continue_task]. cbn [fmap option_fmap option_map].
    eexists. split; [reflexivity |]. rendered.
    rewrite (executeGeneration_catch_quota e _ H2 H4 H3).
    destruct k as [|count]; cbv beta iota zeta delta [resume_kont loop_after_generation];
      cbn [negb]; destruct (includes (message e) "safety filters");
      (repeat (split; [reflexivity |]));
      (split; [by unfold offered; rendered; rewrite andb_false_r |]);
      unfold step; cbn [handle]; rendered;
      unfold handleStartGeneration; rendered;
      cbn [fmap option_fmap option_map]; by rewrite commit_same.
  - intros Hf Hv.
    rewrite (step_settle_head w _ _ _ Ht).
    cbv beta iota zeta delta [continue_task]. cbn [fmap option_fmap option_map].
    eexists. split; [reflexivity |]. rendered.
    rewrite (executeGeneration_catch_no_uri e _ H2 Hf Hv).
    destruct k as [|count]; cbv beta iota zeta delta [resume_kont loop_after_generation];
      cbn [negb]; by repeat split.
Qed.

Lemma quota_failure_starts_cooldown_witness :
  ∃ w w1 w2,
    step StartGeneration (mounted (upd_prompt "a cat" initial_hooks) 1000) = Some w
    ∧ step (Settle 0 (Rejected (new_Error "429 Too Many Requests: check your API key")))
        w = Some w1
    ∧ coolDown (hooks w1) = 60
    ∧ isApiKeyError (hooks w1) = false
    ∧ step (Settle 0
              (Rejected
                 (new_Error "Video generation failed or returned no URI")))
        w = Some w2
    ∧ coolDown (hooks w2) = 0
    ∧ isQuotaError (hooks w2) = false.
Proof.
  assert (∃ w c p k,
            step StartGeneration (mounted (upd_prompt "a cat" initial_hooks) 1000)
            = Some w
            ∧ tasks w = AwaitVideo c p k :: []
            ∧ isApiKeyError (hooks w) = false
            ∧ coolDown (hooks w) = 0
            ∧ isQuotaError (hooks w) = false)
    as (w & c & p & k & E & Ht & Hk & Hcd & Hq)
    by (vm_compute; eexists _, _, _, _; repeat split; reflexivity).
  destruct (quota_failure_starts_cooldown w c p k []
              (new_Error "429 Too Many Requests: check your API key") Ht)
    as [H _]; [vm_compute; reflexivity |].
  destruct H as (w1 & E1 & Hc & _ & Ha & _);
    [vm_compute; reflexivity | right; vm_compute; reflexivity |].
  destruct (quota_failure_starts_cooldown w c p k []
              (new_Error "Video generation failed or returned no URI") Ht)
    as [_ H]; [vm_compute; reflexivity |].
  destruct H as (w2 & E2 & Hc2 & Hq2 & _);
    [vm_compute; reflexivity | vm_compute; reflexivity |].
  exists w, w1, w2. split; [exact E |]. split; [exact E1 |]. split; [exact Hc |].
  split; [by rewrite Ha |]. split; [exact E2 |].
  split; [by rewrite Hc2 | by rewrite Hq2].
Defined.

(** *** Further properties: the cooldown *)

Lemma coolDownTick_coolDown (w : World) :
  0 ≤ coolDown (hooks w) →
  coolDown (hooks (coolDownTick w)) = Z.max 0 (coolDown (hooks w) - 1).
Proof.
  intros H. unfold coolDownTick. destruct (0 <? coolDown (hooks w)) eqn:E.
  - reflexivity.
  - apply Z.ltb_ge in E. lia.
Qed.

(** X9.  The cooldown counts down by one per second and stops at zero:
    after [n] seconds a cooldown of [d] seconds stands at [max 0 (d - n)].
    The countdown changes nothing but the cooldown, and with the cooldown
    at zero nothing is running. *)
Theorem cooldown_countdown (w : World) (n : nat) :
  0 ≤ coolDown (hooks w) →
  let w' := Nat.iter n coolDownTick w in
  coolDown (hooks w') = Z.max 0 (coolDown (hooks w) - Z.of_nat n)
  ∧ w' = setCoolDown (coolDown (hooks w')) w
  ∧ (coolDown (hooks w) ≤ Z.of_nat n → coolDownTick w' = w')
  ∧ (Z.of_nat n < coolDown (hooks w) → offered StartGeneration w' = false).
Proof.
  intros H0. cbv zeta.
  assert (A : coolDown (hooks (Nat.iter n coolDownTick w))
              = Z.max 0 (coolDown (hooks w) - Z.of_nat n)
              ∧ Nat.iter n coolDownTick w
                = setCoolDown (coolDown (hooks (Nat.iter n coolDownTick w))) w).
  { induction n as [|n [IH1 IH2]].
    - simpl. split; [lia |]. by destruct w as [[]].
    - rewrite Nat.iter_succ. set (x := Nat.iter n coolDownTick w) in *. clearbody x.
      assert (Hx : 0 ≤ coolDown (hooks x)) by lia.
      split; [rewrite coolDownTick_coolDown by done; lia |].
      unfold coolDownTick. destruct (0 <? coolDown (hooks x)) eqn:E; [| exact IH2].
      rewrite IH2 at 2. rewrite IH2 at 3. reflexivity. }
  destruct A as [A1 A2]. split; [exact A1 |]. split; [exact A2 |].
  set (x := Nat.iter n coolDownTick w) in *. clearbody x. split.
  - intros Hn. unfold coolDownTick.
    replace (0 <? coolDown (hooks x)) with false;
      [done | symmetry; apply Z.ltb_ge; lia].
  - intros Hn. unfold offered.
    replace (0 <? coolDown (hooks x)) with true;
      [by rewrite andb_false_r | symmetry; apply Z.ltb_lt; lia].
Qed.

Lemma cooldown_countdown_witness :
  coolDown (hooks (Nat.iter 60 coolDownTick
                     (mounted (upd_coolDown 60 initial_hooks) 1000))) = 0.
Proof.
  destruct (cooldown_countdown (mounted (upd_coolDown 60 initial_hooks) 1000) 60)
    as [H _]; [vm_compute; discriminate |].
  rewrite H. reflexivity.
Defined.

(** *** Further properties: the voiceover *)

(** X10.  What the voiceover does with the script it asked for: a script
    that is blank once trimmed (white space only, Unicode white space
    included) ends the voiceover there, with no speech request, no error
    and the timeline as it was; any other script is sent to the speech
    generator with the voice chosen at the click.  Either way the script
    replaces the voice text.  (The script service of the repository
    returns trimmed text or a default sentence, never a blank script, so
    on the page the second case is the one that occurs.) *)
Theorem voiceover_script_result (w : World) (c : Hooks) (sceneIndex : nat)
    (rest : list task) (script : string) :
  tasks w = AwaitVoiceScript c sceneIndex :: rest →
  ∃ w1,
    step (Settle 0 (Text script)) w = Some w1
    ∧ voiceText (hooks w1) = script
    ∧ timeline (hooks w1) = timeline (hooks w)
    ∧ error (hooks w1) = error (hooks w)
    ∧ if truthy (trim script)
      then tasks w1 = AwaitVoiceSpeech c sceneIndex script :: rest
           ∧ calls w1 = CallSpeech script (voiceName c) :: calls w
           ∧ isGeneratingAudio (hooks w1) = isGeneratingAudio (hooks w)
      else tasks w1 = rest ∧ calls w1 = calls w
           ∧ isGeneratingAudio (hooks w1) = false.
Proof.
  intros Ht. rewrite (step_settle_head w _ _ _ Ht).
  cbv beta iota zeta delta [continue_task]. cbn [fmap option_fmap option_map].
  eexists. split; [reflexivity |]. rendered. unfold voiceover_speak.
  destruct (truthy (trim script)); cbn [negb]; by repeat split.
Qed.

Lemma voiceover_script_result_witness :
  ∃ w w1 c i,
    step (GenerateVoiceover true) scene_world = Some w
    ∧ step (Settle 0 (Text "A cat walks in.")) w = Some w1
    ∧ voiceText (hooks w1) = "A cat walks in."
    ∧ tasks w1 = [AwaitVoiceSpeech c i "A cat walks in."]
    ∧ calls w1 = CallSpeech "A cat walks in." (voiceName c) :: calls w.
Proof.
  assert (∃ w c i, step (GenerateVoiceover true) scene_world = Some w
                   ∧ tasks w = AwaitVoiceScript c i :: [])
    as (w & c & i & E & Ht)
    by (vm_compute; eexists _, _, _; split; reflexivity).
  destruct (voiceover_script_result w c i [] "A cat walks in." Ht)
    as (w1 & E1 & Hv & _ & _ & H).
  exists w, w1, c, i. split; [exact E |]. split; [exact E1 |].
  change (truthy (trim "A cat walks in.")) with true in H.
  destruct H as (H & Hc & _).
  split; [exact Hv |]. split; [exact H | exact Hc].
Defined.

(** A script of a no-break space (U+00A0) between spaces is blank. *)
Example blank_script_unicode :
  truthy (trim (" " +:+ String "194" (String "160" " "))) = false.
Proof. vm_compute. reflexivity. Qed.

(** X11.  The voiceover button is enabled by any voice text that is not
    empty, the handler wants one that is not blank: with a voice text of
    white space only (spaces, tabs, line ends, no-break and other Unicode
    spaces), a scene on the timeline, no voiceover running and no
    cooldown, the button can be clicked and the click does nothing at
    all. *)
Theorem blank_voice_text_click (w : World) :
  timeline (hooks w) ≠ [] →
  isGeneratingAudio (hooks w) = false →
  coolDown (hooks w) ≤ 0 →
  truthy (voiceText (hooks w)) = true →
  truthy (trim (voiceText (hooks w))) = false →
  offered (GenerateVoiceover false) w = true
  ∧ step (GenerateVoiceover false) w = Some w.
Proof.
  intros Ht Hg Hc Hv Hb. split.
  - unfold offered. rewrite bool_decide_eq_true_2 by done. rewrite Hg, Hv.
    replace (0 <? coolDown (hooks w)) with false by (symmetry; apply Z.ltb_ge; lia).
    reflexivity.
  - unfold step. cbn [handle fmap option_fmap option_map].
    unfold handleGenerateVoiceover. rewrite bool_decide_eq_false_2 by done.
    unfold voiceover_speak. rewrite Hb. cbn [negb].
    assert (E : setIsGeneratingAudio false (setIsGeneratingAudio true w) = w).
    { destruct w as [h ? ? ? ? ? ? ? ? ? ? ? ? ?]. destruct h. simpl in Hg. subst.
      reflexivity. }
    rewrite E. by rewrite commit_same.
Qed.

Lemma blank_voice_text_click_witness :
  let blank := " " +:+ String "194" (String "160" " ") in
  ∃ w,
    step (TypeVoiceText blank) scene_world = Some w
    ∧ offered (GenerateVoiceover false) w = true
    ∧ step (GenerateVoiceover false) w = Some w.
Proof.
  intros blank.
  assert (∃ w, step (TypeVoiceText blank) scene_world = Some w
               ∧ timeline (hooks w) ≠ []
               ∧ isGeneratingAudio (hooks w) = false
               ∧ coolDown (hooks w) ≤ 0
               ∧ truthy (voiceText (hooks w)) = true
               ∧ truthy (trim (voiceText (hooks w))) = false)
    as (w & E & H1 & H2 & H3 & H4 & H5)
    by (vm_compute; eexists; repeat split; (reflexivity || discriminate)).
  exists w. split; [exact E |].
  exact (blank_voice_text_click w H1 H2 H3 H4 H5).
Defined.

(** X12.  A voiceover whose script or speech request fails reports the
    failure with the error's message and takes the generating flag down;
    the timeline is not touched and no merge is started.  A message that
    names status 429 also starts a cooldown of 30 seconds, which disables
    the start button and the voiceover buttons. *)
Theorem voiceover_failure (w : World) (t : task) (rest : list task)
    (e : JsError) :
  tasks w = t :: rest →
  (∃ c i, t = AwaitVoiceScript c i) ∨ (∃ c i s, t = AwaitVoiceSpeech c i s) →
  ∃ w1,
    step (Settle 0 (Rejected e)) w = Some w1
    ∧ error (hooks w1) = Some ("Audio generation failed: " +:+ message e)
    ∧ isGeneratingAudio (hooks w1) = false
    ∧ timeline (hooks w1) = timeline (hooks w)
    ∧ tasks w1 = rest ∧ calls w1 = calls w
    ∧ if includes (message e) "429"
      then coolDown (hooks w1) = 30 ∧ isQuotaError (hooks w1) = true
           ∧ offered StartGeneration w1 = false
           ∧ ∀ b, offered (GenerateVoiceover b) w1 = false
      else coolDown (hooks w1) = coolDown (hooks w)
           ∧ isQuotaError (hooks w1) = isQuotaError (hooks w).
Proof.
  intros Ht Hk. rewrite (step_settle_head w _ _ _ Ht).
  assert (E : continue_task t (Rejected e) (upd_tasks rest w)
              = Some (voiceover_catch e (upd_tasks rest w))).
  { by destruct Hk as [(c & i & ->) | (c & i & s & ->)]. }
  rewrite E. cbn [fmap option_fmap option_map].
  eexists. split; [reflexivity |]. rendered. unfold voiceover_catch.
  destruct (includes (message e) "429").
  - repeat (split; [reflexivity |]). split.
    + unfold offered. rendered. cbn. by rewrite andb_false_r.
    + intros b. unfold offered. rendered. cbn.
      by rewrite andb_false_r.
  - by repeat split.
Qed.

Lemma voiceover_failure_witness :
  ∃ w w1,
    step (GenerateVoiceover true) scene_world = Some w
    ∧ step (Settle 0 (Rejected (new_Error "429 Too Many Requests"))) w = Some w1
    ∧ coolDown (hooks w1) = 30.
Proof.
  assert (∃ w c i, step (GenerateVoiceover true) scene_world = Some w
                   ∧ tasks w = AwaitVoiceScript c i :: [])
    as (w & c & i & E & Ht)
    by (vm_compute; eexists _, _, _; split; reflexivity).
  destruct (voiceover_failure w _ [] (new_Error "429 Too Many Requests") Ht)
    as (w1 & E1 & _ & _ & _ & _ & _ & H); [left; by exists c, i |].
  exists w, w1. split; [exact E |]. split; [exact E1 |].
  change (includes (message (new_Error "429 Too Many Requests")) "429") with true in H.
  by destruct H as [H _].
Defined.

(** *** Further properties: the duration control during a generation *)

Lemma duration_change_step (w : World) (value : string) :
  ∃ w1,
    step (DurationChange value) w = Some w1
    ∧ tasks w1 = tasks w
    ∧ sceneDuration (hooks w1) = parseInt value
    ∧ length (timeline (hooks w1)) = length (timeline (hooks w)).
Proof.
  unfold step. cbn [handle fmap option_fmap option_map].
  eexists. split; [reflexivity |]. rendered. unfold handleDurationChange.
  case_bool_decide; cbn; repeat split; try done.
  by rewrite patch_at_length.
Qed.

(** X13.  A scene takes the default duration that stood when its
    generation was started.  Moving the duration control while the
    generator is working changes the default and the active scene, not the
    scene that is on its way. *)
Theorem pending_scene_keeps_start_duration (w : World) (p u : string)
    (a : Asset) (value : string) :
  coolDown (hooks w) ≤ 0 →
  enhance (hooks w) (isAutoGenerating (hooks w)) = Some p →
  (isAutoGenerating (hooks w) = true → lt_num 0 (autoGenCount (hooks w)) = true) →
  ∃ w3 s,
    run [StartGeneration; DurationChange value; Settle 0 (Video u a)] w = Some w3
    ∧ last (timeline (hooks w3)) = Some s
    ∧ Scene.url s = u
    ∧ Scene.duration s = sceneDuration (hooks w)
    ∧ sceneDuration (hooks w3) = parseInt value
    ∧ length (timeline (hooks w3)) = S (length (timeline (hooks w))).
Proof.
  intros Hc He Ha.
  destruct (start_step w p Hc He Ha)
    as (w1 & E1 & T1 & _ & L1 & _).
  destruct (duration_change_step w1 value) as (w2 & E2 & T2 & D2 & L2).
  rewrite T1 in T2.
  destruct (generation_success_step w2 _ p u a _ _ T2) as (w3 & E3 & L3 & _ & D3).
  exists w3, (newScene_of (hooks w) p u a w2).
  split; [by rewrite (run_cons _ _ _ _ E1), (run_cons _ _ _ _ E2), run_one |].
  rewrite L3, last_snoc, length_app, L2, L1, D3, D2. cbn. repeat split; lia.
Qed.

Lemma pending_scene_keeps_start_duration_witness :
  ∃ w3 s,
    run [StartGeneration; DurationChange "3"; Settle 0 (Video "blob:v2" "asset2")]
      (mounted (upd_prompt "a cat" initial_hooks) 1000) = Some w3
    ∧ last (timeline (hooks w3)) = Some s
    ∧ Scene.duration s = Num 8
    ∧ sceneDuration (hooks w3) = Num 3.
Proof.
  destruct (pending_scene_keeps_start_duration
              (mounted (upd_prompt "a cat" initial_hooks) 1000)
              "a cat" "blob:v2" "asset2" "3")
    as (w3 & s & E & L & _ & D & D' & _);
    [vm_compute; discriminate | vm_compute; reflexivity | discriminate |].
  exists w3, s. split; [exact E |]. split; [exact L |]. split; [exact D | exact D'].
Defined.

(** *** Further properties: a transition that outlives the movie *)

Lemma commit_videoPlayerB_idle (before after : World) :
  isPlayingAll (hooks after) = false →
  videoPlayerB (commit before after) = videoPlayerB after.
Proof.
  intros H. destruct (commit_cases before after) as [-> | ->]; [done |].
  unfold playback_effect, cleanup. cbn. rewrite H.
  repeat case_match; reflexivity.
Qed.

(** X14.  Leaving movie mode does not cancel the timeout that ends a
    fade or slide.  When a scene is selected while the 800 ms window is
    open, the timeout still runs: it moves the active index from the
    selected scene to the scene the movie was about to show and makes
    player B the active one.  Outside movie mode only player A is loaded,
    so the element that is now shown is one the selection never touched. *)
Theorem stale_transition_timeout (w : World) (tm : timer) (n idx : nat) :
  isPlayingAll (hooks w) = true →
  timers w = [tm] →
  action tm = TransitionTimer n →
  now w ≤ due tm →
  ∃ w1 w3,
    step (SelectScene idx) w = Some w1
    ∧ isPlayingAll (hooks w1) = false
    ∧ activeSceneIndex (hooks w1) = idx
    ∧ timers w1 = [tm]
    ∧ run [Elapse (due tm - now w); Fire (timer_id tm)] w1 = Some w3
    ∧ activeSceneIndex (hooks w3) = n
    ∧ isPlayingAll (hooks w3) = false
    ∧ activePlayer (hooks w3) = PlayerB
    ∧ videoPlayerB w3 = videoPlayerB w
    ∧ getPlayerClasses (hooks w3) PlayerB = base_classes +:+ " opacity-100 z-10"
    ∧ getPlayerClasses (hooks w3) PlayerA = base_classes +:+ " opacity-0 z-0".
Proof.
  intros Hp Ht Ha Hd.
  destruct (select_scene_stops w idx) as (w1 & E1 & P1 & T1).
  specialize (T1 Hp).
  assert (W1 : w1 = commit w (handleSelectScene idx w)).
  { unfold step in E1. cbn [handle fmap option_fmap option_map] in E1. congruence. }
  assert (H1 : hooks w1 = hooks (handleSelectScene idx w)) by (rewrite W1; by rendered).
  assert (Tm1 : timers w1 = [tm]) by (rewrite W1; rendered; exact Ht).
  assert (N1 : now w1 = now w) by (rewrite W1; by rendered).
  assert (B1 : videoPlayerB w1 = videoPlayerB w).
  { rewrite W1. by rewrite commit_videoPlayerB_idle. }
  clear W1. exists w1.
  assert (E2 : step (Elapse (due tm - now w)) w1 = Some (upd_now (due tm) w1)).
  { rewrite step_elapse.
    - rewrite N1. do 2 f_equal. lia.
    - lia.
    - unfold none_due_before. rewrite Tm1, T1, N1. cbn.
      rewrite !andb_true_r. apply Z.leb_le. lia. }
  set (w2 := upd_now (due tm) w1) in *.
  assert (E3 : step (Fire (timer_id tm)) w2
               = Some (commit w2 (transitionDone n (upd_timers [] w2)))).
  { unfold step. cbn [handle]. replace (timers w2) with [tm] by (symmetry; exact Tm1).
    cbn [take_timer]. rewrite decide_True by done.
    replace (due tm <=? now w2) with true by (symmetry; apply Z.leb_le; cbn; lia).
    by rewrite Ha. }
  eexists. split; [exact E1 |]. split; [exact P1 |].
  split; [by rewrite H1 |]. split; [exact Tm1 |].
  split; [by rewrite (run_cons _ _ _ _ E2), run_one |].
  rendered.
  set (w3 := transitionDone n (upd_timers [] w2)).
  assert (A1 : activePlayer (hooks w1) = PlayerA) by (by rewrite H1).
  assert (I3 : activeSceneIndex (hooks w3) = n) by reflexivity.
  assert (P3 : isPlayingAll (hooks w3) = false) by exact P1.
  assert (A3 : activePlayer (hooks w3) = PlayerB).
  { change (activePlayer (hooks w3)) with (flip (activePlayer (hooks w1))).
    by rewrite A1. }
  assert (T3 : isTransitioning (hooks w3) = false) by reflexivity.
  assert (B3 : videoPlayerB w3 = videoPlayerB w1) by reflexivity.
  clearbody w3.
  rewrite commit_videoPlayerB_idle by exact P3.
  unfold getPlayerClasses. rewrite T3, A3, B3. cbn [negb].
  rewrite bool_decide_eq_true_2 by done. rewrite bool_decide_eq_false_2 by done.
  by repeat split.
Qed.

Lemma stale_transition_timeout_witness :
  ∃ w3,
    run [SelectScene 0; Elapse 800; Fire 0] fading_world = Some w3
    ∧ activeSceneIndex (hooks w3) = 1%nat
    ∧ activePlayer (hooks w3) = PlayerB.
Proof.
  assert (∃ tm, timers fading_world = [tm] ∧ action tm = TransitionTimer 1
                ∧ now fading_world ≤ due tm
                ∧ due tm - now fading_world = 800 ∧ timer_id tm = 0%nat)
    as (tm & Ht & Ha & Hd & Hdt & Hid)
    by (vm_compute; eexists; repeat split; (reflexivity || discriminate)).
  assert (Hp : isPlayingAll (hooks fading_world) = true) by (vm_compute; reflexivity).
  destruct (stale_transition_timeout fading_world tm 1 0 Hp Ht Ha Hd)
    as (w1 & w3 & E1 & _ & _ & _ & E3 & Hn & _ & Hb & _).
  exists w3. rewrite Hdt, Hid in E3.
  split; [by rewrite (run_cons _ _ _ _ E1) |]. split; [exact Hn | exact Hb].
Defined.

(** *** Further properties: scenes are only ever appended *)

Lemma identity_patch_at (index : nat) (f : VideoScene → VideoScene)
    (l : list VideoScene) :
  (∀ s, scene_identity (f s) = scene_identity s) →
  scene_identity <$> patch_at index f l = scene_identity <$> l.
Proof.
  intros Hf. apply list_eq. intros i.
  rewrite !list_lookup_fmap, patch_at_lookup.
  destruct (l !! i) as [s|]; [| done]. cbn. case_decide; by rewrite ?Hf.
Qed.

Lemma identity_patch_id (sceneId : string) (f : VideoScene → VideoScene)
    (l : list VideoScene) :
  (∀ s, scene_identity (f s) = scene_identity s) →
  scene_identity <$> patch_id sceneId f l = scene_identity <$> l.
Proof.
  intros Hf. apply list_eq. intros i.
  rewrite !list_lookup_fmap, patch_id_lookup.
  destruct (l !! i) as [s|]; [| done]. cbn. case_decide; by rewrite ?Hf.
Qed.

Lemma identities_patch_at (index : nat) (f : VideoScene → VideoScene) (w : World) :
  (∀ s, scene_identity (f s) = scene_identity s) →
  identities (setTimeline (patch_at index f) w) = identities w.
Proof. intros Hf. unfold identities. cbn. by apply identity_patch_at. Qed.

Lemma identities_patch_id (sceneId : string) (f : VideoScene → VideoScene)
    (w : World) :
  (∀ s, scene_identity (f s) = scene_identity s) →
  identities (setTimeline (patch_id sceneId f) w) = identities w.
Proof. intros Hf. unfold identities. cbn. by apply identity_patch_id. Qed.

Lemma identities_catch (e : JsError) (w : World) :
  identities (executeGeneration_catch e w) = identities w.
Proof.
  unfold identities.
  destruct (executeGeneration_catch_frame e w) as ((-> & _) & _). done.
Qed.

Lemma identities_executeGeneration (c : Hooks) (isChain : bool) (k : kont)
    (w : World) :
  identities (executeGeneration c isChain k w).1 = identities w.
Proof.
  unfold identities. destruct (enhance c isChain) as [p|] eqn:E.
  - destruct (executeGeneration_suspends c isChain k w p E) as (_ & (-> & _) & _).
    done.
  - destruct (executeGeneration_rejects c isChain k w E) as (_ & (-> & _) & _).
    done.
Qed.

Lemma identities_loop_head (c : Hooks) (keepGoing : bool) (count : Z) (w : World) :
  identities (loop_head c keepGoing count w) = identities w.
Proof.
  unfold loop_head. case_match; [| done].
  pose proof (identities_executeGeneration c true (K_loop count) w) as Hx.
  destruct (executeGeneration c true (K_loop count) w) as [w' b]. cbn in Hx.
  by destruct b.
Qed.

Lemma identities_loop_tail (c : Hooks) (count : Z) (w : World) :
  identities (loop_tail c count w) = identities w.
Proof. unfold loop_tail. apply identities_loop_head. Qed.

Lemma identities_resume_kont (k : kont) (c : Hooks) (success : bool) (w : World) :
  identities (resume_kont k c success w) = identities w.
Proof.
  destruct k as [|count]; [done |].
  cbv beta iota zeta delta [resume_kont loop_after_generation].
  destruct success; cbn [negb]; [| done].
  case_match; [done | apply identities_loop_tail].
Qed.

Lemma identities_voiceover_catch (e : JsError) (w : World) :
  identities (voiceover_catch e w) = identities w.
Proof. unfold voiceover_catch. by case_match. Qed.

Lemma identities_voiceover_speak (c : Hooks) (i : nat) (t : string) (w : World) :
  identities (voiceover_speak c i t w) = identities w.
Proof. unfold voiceover_speak. by case_match. Qed.

Lemma identities_handleSceneEnd (c : Hooks) (w : World) :
  identities (handleSceneEnd c w) = identities w.
Proof.
  unfold handleSceneEnd, on_player. repeat case_match; reflexivity.
Qed.

Lemma identity_with (s : VideoScene) :
  (∀ d, scene_identity (Scene.with_duration d s) = scene_identity s)
  ∧ (∀ t, scene_identity (Scene.with_transition t s) = scene_identity s)
  ∧ (∀ a t, scene_identity (Scene.with_audio a t s) = scene_identity s)
  ∧ (∀ m, scene_identity (Scene.with_merged m s) = scene_identity s)
  ∧ scene_identity (Scene.with_merge_failed s) = scene_identity s.
Proof. by destruct s. Qed.

Lemma identities_continue_task (t : task) (o : outcome) (w w' : World) :
  continue_task t o w = Some w' →
  ∃ added, identities w' = (identities w ++ added)%list ∧ (length added ≤ 1)%nat.
Proof.
  assert (Same : ∀ x, identities x = identities w →
                 ∃ added, identities x = (identities w ++ added)%list
                          ∧ (length added ≤ 1)%nat).
  { intros x ->. exists []. split; [by rewrite app_nil_r | cbn; lia]. }
  intros H.
  destruct t as [c p k | c ns | c ns scr | ns v a | c i | c i txt | i v a],
           o as [u asset | txt' | err];
    cbv beta iota zeta delta [continue_task] in H; try discriminate;
    try (injection H as <-).
  - (* a video arrived *)
    rewrite identities_resume_kont.
    exists [scene_identity (newScene_of c p u asset w)]. split; [| cbn; lia].
    unfold identities.
    destruct (executeGeneration_resume_hooks c p u asset w) as (-> & _).
    by rewrite fmap_app.
  - apply Same. by rewrite identities_resume_kont, identities_catch.
  - by apply Same.
  - apply Same. apply identities_patch_id. intros s. apply identity_with.
  - apply Same.
    change (identities (setTimeline (patch_id (Scene.id ns) (Scene.with_audio txt' scr)) w)
            = identities w).
    apply identities_patch_id. intros s. apply identity_with.
  - apply Same. apply identities_patch_id. intros s. apply identity_with.
  - apply Same.
    change (identities (setTimeline (patch_id (Scene.id ns) (Scene.with_merged txt')) w)
            = identities w).
    apply identities_patch_id. intros s. apply identity_with.
  - apply Same. apply identities_patch_id. intros s. apply identity_with.
  - apply Same. by rewrite identities_voiceover_speak.
  - apply Same. by rewrite identities_voiceover_catch.
  - apply Same.
    assert (E : identities
                  (setTimeline (patch_at i (Scene.with_audio txt' txt)) w)
                = identities w)
      by (apply identities_patch_at; intros s; apply identity_with).
    destruct (timeline c !! i); injection H as <-; [exact E |].
    change (identities
              (setTimeline (patch_at i Scene.with_merge_failed)
                 (setTimeline (patch_at i (Scene.with_audio txt' txt)) w))
            = identities w).
    rewrite identities_patch_at; [exact E | intros s; apply identity_with].
  - apply Same. by rewrite identities_voiceover_catch.
  - apply Same.
    change (identities (setTimeline (patch_at i (Scene.with_merged txt')) w)
            = identities w).
    apply identities_patch_at. intros s. apply identity_with.
  - apply Same.
    change (identities (setTimeline (patch_at i Scene.with_merge_failed) w)
            = identities w).
    apply identities_patch_at. intros s. apply identity_with.
Qed.

(** X15.  Scenes are only ever appended.  Whatever happens to the
    component other than a confirmed clear, the scenes it had keep their
    place, id, video, asset and prompt, and at most one scene is added at
    the end. *)
Theorem timeline_only_grows (e : event) (w w' : World) :
  step e w = Some w' →
  e ≠ ClearTimeline true →
  ∃ added,
    identities w' = (identities w ++ added)%list ∧ (length added ≤ 1)%nat.
Proof.
  intros H Hc. unfold step in H.
  destruct (handle e w) as [x|] eqn:E; [| discriminate].
  cbn in H. injection H as <-.
  assert (Hx : ∃ added, identities x = (identities w ++ added)%list
                        ∧ (length added ≤ 1)%nat);
    [| unfold identities in *; by rendered].
  assert (Same : identities x = identities w →
                 ∃ added, identities x = (identities w ++ added)%list
                          ∧ (length added ≤ 1)%nat).
  { intros ->. exists []. split; [by rewrite app_nil_r | cbn; lia]. }
  destruct e; cbn [handle] in E.
  - injection E as <-. by apply Same.
  - injection E as <-. by apply Same.
  - injection E as <-. by apply Same.
  - injection E as <-. by apply Same.
  - injection E as <-. apply Same. unfold handleDurationChange.
    case_bool_decide; [| done].
    change (identities
              (setTimeline
                 (patch_at (activeSceneIndex (hooks w))
                    (Scene.with_duration (parseInt value)))
                 (setSceneDuration (parseInt value) w))
            = identities w).
    rewrite identities_patch_at; [done | intros s; apply identity_with].
  - injection E as <-. destruct confirmed; [done | by apply Same].
  - injection E as <-. by apply Same.
  - injection E as <-. apply Same. unfold toggleTransition.
    apply identities_patch_at. intros s. apply identity_with.
  - injection E as <-. apply Same. unfold handleStartGeneration.
    case_match; [done |]. case_match.
    + by rewrite identities_executeGeneration.
    + by rewrite identities_loop_head.
  - injection E as <-. by apply Same.
  - injection E as <-. apply Same. unfold handleGenerateVoiceover.
    case_bool_decide; [done |]. destruct useAutoScript.
    + case_match; [done |]. by rewrite identities_voiceover_catch.
    + by rewrite identities_voiceover_speak.
  - injection E as <-. apply Same. unfold handlePlayAll. by case_bool_decide.
  - injection E as <-. by apply Same.
  - injection E as <-. apply Same. unfold onEnded.
    case_match; [| by destruct p].
    rewrite identities_handleSceneEnd. by destruct p.
  - destruct (tasks w !! i) as [t|]; [| discriminate].
    apply identities_continue_task in E. exact E.
  - destruct (take_timer tid (timers w)) as [[t rest]|]; [| discriminate].
    case_match; [| discriminate]. injection E as <-. apply Same.
    unfold run_timer. destruct (action t); [done |].
    by rewrite identities_loop_tail.
  - destruct (effectTimer w) as [et|]; [| discriminate].
    case_match; [| discriminate]. injection E as <-. apply Same.
    by rewrite identities_handleSceneEnd.
  - case_match; [| discriminate]. injection E as <-. apply Same.
    unfold coolDownTick. by case_match.
  - case_match; [| discriminate]. injection E as <-. by apply Same.
Qed.

Lemma timeline_only_grows_witness :
  ∃ w' added,
    step (Settle 0 (Text "blob:m2")) regenerating_world = Some w'
    ∧ identities w' = (identities regenerating_world ++ added)%list.
Proof.
  assert (∃ w', step (Settle 0 (Text "blob:m2")) regenerating_world = Some w')
    as [w' E] by (vm_compute; eexists; reflexivity).
  destruct (timeline_only_grows _ _ _ E) as (added & H & _); [discriminate |].
  exists w', added. split; [exact E | exact H].
Defined.

(** *** Further properties: saved projects *)

Section saved_projects.
Context {Item : Type}.
Implicit Types (p q : Project Item) (projects : list (Project Item)).

(** [Array.prototype.find] returns the first element that passes. *)
Lemma find_first (f : Project Item → bool) projects (i : nat) p :
  projects !! i = Some p → f p = true →
  (∀ j q, (j < i)%nat → projects !! j = Some q → f q = false) →
  List.find f projects = Some p.
Proof.
  revert i. induction projects as [|x l IH]; intros i Hi Hf Hfirst; [done |].
  destruct i as [|i]; cbn in Hi.
  - injection Hi as ->. cbn. by rewrite Hf.
  - cbn. rewrite (Hfirst 0%nat x) by (lia || done).
    apply (IH i Hi Hf). intros j q Hj Hq. apply (Hfirst (S j) q); [lia | done].
Qed.

Lemma find_none (f : Project Item → bool) projects :
  (∀ p, p ∈ projects → f p = false) → List.find f projects = None.
Proof.
  induction projects as [|x l IH]; intros H; [done |].
  cbn. rewrite (H x) by left. apply IH. intros p Hp. apply H. by right.
Qed.

Lemma find_some_elem (f : Project Item → bool) projects p :
  List.find f projects = Some p → p ∈ projects ∧ f p = true.
Proof.
  induction projects as [|x l IH]; [done |]. cbn.
  destruct (f x) eqn:E.
  - intros [= ->]. split; [left | done].
  - intros H. destruct (IH H). split; [by right | done].
Qed.

(** The project that [saveToProject] looks up. *)
Lemma saveToProject_found (projectName : option string) projects :
  (if opt_truthy projectName
   then List.find (λ p, bool_decide (project_name p = default "" projectName))
          projects
   else head projects)
  = List.find (project_wanted projectName) projects.
Proof.
  unfold project_wanted. destruct (opt_truthy projectName); [done |].
  by destruct projects.
Qed.

(** [saveToProject] when it finds its project. *)
Lemma saveToProject_existing (item : Item) (projectName : option string)
    (t : Z) (today : string) projects p :
  List.find (project_wanted projectName) projects = Some p →
  saveToProject item projectName t today projects
  = ((λ q, if decide (project_id q = project_id p)
           then unshift_item item p else q) <$> projects,
     "Saved to project: " +:+ project_name p).
Proof.
  intros H. unfold saveToProject. by rewrite saveToProject_found, H.
Qed.

(** [saveToProject] when it finds none. *)
Lemma saveToProject_fresh (item : Item) (projectName : option string)
    (t : Z) (today : string) projects :
  List.find (project_wanted projectName) projects = None →
  saveToProject item projectName t today projects
  = ((λ q, if decide (project_id q = toString t)
           then unshift_item item (new_project projectName t today) else q)
       <$> (projects ++ [new_project projectName t today])%list,
     "Saved to project: " +:+ str_or projectName "General").
Proof.
  intros H. unfold saveToProject. by rewrite saveToProject_found, H.
Qed.

(** X16.  Where [saveToProject] puts the item.  The project looked for
    is the first one with the given name, or the first project when no
    name is given.  When there is one, no project is added: the item
    becomes the first item of that project, the stored list is the old
    one with every project that has the id of that project replaced by
    it (so, when ids are distinct, every other project is as it was), and
    the alert names it.  Only when no project is the one looked for is a
    project added, at the end: its id is the clock reading, its name the
    given name or General, its only item the new one; the projects that
    were stored are as they were unless one has that id. *)
Theorem saveToProject_adds_item (item : Item) (projectName : option string)
    (t : Z) (today : string) projects :
  let saved := (saveToProject item projectName t today projects).1 in
  let alert := (saveToProject item projectName t today projects).2 in
  (∀ i p,
     projects !! i = Some p →
     project_wanted projectName p = true →
     (∀ j q, (j < i)%nat → projects !! j = Some q →
             project_wanted projectName q = false) →
     alert = "Saved to project: " +:+ project_name p
     ∧ length saved = length projects
     ∧ saved !! i = Some (unshift_item item p)
     ∧ (∀ j q, projects !! j = Some q →
          saved !! j
          = Some (if decide (project_id q = project_id p)
                  then unshift_item item p else q))
     ∧ (NoDup (project_id <$> projects) →
        ∀ j, j ≠ i → saved !! j = projects !! j)
     ∧ (opt_truthy projectName = true →
        project_name p = default "" projectName)
     ∧ (opt_truthy projectName = false → i = 0%nat))
  ∧ ((∀ p, p ∈ projects → project_wanted projectName p = false) →
     alert = "Saved to project: " +:+ str_or projectName "General"
     ∧ length saved = S (length projects)
     ∧ saved !! length projects
       = Some (unshift_item item (new_project projectName t today))
     ∧ (∀ j q, projects !! j = Some q →
          saved !! j
          = Some (if decide (project_id q = toString t)
                  then unshift_item item (new_project projectName t today)
                  else q))
     ∧ (toString t ∉ project_id <$> projects →
        ∀ j, (j < length projects)%nat → saved !! j = projects !! j)
     ∧ (opt_truthy projectName = false → projects = []))
  ∧ (length saved = S (length projects) →
     ∀ p, p ∈ projects → project_wanted projectName p = false).
Proof.
  intros saved alert. split; [| split].
  - intros i p Hi Hw Hfirst.
    pose proof (find_first _ _ _ _ Hi Hw Hfirst) as Hfind.
    unfold saved, alert. rewrite (saveToProject_existing _ _ _ _ _ _ Hfind).
    cbn [fst snd].
    assert (Hall : ∀ j q, projects !! j = Some q →
              ((λ q0, if decide (project_id q0 = project_id p)
                      then unshift_item item p else q0) <$> projects) !! j
              = Some (if decide (project_id q = project_id p)
                      then unshift_item item p else q)).
    { intros j q Hq. by rewrite list_lookup_fmap, Hq. }
    split; [done |]. split; [by rewrite length_fmap |].
    split; [by rewrite (Hall i p Hi), decide_True |].
    split; [exact Hall |].
    split.
    { intros Hn j Hj. destruct (projects !! j) as [q|] eqn:Hq.
      - rewrite (Hall j q Hq). rewrite decide_False; [done |].
        intros E. apply Hj. apply (NoDup_lookup _ _ _ (project_id q) Hn).
        + by rewrite list_lookup_fmap, Hq.
        + by rewrite list_lookup_fmap, Hi, E.
      - by rewrite list_lookup_fmap, Hq. }
    split.
    + intros Hp. unfold project_wanted in Hw. rewrite Hp in Hw.
      by apply bool_decide_eq_true in Hw.
    + intros Hp. destruct i as [|i]; [done |].
      destruct (lookup_lt_is_Some_2 projects 0%nat) as [q Hq].
      { apply lookup_lt_Some in Hi. lia. }
      specialize (Hfirst 0%nat q ltac:(lia) Hq).
      unfold project_wanted in Hfirst. by rewrite Hp in Hfirst.
  - intros Hnone. pose proof (find_none _ _ Hnone) as Hfind.
    unfold saved, alert. rewrite (saveToProject_fresh _ _ _ _ _ Hfind).
    cbn [fst snd].
    split; [done |].
    split; [rewrite length_fmap, length_app; cbn; lia |].
    split.
    { rewrite list_lookup_fmap, lookup_app_r, Nat.sub_diag by lia. cbn.
      by rewrite decide_True. }
    assert (Hall : ∀ j q, projects !! j = Some q →
              ((λ q0, if decide (project_id q0 = toString t)
                      then unshift_item item (new_project projectName t today)
                      else q0)
                 <$> (projects ++ [new_project projectName t today])%list) !! j
              = Some (if decide (project_id q = toString t)
                      then unshift_item item (new_project projectName t today)
                      else q)).
    { intros j q Hq. rewrite list_lookup_fmap, lookup_app_l, Hq; [done |].
      by apply lookup_lt_Some in Hq. }
    split; [exact Hall |].
    split.
    { intros Hid j Hj. destruct (lookup_lt_is_Some_2 projects j Hj) as [q Hq].
      rewrite (Hall j q Hq), Hq. rewrite decide_False; [done |].
      intros E. apply Hid. rewrite <- E. apply list_elem_of_fmap.
      exists q. split; [done |]. by eapply list_elem_of_lookup_2. }
    intros Hp. destruct projects as [|q l]; [done |].
    specialize (Hnone q ltac:(left)). unfold project_wanted in Hnone.
    by rewrite Hp in Hnone.
  - intros Hlen p Hp.
    destruct (List.find (project_wanted projectName) projects) as [q|] eqn:Hfind.
    + unfold saved in Hlen. rewrite (saveToProject_existing _ _ _ _ _ _ Hfind) in Hlen.
      cbn [fst] in Hlen. rewrite length_fmap in Hlen. lia.
    + destruct (project_wanted projectName p) eqn:Hw; [| done].
      apply list_elem_of_lookup in Hp as [i Hi].
      assert (Hex : ∃ x, List.find (project_wanted projectName) projects = Some x).
      { clear Hfind Hlen. revert i Hi.
        induction projects as [|x l IH]; intros i Hi; [done |]. cbn.
        destruct (project_wanted projectName x) eqn:Hx; [by eexists |].
        destruct i as [|i]; cbn in Hi; [congruence |]. by apply (IH i). }
      destruct Hex as [x Hx]. congruence.
Qed.

End saved_projects.

Lemma saveToProject_adds_item_witness :
  let trip := {| project_id := "1"; project_name := "Trip";
                 project_description := ""; project_createdAt := "1/1/2026";
                 project_items := ["a"] |} in
  let pets := {| project_id := "2"; project_name := "Pets";
                 project_description := ""; project_createdAt := "1/2/2026";
                 project_items := ["b"] |} in
  let pets' := {| project_id := "3"; project_name := "Pets";
                  project_description := ""; project_createdAt := "1/3/2026";
                  project_items := [] |} in
  (saveToProject "story" (Some "Pets") 1700000000000 "1/4/2026"
     [trip; pets; pets']).1 !! 1%nat
  = Some (unshift_item "story" pets)
  ∧ (saveToProject "story" (Some "Pets") 1700000000000 "1/4/2026"
       [trip; pets; pets']).2
    = "Saved to project: Pets"
  ∧ length (saveToProject "story" (Some "Pets") 1700000000000 "1/4/2026"
              [trip; pets; pets']).1 = 3%nat
  ∧ ∀ j, j ≠ 1%nat →
      (saveToProject "story" (Some "Pets") 1700000000000 "1/4/2026"
         [trip; pets; pets']).1 !! j
      = [trip; pets; pets'] !! j.
Proof.
  intros trip pets pets'.
  destruct (saveToProject_adds_item "story" (Some "Pets") 1700000000000
              "1/4/2026" [trip; pets; pets']) as (H & _ & _).
  destruct (H 1%nat pets) as (Ha & Hl & Hi & _ & Hn & _).
  - reflexivity.
  - reflexivity.
  - intros j q Hj Hq. destruct j as [|j]; [| lia].
    cbn in Hq. injection Hq as <-. reflexivity.
  - split; [exact Hi |]. split; [exact Ha |]. split; [exact Hl |].
    apply Hn. cbn. repeat constructor; set_solver.
Defined.

(** X17.  Saving the story.  With an empty timeline nothing is written.
    Otherwise the whole timeline goes into one item.  No project name is
    passed, so with projects in storage the item always goes into the
    first of them: it becomes the first item of the first stored project,
    no project is added, and the stored list is the old one with every
    project that has the id of the first replaced by it.  Only when
    storage holds no project is a project General made, and it holds the
    item alone. *)
Theorem handleSaveProject_target (c : Hooks) (characterLock : bool) (t : Z)
    (today : string) (t' : Z) (today' : string)
    (projects : list (Project SavedItem)) :
  (timeline c = [] →
   handleSaveProject c characterLock t today t' today' projects = None)
  ∧ (timeline c ≠ [] →
     ∃ saved alert item,
       handleSaveProject c characterLock t today t' today' projects
       = Some (saved, alert)
       ∧ item_id item = toString t
       ∧ item_timeline item = timeline c
       ∧ match head projects with
         | Some p0 =>
             alert = "Saved to project: " +:+ project_name p0
             ∧ length saved = length projects
             ∧ saved !! 0%nat = Some (unshift_item item p0)
             ∧ (∀ j q, projects !! j = Some q →
                  saved !! j
                  = Some (if decide (project_id q = project_id p0)
                          then unshift_item item p0 else q))
             ∧ (NoDup (project_id <$> projects) →
                ∀ j, j ≠ 0%nat → saved !! j = projects !! j)
         | None =>
             alert = "Saved to project: General"
             ∧ saved = [unshift_item item (new_project None t' today')]
         end).
Proof.
  unfold handleSaveProject. split; intros Ht.
  - by rewrite bool_decide_eq_true_2.
  - rewrite bool_decide_eq_false_2 by done.
    set (item := {| item_id := toString t; item_timeline := timeline c |}).
    exists (saveToProject item None t' today' projects).1,
      (saveToProject item None t' today' projects).2, item.
    split; [by destruct (saveToProject item None t' today' projects) |].
    split; [done |]. split; [done |].
    destruct projects as [|p0 l]; cbn [head].
    + assert (Hfind : List.find (project_wanted None) ([] : list (Project SavedItem))
                      = None) by done.
      rewrite (saveToProject_fresh _ _ _ _ _ Hfind). cbn [fst snd].
      split; [done |]. cbn. by rewrite decide_True.
    + assert (Hfind : List.find (project_wanted None) (p0 :: l) = Some p0) by done.
      rewrite (saveToProject_existing _ _ _ _ _ _ Hfind). cbn [fst snd].
      assert (Hall : ∀ j q, (p0 :: l) !! j = Some q →
                ((λ q0, if decide (project_id q0 = project_id p0)
                        then unshift_item item p0 else q0) <$> p0 :: l) !! j
                = Some (if decide (project_id q = project_id p0)
                        then unshift_item item p0 else q)).
      { intros j q Hq. by rewrite list_lookup_fmap, Hq. }
      split; [done |]. split; [by rewrite length_fmap |].
      split; [by rewrite (Hall 0%nat p0 eq_refl), decide_True |].
      split; [exact Hall |].
      intros Hn j Hj. destruct ((p0 :: l) !! j) as [q|] eqn:Hq.
      * rewrite (Hall j q Hq). rewrite decide_False; [done |].
        intros E. apply Hj. apply (NoDup_lookup _ _ _ (project_id q) Hn).
        -- by rewrite list_lookup_fmap, Hq.
        -- by rewrite E.
      * by rewrite list_lookup_fmap, Hq.
Qed.

Lemma handleSaveProject_target_witness :
  let trip := {| project_id := "1"; project_name := "Trip";
                 project_description := ""; project_createdAt := "1/1/2026";
                 project_items := [] |} in
  let general := {| project_id := "2"; project_name := "General";
                    project_description := "Default Project";
                    project_createdAt := "1/2/2026";
                    project_items := [] |} in
  ∃ saved alert first item,
    handleSaveProject (hooks scene_world) true 1700000000000 "1/4/2026"
      1700000000001 "1/4/2026" [trip; general]
    = Some (saved, alert)
    ∧ alert = "Saved to project: Trip"
    ∧ saved = [first; general]
    ∧ project_id first = "1"
    ∧ project_items first = [item]
    ∧ item_timeline item = timeline (hooks scene_world).
Proof.
  intros trip general.
  assert (Ht : timeline (hooks scene_world) ≠ []) by (vm_compute; discriminate).
  destruct (handleSaveProject_target (hooks scene_world) true 1700000000000
              "1/4/2026" 1700000000001 "1/4/2026" [trip; general]) as [_ H].
  destruct (H Ht) as (saved & alert & item & E & _ & Hi & Hm). clear H Ht.
  cbn [head] in Hm. destruct Hm as (Ha & Hl & H0 & _ & Hn).
  exists saved, alert, (unshift_item item trip), item.
  split; [exact E |]. clear E. split; [exact Ha |].
  split; [| split; [reflexivity | split; [reflexivity | exact Hi]]].
  clear Hi Ha.
  assert (Hd : NoDup (project_id <$> [trip; general])).
  { cbn. repeat constructor; set_solver. }
  assert (H1 : saved !! 1%nat = Some general).
  { rewrite (Hn Hd 1%nat) by lia. reflexivity. }
  clear Hn Hd.
  destruct saved as [|x [|y [|z saved]]]; try discriminate Hl.
  cbn in H0, H1. injection H0 as ->. injection H1 as ->. reflexivity.
Defined.

(** *** Further properties: narration for a scene that is gone *)

Lemma patch_id_absent (sceneId : string) (f : VideoScene → VideoScene)
    (l : list VideoScene) :
  sceneId ∉ Scene.id <$> l → patch_id sceneId f l = l.
Proof.
  unfold patch_id. induction l as [|s l IH]; [done |]. cbn.
  intros H. apply not_elem_of_cons in H as [H1 H2].
  rewrite decide_False by done. f_equal. by apply IH.
Qed.

(** X18.  The automatic narration addresses its scene by id, and it is
    not cancelled when the scene goes away.  If the scene is no longer in
    the timeline when the speech arrives, nothing is attached and no
    error is shown, yet the merge is still requested and carried out; its
    result is dropped as well. *)
Theorem narration_for_missing_scene (w : World) (c : Hooks) (newScene : VideoScene)
    (script : string) (rest : list task) (speechUrl mergedUrl : string) :
  tasks w = AwaitAutoSpeech c newScene script :: rest →
  Scene.id newScene ∉ Scene.id <$> timeline (hooks w) →
  ∃ w1 w2,
    step (Settle 0 (Text speechUrl)) w = Some w1
    ∧ timeline (hooks w1) = timeline (hooks w)
    ∧ error (hooks w1) = error (hooks w)
    ∧ calls w1 = CallMerge (Scene.url newScene) speechUrl :: calls w
    ∧ step (Settle 0 (Text mergedUrl)) w1 = Some w2
    ∧ timeline (hooks w2) = timeline (hooks w)
    ∧ merges w2
      = {| merged_asset := mergedUrl; merged_video := Scene.url newScene;
           merged_audio := speechUrl |} :: merges w
    ∧ tasks w2 = rest.
Proof.
  intros Ht Hid.
  assert (S1 : ∃ w1,
             step (Settle 0 (Text speechUrl)) w = Some w1
             ∧ timeline (hooks w1) = timeline (hooks w)
             ∧ error (hooks w1) = error (hooks w)
             ∧ calls w1 = CallMerge (Scene.url newScene) speechUrl :: calls w
             ∧ tasks w1
               = AwaitAutoMerge newScene (Scene.url newScene) speechUrl :: rest
             ∧ merges w1 = merges w).
  { rewrite (step_settle_head w _ _ _ Ht).
    cbv beta iota zeta delta [continue_task]. cbn [fmap option_fmap option_map].
    eexists. split; [reflexivity |]. rendered.
    split; [cbn; by rewrite patch_id_absent |]. by repeat split. }
  destruct S1 as (w1 & E1 & L1 & R1 & C1 & T1 & M1).
  assert (S2 : ∃ w2,
             step (Settle 0 (Text mergedUrl)) w1 = Some w2
             ∧ timeline (hooks w2) = timeline (hooks w1)
             ∧ merges w2
               = {| merged_asset := mergedUrl; merged_video := Scene.url newScene;
                    merged_audio := speechUrl |} :: merges w1
             ∧ tasks w2 = rest).
  { rewrite (step_settle_head w1 _ _ _ T1).
    cbv beta iota zeta delta [continue_task]. cbn [fmap option_fmap option_map].
    eexists. split; [reflexivity |]. rendered.
    split; [cbn; rewrite patch_id_absent; [done | by rewrite L1] |].
    by split. }
  destruct S2 as (w2 & E2 & L2 & M2 & T2).
  exists w1, w2. rewrite L2, M2, L1, M1. by repeat split.
Qed.

Lemma narration_for_missing_scene_witness :
  ∃ w1 w2,
    step (Settle 0 (Text "blob:a1")) orphan_audio_world = Some w1
    ∧ step (Settle 0 (Text "blob:m1")) w1 = Some w2
    ∧ timeline (hooks w2) = timeline (hooks orphan_audio_world)
    ∧ tasks w2 = [].
Proof.
  assert (∃ c s scr, tasks orphan_audio_world = AwaitAutoSpeech c s scr :: []
                     ∧ Scene.id s ∉ Scene.id <$> timeline (hooks orphan_audio_world))
    as (c & s & scr & Ht & Hid).
  { vm_compute. eexists _, _, _. split; [reflexivity |]. apply not_elem_of_nil. }
  destruct (narration_for_missing_scene orphan_audio_world c s scr [] "blob:a1"
              "blob:m1" Ht Hid)
    as (w1 & w2 & E1 & _ & _ & _ & E2 & L2 & _ & T2).
  exists w1, w2. split; [exact E1 |]. split; [exact E2 |].
  split; [exact L2 | exact T2].
Defined.

(** *** Further properties: the automatic mode cannot be entered *)

Lemma auto_frame_refl (w : World) : auto_frame w w.
Proof. by split. Qed.

Lemma auto_frame_trans (w1 w2 w3 : World) :
  auto_frame w1 w2 → auto_frame w2 w3 → auto_frame w1 w3.
Proof. intros [A1 B1] [A2 B2]. split; [auto | congruence]. Qed.

Lemma auto_frame_hooks (w w' : World) :
  isAutoGenerating (hooks w') = isAutoGenerating (hooks w) →
  isLooping (hooks w') = isLooping (hooks w) →
  auto_frame w w'.
Proof. intros A B. split; [congruence | done]. Qed.

Lemma isLooping_catch (e : JsError) (w : World) :
  isLooping (hooks (executeGeneration_catch e w)) = isLooping (hooks w).
Proof.
  unfold executeGeneration_catch.
  repeat match goal with
         | |- context [orb ?a ?b] => generalize (orb a b); intros ?
         end.
  repeat match goal with
         | |- context [includes ?a ?b] => generalize (includes a b); intros ?
         end.
  repeat case_match; simplify_eq; reflexivity.
Qed.

Lemma auto_frame_catch (e : JsError) (w : World) :
  auto_frame w (executeGeneration_catch e w).
Proof.
  apply auto_frame_hooks; [| apply isLooping_catch].
  by destruct (executeGeneration_catch_frame e w) as (_ & -> & _).
Qed.

Lemma auto_frame_executeGeneration (c : Hooks) (isChain : bool) (k : kont)
    (w : World) :
  auto_frame w (executeGeneration c isChain k w).1.
Proof.
  unfold executeGeneration. destruct (enhance c isChain) as [p|]; cbn [fst].
  - by apply auto_frame_hooks.
  - eapply auto_frame_trans; [| apply auto_frame_catch]. by apply auto_frame_hooks.
Qed.

Lemma auto_frame_off (w w' : World) :
  auto_frame w w' → auto_frame w (setIsAutoGenerating false w').
Proof. intros [_ B]. split; [done | exact B]. Qed.

Lemma auto_frame_loop_head (c : Hooks) (keepGoing : bool) (count : Z) (w : World) :
  auto_frame w (loop_head c keepGoing count w).
Proof.
  unfold loop_head. case_match; [| apply auto_frame_off, auto_frame_refl].
  pose proof (auto_frame_executeGeneration c true (K_loop count) w) as Hx.
  destruct (executeGeneration c true (K_loop count) w) as [w' b]. cbn in Hx.
  destruct b; [done | by apply auto_frame_off].
Qed.

Lemma auto_frame_loop_tail (c : Hooks) (count : Z) (w : World) :
  auto_frame w (loop_tail c count w).
Proof. unfold loop_tail. apply auto_frame_loop_head. Qed.

Lemma auto_frame_resume_kont (k : kont) (c : Hooks) (success : bool) (w : World) :
  auto_frame w (resume_kont k c success w).
Proof.
  destruct k as [|count]; [apply auto_frame_refl |].
  cbv beta iota zeta delta [resume_kont loop_after_generation].
  destruct success; cbn [negb]; [| apply auto_frame_off, auto_frame_refl].
  case_match; [by apply auto_frame_hooks | apply auto_frame_loop_tail].
Qed.

Lemma auto_frame_continue_task (t : task) (o : outcome) (w w' : World) :
  continue_task t o w = Some w' → auto_frame w w'.
Proof.
  intros H.
  destruct t as [c p k | c ns | c ns scr | ns v a | c i | c i txt | i v a],
           o as [u asset | txt' | err];
    cbv beta iota zeta delta [continue_task] in H; try discriminate;
    try (injection H as <-).
  - eapply auto_frame_trans; [| apply auto_frame_resume_kont].
    apply auto_frame_hooks; unfold executeGeneration_resume; by case_match.
  - eapply auto_frame_trans; [apply auto_frame_catch | apply auto_frame_resume_kont].
  - by apply auto_frame_hooks.
  - by apply auto_frame_hooks.
  - by apply auto_frame_hooks.
  - by apply auto_frame_hooks.
  - by apply auto_frame_hooks.
  - by apply auto_frame_hooks.
  - apply auto_frame_hooks; unfold voiceover_speak; by case_match.
  - apply auto_frame_hooks; unfold voiceover_catch; by case_match.
  - destruct (timeline c !! i); injection H as <-; by apply auto_frame_hooks.
  - apply auto_frame_hooks; unfold voiceover_catch; by case_match.
  - by apply auto_frame_hooks.
  - by apply auto_frame_hooks.
Qed.

Lemma auto_frame_handleSceneEnd (c : Hooks) (w : World) :
  auto_frame w (handleSceneEnd c w).
Proof.
  apply auto_frame_hooks; unfold handleSceneEnd, on_player;
    repeat case_match; reflexivity.
Qed.

Lemma auto_frame_step (e : event) (w w' : World) :
  step e w = Some w' → auto_frame w w'.
Proof.
  intros H. unfold step in H.
  destruct (handle e w) as [x|] eqn:E; [| discriminate].
  cbn in H. injection H as <-.
  assert (Hx : auto_frame w x); [| unfold auto_frame in *; by rendered].
  destruct e; cbn [handle] in E.
  - injection E as <-. by apply auto_frame_hooks.
  - injection E as <-. by apply auto_frame_hooks.
  - injection E as <-. by apply auto_frame_hooks.
  - injection E as <-. by apply auto_frame_hooks.
  - injection E as <-. apply auto_frame_hooks; unfold handleDurationChange;
      by case_bool_decide.
  - injection E as <-. apply auto_frame_hooks; by destruct confirmed.
  - injection E as <-. by apply auto_frame_hooks.
  - injection E as <-. by apply auto_frame_hooks.
  - injection E as <-. unfold handleStartGeneration.
    case_match; [apply auto_frame_refl |]. case_match.
    + eapply auto_frame_trans; [| apply auto_frame_executeGeneration].
      by apply auto_frame_hooks.
    + eapply auto_frame_trans; [| apply auto_frame_loop_head].
      by apply auto_frame_hooks.
  - injection E as <-. apply auto_frame_off. by apply auto_frame_hooks.
  - injection E as <-. apply auto_frame_hooks; unfold handleGenerateVoiceover,
      voiceover_speak, voiceover_catch; repeat case_match; reflexivity.
  - injection E as <-. apply auto_frame_hooks; unfold handlePlayAll;
      by case_bool_decide.
  - injection E as <-. by apply auto_frame_hooks.
  - injection E as <-. unfold onEnded. case_match.
    + eapply auto_frame_trans; [| apply auto_frame_handleSceneEnd].
      apply auto_frame_hooks; by destruct p.
    + apply auto_frame_hooks; by destruct p.
  - destruct (tasks w !! i) as [t|]; [| discriminate].
    apply auto_frame_continue_task in E.
    eapply auto_frame_trans; [| exact E]. by apply auto_frame_hooks.
  - destruct (take_timer tid (timers w)) as [[t rest]|]; [| discriminate].
    case_match; [| discriminate]. injection E as <-.
    unfold run_timer. destruct (action t).
    + by apply auto_frame_hooks.
    + eapply auto_frame_trans; [| apply auto_frame_loop_tail].
      by apply auto_frame_hooks.
  - destruct (effectTimer w) as [et|]; [| discriminate].
    case_match; [| discriminate]. injection E as <-.
    eapply auto_frame_trans; [| apply auto_frame_handleSceneEnd].
    by apply auto_frame_hooks.
  - case_match; [| discriminate]. injection E as <-.
    apply auto_frame_hooks; unfold coolDownTick; by case_match.
  - case_match; [| discriminate]. injection E as <-. by apply auto_frame_hooks.
Qed.

(** X19.  Nothing switches the automatic mode on or changes the loop
    setting: the component only ever lowers the first flag and never
    writes the second.  A component that is not in automatic mode stays out
    of it whatever happens, so its count field is never shown and a click
    on the start button runs a single generation. *)
Theorem auto_mode_never_entered (es : list event) (w w' : World) :
  run es w = Some w' →
  isAutoGenerating (hooks w) = false →
  isAutoGenerating (hooks w') = false
  ∧ isLooping (hooks w') = isLooping (hooks w)
  ∧ (∀ value, offered (SetAutoGenCount value) w' = false)
  ∧ handleStartGeneration (hooks w') w'
    = if 0 <? coolDown (hooks w') then w'
      else (executeGeneration (hooks w') false K_single
              (upd_stopAutoGenerationRef false w')).1.
Proof.
  intros H Ha.
  assert (F : auto_frame w w').
  { revert w H Ha. induction es as [|e es IH]; intros w H Ha.
    - cbn in H. injection H as <-. apply auto_frame_refl.
    - cbn [run] in H. destruct (step e w) as [w1|] eqn:E; [| discriminate].
      pose proof (auto_frame_step e w w1 E) as F1.
      eapply auto_frame_trans; [exact F1 |]. apply IH; [exact H |].
      destruct F1 as [F1 _]. destruct (isAutoGenerating (hooks w1)); [| done].
      rewrite F1 in Ha; done. }
  destruct F as [F1 F2].
  assert (A : isAutoGenerating (hooks w') = false).
  { destruct (isAutoGenerating (hooks w')); [| done]. rewrite F1 in Ha; done. }
  split; [exact A |]. split; [exact F2 |]. split; [intros v; exact A |].
  unfold handleStartGeneration. by rewrite A.
Qed.

Lemma auto_mode_never_entered_witness :
  isAutoGenerating (hooks movie_world) = false.
Proof.
  assert (E : run movie_events (mounted initial_hooks 1000) = Some movie_world)
    by (vm_compute; reflexivity).
  destruct (auto_mode_never_entered _ _ _ E) as [H _]; [reflexivity | exact H].
Defined.

(** *** Further properties: what the sequencer asks for *)

(** The request that [executeGeneration] makes is made from the hooks of
    the render that created it. *)
Lemma executeGeneration_calls (c : Hooks) (isChain : bool) (k : kont) (w : World)
    (p : string) :
  enhance c isChain = Some p →
  calls (executeGeneration c isChain k w).1
  = CallVideo {| req_prompt := p;
                 req_image := match last (timeline c) with
                              | Some _ => None
                              | None => selectedImage c
                              end;
                 req_style := stylePreset c;
                 req_asset := Scene.asset <$> last (timeline c) |} :: calls w.
Proof. intros H. unfold executeGeneration. by rewrite H. Qed.

Lemma loop_head_calls (c : Hooks) (count : Z) (w : World) (p : string) :
  enhance c true = Some p →
  stopAutoGenerationRef w = false →
  lt_num count (autoGenCount c) = true →
  calls (loop_head c true count w)
  = CallVideo {| req_prompt := p;
                 req_image := match last (timeline c) with
                              | Some _ => None
                              | None => selectedImage c
                              end;
                 req_style := stylePreset c;
                 req_asset := Scene.asset <$> last (timeline c) |} :: calls w.
Proof.
  intros He Hs Hl. unfold loop_head. rewrite Hs, Hl. cbn [andb negb].
  pose proof (executeGeneration_calls c true (K_loop count) w p He) as Hc.
  destruct (executeGeneration_suspends c true (K_loop count) w p He) as (Hb & _).
  destruct (executeGeneration c true (K_loop count) w) as [w' b].
  cbn in Hb, Hc. by subst b.
Qed.

Lemma loop_tail_calls (c : Hooks) (count : Z) (w : World) (p : string) :
  enhance c true = Some p →
  stopAutoGenerationRef w = false →
  lt_num count (autoGenCount c) = true →
  calls (loop_tail c count w)
  = CallVideo {| req_prompt := p;
                 req_image := match last (timeline c) with
                              | Some _ => None
                              | None => selectedImage c
                              end;
                 req_style := stylePreset c;
                 req_asset := Scene.asset <$> last (timeline c) |} :: calls w.
Proof.
  intros He Hs Hl. unfold loop_tail. rewrite Hs.
  assert (Hge : ge_num count (autoGenCount c) = false).
  { destruct (autoGenCount c); [| done]. simpl in *. lia. }
  rewrite Hge. cbn [orb]. by apply loop_head_calls.
Qed.

Lemma start_calls (w w1 : World) (p : string) :
  step StartGeneration w = Some w1 →
  coolDown (hooks w) ≤ 0 →
  isAutoGenerating (hooks w) = true →
  enhance (hooks w) true = Some p →
  lt_num 0 (autoGenCount (hooks w)) = true →
  calls w1
  = CallVideo {| req_prompt := p;
                 req_image := match last (timeline (hooks w)) with
                              | Some _ => None
                              | None => selectedImage (hooks w)
                              end;
                 req_style := stylePreset (hooks w);
                 req_asset := Scene.asset <$> last (timeline (hooks w)) |}
      :: calls w.
Proof.
  intros H Hc Ha He Hl. unfold step in H.
  cbn [handle fmap option_fmap option_map] in H. injection H as <-. rendered.
  unfold handleStartGeneration.
  replace (0 <? coolDown (hooks w)) with false by (symmetry; apply Z.ltb_ge; lia).
  rewrite Ha. cbn [negb].
  by rewrite (loop_head_calls _ _ _ p).
Qed.

Lemma success_calls (w w1 : World) (c : Hooks) (p u : string) (a : Asset)
    (count : Z) (rest : list task) :
  tasks w = AwaitVideo c p (K_loop count) :: rest →
  step (Settle 0 (Video u a)) w = Some w1 →
  lt_num (count + 1) (autoGenCount c) && negb (stopAutoGenerationRef w) = true →
  video_requests (calls w1) = video_requests (calls w).
Proof.
  intros Ht H Hl. rewrite (step_settle_head w _ _ _ Ht) in H.
  cbv beta iota zeta delta [continue_task] in H.
  cbn [fmap option_fmap option_map] in H. injection H as <-. rendered.
  cbv beta iota zeta delta [resume_kont loop_after_generation].
  change (negb true) with false. cbv iota.
  assert (E : stopAutoGenerationRef
                (executeGeneration_resume c p u a (upd_tasks rest w))
              = stopAutoGenerationRef w).
  { unfold executeGeneration_resume. by case_match. }
  rewrite E, Hl. cbn. unfold executeGeneration_resume. by case_match.
Qed.

Lemma fire_calls (w w1 : World) (tm : timer) (others : list timer) (c : Hooks)
    (count : Z) (p : string) :
  take_timer (timer_id tm) (timers w) = Some (tm, others) →
  action tm = ThrottleTimer c count →
  step (Fire (timer_id tm)) w = Some w1 →
  enhance c true = Some p →
  stopAutoGenerationRef w = false →
  lt_num count (autoGenCount c) = true →
  calls w1
  = CallVideo {| req_prompt := p;
                 req_image := match last (timeline c) with
                              | Some _ => None
                              | None => selectedImage c
                              end;
                 req_style := stylePreset c;
                 req_asset := Scene.asset <$> last (timeline c) |} :: calls w.
Proof.
  intros Htk Ha H He Hs Hl. unfold step in H. cbn [handle] in H.
  rewrite Htk in H. destruct (due tm <=? now w); [| discriminate].
  cbn [fmap option_fmap option_map] in H. injection H as <-. rendered.
  rewrite Ha. cbn [run_timer]. by rewrite (loop_tail_calls _ _ _ p).
Qed.

(** X20.  The sequencer keeps asking for the same thing.  Every pass of
    its loop runs in the render of the click, so the second request of a
    run is the first one over again: it extends the scene that was last
    when the run was started (or starts from the image), not the scene
    that the run has just added. *)
Theorem auto_run_repeats_request (h : Hooks) (t0 : Z) (p u : string) (a : Asset) :
  isAutoGenerating h = true →
  autoGenCount h = Num 3 →
  coolDown h ≤ 0 →
  isPlayingAll h = false →
  enhance h true = Some p →
  ∃ w r,
    run [StartGeneration; Settle 0 (Video u a); Elapse 5000; Fire 0]
      (mounted h t0) = Some w
    ∧ video_requests (calls w) = [r; r]
    ∧ req_asset r = Scene.asset <$> last (timeline h)
    ∧ req_image r = match last (timeline h) with
                    | Some _ => None
                    | None => selectedImage h
                    end
    ∧ req_prompt r = p
    ∧ ∃ s, last (timeline (hooks w)) = Some s ∧ Scene.asset s = a.
Proof.
  intros Hauto Hn Hcd Hpl Hen.
  set (w0 := mounted h t0).
  destruct (start_step w0 p) as
    (w1 & S1 & T1 & _ & L1 & P1 & M1 & Q1 & N1 & St1 & I1 & _).
  { exact Hcd. } { simpl. by rewrite Hauto. } { intros _. simpl. by rewrite Hn. }
  simpl in T1, L1, P1, M1, Q1, N1. rewrite Hauto in T1.
  specialize (I1 Hpl eq_refl).
  pose proof (start_calls w0 w1 p S1 Hcd Hauto Hen) as C1.
  specialize (C1 ltac:(simpl; by rewrite Hn)). simpl in C1.
  destruct (loop_success_step w1 h p u a 0 [] T1) as
    (w2 & S2 & L2 & _ & P2 & _ & T2 & N2 & St2 & _ & I2 & X2).
  rewrite P1 in P2. specialize (I2 (eq_trans P1 Hpl) I1).
  rewrite Hn, St1 in X2. simpl in X2. destruct X2 as (M2 & Q2 & A2).
  rewrite M1, Q1, N1 in M2.
  pose proof (success_calls w1 w2 h p u a 0 [] T1 S2) as C2.
  specialize (C2 ltac:(rewrite Hn, St1; reflexivity)).
  assert (S3 : step (Elapse 5000) w2 = Some (upd_now (now w2 + 5000) w2)).
  { apply step_elapse; [done |]. unfold none_due_before.
    rewrite M2, I2, N2, N1. simpl. by rewrite Z.leb_refl. }
  set (w3 := upd_now (now w2 + 5000) w2) in S3.
  set (tm := {| timer_id := 0; due := t0 + 5000; action := ThrottleTimer h 1 |}).
  assert (Tk : take_timer (timer_id tm) (timers w3) = Some (tm, [])).
  { subst w3. cbn. by rewrite M2. }
  destruct (throttle_fire_step w3 tm [] h 1 Tk eq_refl) as [_ F4].
  destruct F4 as (w4 & S4 & _ & L4 & _).
  { subst w3 tm. cbn. rewrite N2, N1. done. }
  pose proof (fire_calls w3 w4 tm [] h 1 p Tk eq_refl S4 Hen) as C4.
  specialize (C4 ltac:(subst w3; cbn; by rewrite St2, St1)
                 ltac:(by rewrite Hn)).
  eexists w4, _. split.
  { rewrite (run_cons _ _ _ _ S1), (run_cons _ _ _ _ S2), (run_cons _ _ _ _ S3),
      run_one. exact S4. }
  split.
  { rewrite C4. subst w3. cbn [calls upd_now video_requests]. rewrite C2, C1.
    reflexivity. }
  split; [reflexivity |]. split; [reflexivity |]. split; [reflexivity |].
  exists (newScene_of h p u a w1). split; [| reflexivity].
  rewrite L4. subst w3. cbn [hooks upd_now]. rewrite L2. apply last_snoc.
Qed.

Lemma auto_run_repeats_request_witness :
  ∃ w r,
    run [StartGeneration; Settle 0 (Video "blob:v1" "asset1"); Elapse 5000; Fire 0]
      (mounted auto_hooks 1000) = Some w
    ∧ video_requests (calls w) = [r; r]
    ∧ req_asset r = None.
Proof.
  destruct (auto_run_repeats_request auto_hooks 1000 "a cat" "blob:v1" "asset1")
    as (w & r & E & C & A & _);
    [reflexivity | reflexivity | vm_compute; discriminate | reflexivity
    | vm_compute; reflexivity |].
  exists w, r. split; [exact E |]. split; [exact C | exact A].
Defined.

(** *** Further properties: the two video elements in movie mode *)

(** In movie mode the effect drives the active player only. *)
Lemma playback_effect_other_player (w : World) (q : PlayerId) :
  isPlayingAll (hooks w) = true →
  q ≠ activePlayer (hooks w) →
  player q (playback_effect (cleanup w)) = player q w.
Proof.
  intros Hp Hq. unfold playback_effect, cleanup. cbn. rewrite Hp.
  destruct q, (activePlayer (hooks w)); try done;
    unfold on_player, player; repeat case_match; reflexivity.
Qed.

Lemma fire_effect_step (w : World) (et : effect_timer) :
  effectTimer w = Some et →
  et_due et ≤ now w →
  step FireEffectTimer w
  = Some (commit w (handleSceneEnd (et_closure et) (upd_effectTimer None w))).
Proof.
  intros He Hd. unfold step. cbn [handle]. rewrite He.
  by rewrite (proj2 (Z.leb_le _ _) Hd).
Qed.

Lemma not_last_scene (l : list VideoScene) (i : nat) (s : VideoScene) :
  l !! S i = Some s → (Z.of_nat i <? Z.of_nat (length l) - 1) = true.
Proof. intros H. apply lookup_lt_Some in H. apply Z.ltb_lt. lia. Qed.

(** X21.  The movie moves on without stopping what was playing.  When
    the active scene's time is up and the next scene is entered with a
    cut, the other player becomes the active one and the next index the
    active index; the player that was active is left exactly as it was, so
    a player that was playing in a loop goes on playing beside the new
    one. *)
Theorem cut_leaves_previous_player (w : World) (et : effect_timer)
    (next : VideoScene) :
  effectTimer w = Some et →
  et_due et ≤ now w →
  isPlayingAll (hooks w) = true →
  isPlayingAll (et_closure et) = true →
  activeSceneIndex (et_closure et) = activeSceneIndex (hooks w) →
  timeline (et_closure et) = timeline (hooks w) →
  timeline (hooks w) !! S (activeSceneIndex (hooks w)) = Some next →
  Scene.transition next = cut →
  ∃ w1,
    step FireEffectTimer w = Some w1
    ∧ activeSceneIndex (hooks w1) = S (activeSceneIndex (hooks w))
    ∧ activePlayer (hooks w1) = flip (activePlayer (hooks w))
    ∧ isPlayingAll (hooks w1) = true
    ∧ player (activePlayer (hooks w)) w1 = player (activePlayer (hooks w)) w
    ∧ et_due <$> effectTimer w1
      = Some (now w + Z.max 0 (num_or (Scene.duration next) 5 * 1000)).
Proof.
  intros He Hd Hp Hc1 Hc2 Hc3 Hn Ht.
  rewrite (fire_effect_step w et He Hd). eexists. split; [reflexivity |].
  set (c := et_closure et) in *.
  assert (E : handleSceneEnd c (upd_effectTimer None w)
              = setActivePlayer flip
                  (setActiveSceneIndex (S (activeSceneIndex (hooks w)))
                     (setTransitionType cut (upd_effectTimer None w)))).
  { unfold handleSceneEnd. rewrite Hc1, Hc2, Hc3.
    rewrite (not_last_scene _ _ _ Hn), Hn, Ht. by rewrite decide_False by auto. }
  rewrite E. clear E.
  set (w' := setActivePlayer flip _).
  assert (H1 : activeSceneIndex (hooks w') = S (activeSceneIndex (hooks w)))
    by reflexivity.
  assert (H2 : activePlayer (hooks w') = flip (activePlayer (hooks w)))
    by reflexivity.
  assert (H3 : isPlayingAll (hooks w') = isPlayingAll (hooks w)) by reflexivity.
  assert (H4 : ∀ q, player q w' = player q w) by (by intros []).
  assert (H5 : timeline (hooks w') = timeline (hooks w)) by reflexivity.
  assert (H6 : now w' = now w) by reflexivity.
  assert (Hd' : deps w ≠ deps w').
  { unfold deps. rewrite H1. intros X. injection X as X _. lia. }
  clearbody w'. rendered. rewrite H1, H2, H3, Hp.
  split; [done |]. split; [done |]. split; [done |].
  rewrite (commit_changed _ _ Hd').
  split.
  - rewrite playback_effect_other_player; [apply H4 | by rewrite H3 |].
    rewrite H2. by destruct (activePlayer (hooks w)).
  - destruct (playback_effect_playing w' next) as (_ & _ & _ & Het & _).
    + by rewrite H3.
    + by rewrite H1, H5.
    + rewrite Het. cbn. by rewrite H6.
Qed.

Lemma cut_leaves_previous_player_witness :
  ∃ w w1,
    run [PlayAll; Elapse 2000] movie_world = Some w
    ∧ step FireEffectTimer w = Some w1
    ∧ activePlayer (hooks w1) = PlayerB
    ∧ playing (videoPlayerA w1) = true
    ∧ loop (videoPlayerA w1) = true.
Proof.
  assert (∃ w et next,
            run [PlayAll; Elapse 2000] movie_world = Some w
            ∧ effectTimer w = Some et
            ∧ et_due et ≤ now w
            ∧ isPlayingAll (hooks w) = true
            ∧ isPlayingAll (et_closure et) = true
            ∧ activeSceneIndex (et_closure et) = activeSceneIndex (hooks w)
            ∧ timeline (et_closure et) = timeline (hooks w)
            ∧ timeline (hooks w) !! S (activeSceneIndex (hooks w)) = Some next
            ∧ Scene.transition next = cut
            ∧ activePlayer (hooks w) = PlayerA
            ∧ playing (videoPlayerA w) = true
            ∧ loop (videoPlayerA w) = true)
    as (w & et & next & E & H1 & H2 & H3 & H4 & H5 & H6 & H7 & H8 & A & P & L)
    by (vm_compute; eexists _, _, _; repeat split; (reflexivity || discriminate)).
  destruct (cut_leaves_previous_player w et next H1 H2 H3 H4 H5 H6 H7 H8)
    as (w1 & E1 & _ & Ha & _ & Hpl & _).
  exists w, w1. split; [exact E |]. split; [exact E1 |].
  rewrite A in Ha, Hpl. cbn in Hpl. rewrite Hpl.
  split; [exact Ha |]. split; [exact P | exact L].
Defined.

(** X22.  How a movie ends.  When the last scene's time is up and
    looping is off, movie mode is left and nothing else is reset: the
    active player stays the active one.  If that is player B, the element
    is not touched, so it keeps whatever it was doing, and it is the
    element that is shown. *)
Theorem movie_end_leaves_player_b (w : World) (et : effect_timer) :
  effectTimer w = Some et →
  et_due et ≤ now w →
  isPlayingAll (et_closure et) = true →
  isLooping (et_closure et) = false →
  S (activeSceneIndex (et_closure et)) = length (timeline (et_closure et)) →
  isPlayingAll (hooks w) = true →
  activePlayer (hooks w) = PlayerB →
  ∃ w1,
    step FireEffectTimer w = Some w1
    ∧ isPlayingAll (hooks w1) = false
    ∧ activePlayer (hooks w1) = PlayerB
    ∧ activeSceneIndex (hooks w1) = activeSceneIndex (hooks w)
    ∧ videoPlayerB w1 = videoPlayerB w
    ∧ effectTimer w1 = None
    ∧ timers w1 = timers w
    ∧ getPlayerClasses (hooks w1) PlayerB = base_classes +:+ " opacity-100 z-10"
    ∧ getPlayerClasses (hooks w1) PlayerA = base_classes +:+ " opacity-0 z-0".
Proof.
  intros He Hd Hc1 Hc2 Hc3 Hp Ha.
  rewrite (fire_effect_step w et He Hd). eexists. split; [reflexivity |].
  assert (E : handleSceneEnd (et_closure et) (upd_effectTimer None w)
              = setIsTransitioning false
                  (setIsPlayingAll false (upd_effectTimer None w))).
  { unfold handleSceneEnd. rewrite Hc1, Hc2.
    replace (Z.of_nat (activeSceneIndex (et_closure et))
             <? Z.of_nat (length (timeline (et_closure et))) - 1) with false;
      [done | symmetry; apply Z.ltb_ge; lia]. }
  rewrite E. clear E.
  set (w' := setIsTransitioning false _).
  assert (H1 : isPlayingAll (hooks w') = false) by reflexivity.
  assert (H2 : activePlayer (hooks w') = activePlayer (hooks w)) by reflexivity.
  assert (H3 : activeSceneIndex (hooks w') = activeSceneIndex (hooks w))
    by reflexivity.
  assert (H4 : videoPlayerB w' = videoPlayerB w) by reflexivity.
  assert (H5 : isTransitioning (hooks w') = false) by reflexivity.
  assert (H6 : effectTimer w' = None) by reflexivity.
  assert (H7 : timers w' = timers w) by reflexivity.
  clearbody w'. rendered.
  rewrite commit_videoPlayerB_idle by exact H1.
  rewrite (effectTimer_commit_idle _ _ H1 H6).
  unfold getPlayerClasses. rewrite H1, H2, H3, H4, H5, H7, Ha. cbn [negb].
  rewrite bool_decide_eq_true_2 by done. rewrite bool_decide_eq_false_2 by done.
  by repeat split.
Qed.

Lemma movie_end_leaves_player_b_witness :
  ∃ w w1,
    run [PlayAll; Elapse 2000; FireEffectTimer; Elapse 3000] movie_world = Some w
    ∧ step FireEffectTimer w = Some w1
    ∧ isPlayingAll (hooks w1) = false
    ∧ playing (videoPlayerB w1) = true
    ∧ loop (videoPlayerB w1) = true.
Proof.
  assert (∃ w et,
            run [PlayAll; Elapse 2000; FireEffectTimer; Elapse 3000] movie_world
            = Some w
            ∧ effectTimer w = Some et
            ∧ et_due et ≤ now w
            ∧ isPlayingAll (et_closure et) = true
            ∧ isLooping (et_closure et) = false
            ∧ S (activeSceneIndex (et_closure et)) = length (timeline (et_closure et))
            ∧ isPlayingAll (hooks w) = true
            ∧ activePlayer (hooks w) = PlayerB
            ∧ playing (videoPlayerB w) = true
            ∧ loop (videoPlayerB w) = true)
    as (w & et & E & H1 & H2 & H3 & H4 & H5 & H6 & H7 & P & L)
    by (vm_compute; eexists _, _; repeat split; (reflexivity || discriminate)).
  destruct (movie_end_leaves_player_b w et H1 H2 H3 H4 H5 H6 H7)
    as (w1 & E1 & Hp & _ & _ & Hb & _).
  exists w, w1. split; [exact E |]. split; [exact E1 |]. split; [exact Hp |].
  rewrite Hb. split; [exact P | exact L].
Defined.

(** X23.  What a fade shows.  When the active scene's time is up and
    the next scene is entered with a fade or a slide, a window of 800 ms
    is opened: the active index, the active player and both elements stay
    as they are, and the timeout that will make the change is set.  The
    page swaps the looks of the two players at once, so during a fade the
    player on show is the one that is not active, which has not been given
    the next scene yet. *)
Theorem fade_window_shows_other_player (w : World) (et : effect_timer)
    (next : VideoScene) :
  effectTimer w = Some et →
  et_due et ≤ now w →
  isPlayingAll (et_closure et) = true →
  timeline (et_closure et) !! S (activeSceneIndex (et_closure et)) = Some next →
  Scene.transition next ≠ cut →
  ∃ w1,
    step FireEffectTimer w = Some w1
    ∧ isTransitioning (hooks w1) = true
    ∧ transitionType (hooks w1) = Scene.transition next
    ∧ activeSceneIndex (hooks w1) = activeSceneIndex (hooks w)
    ∧ activePlayer (hooks w1) = activePlayer (hooks w)
    ∧ videoPlayerA w1 = videoPlayerA w ∧ videoPlayerB w1 = videoPlayerB w
    ∧ effectTimer w1 = None
    ∧ timers w1
      = {| timer_id := timerSeq w; due := now w + 800;
           action := TransitionTimer (S (activeSceneIndex (et_closure et))) |}
        :: timers w
    ∧ (Scene.transition next = fade →
       getPlayerClasses (hooks w1) (activePlayer (hooks w))
       = base_classes +:+ " opacity-0 z-0"
       ∧ getPlayerClasses (hooks w1) (flip (activePlayer (hooks w)))
         = base_classes +:+ " opacity-100 z-10").
Proof.
  intros He Hd Hc1 Hn Ht.
  rewrite (fire_effect_step w et He Hd). eexists. split; [reflexivity |].
  set (c := et_closure et) in *.
  assert (E : handleSceneEnd c (upd_effectTimer None w)
              = setTimeout (TransitionTimer (S (activeSceneIndex c))) 800
                  (setIsTransitioning true
                     (setTransitionType (Scene.transition next)
                        (upd_effectTimer None w)))).
  { unfold handleSceneEnd. rewrite Hc1.
    rewrite (not_last_scene _ _ _ Hn), Hn. by rewrite decide_True. }
  rewrite E. clear E.
  rewrite commit_same by reflexivity.
  cbn. repeat (split; [reflexivity |]).
  intros Hf. unfold getPlayerClasses. cbn. rewrite Hf.
  rewrite bool_decide_eq_true_2 by done.
  rewrite bool_decide_eq_false_2 by (by destruct (activePlayer (hooks w))).
  done.
Qed.

Lemma fade_window_shows_other_player_witness :
  ∃ w w1,
    run [ToggleTransition 1; PlayAll; Elapse 2000] movie_world = Some w
    ∧ step FireEffectTimer w = Some w1
    ∧ isTransitioning (hooks w1) = true
    ∧ src (videoPlayerB w1) = "".
Proof.
  assert (∃ w et next,
            run [ToggleTransition 1; PlayAll; Elapse 2000] movie_world = Some w
            ∧ effectTimer w = Some et
            ∧ et_due et ≤ now w
            ∧ isPlayingAll (et_closure et) = true
            ∧ timeline (et_closure et) !! S (activeSceneIndex (et_closure et))
              = Some next
            ∧ Scene.transition next ≠ cut
            ∧ src (videoPlayerB w) = "")
    as (w & et & next & E & H1 & H2 & H3 & H4 & H5 & B)
    by (vm_compute; eexists _, _, _; repeat split; (reflexivity || discriminate)).
  destruct (fade_window_shows_other_player w et next H1 H2 H3 H4 H5)
    as (w1 & E1 & Htr & _ & _ & _ & _ & Hb & _).
  exists w, w1. split; [exact E |]. split; [exact E1 |]. split; [exact Htr |].
  rewrite Hb. exact B.
Defined.

(** *** Further properties: the stop button and the count field *)

(** X24.  The stop button is shown during every generation, but outside
    the automatic mode it stops nothing: the click changes no hook and no
    pending work, the button stays as it is, and the generation in flight
    appends its scene when it arrives. *)
Theorem stop_is_inert_for_single_generation (w : World) (c : Hooks) (p u : string)
    (a : Asset) (rest : list task) :
  isAutoGenerating (hooks w) = false →
  tasks w = AwaitVideo c p K_single :: rest →
  ∃ w1 w2,
    step StopAuto w = Some w1
    ∧ hooks w1 = hooks w
    ∧ tasks w1 = tasks w ∧ timers w1 = timers w ∧ calls w1 = calls w
    ∧ offered StopAuto w1 = offered StopAuto w
    ∧ step (Settle 0 (Video u a)) w1 = Some w2
    ∧ timeline (hooks w2) = (timeline (hooks w) ++ [newScene_of c p u a w])%list
    ∧ isGenerating (hooks w2) = false
    ∧ tasks w2 = if isAutoAudio c
                 then AwaitAutoScript c (newScene_of c p u a w) :: rest
                 else rest.
Proof.
  intros Ha Ht.
  assert (S1 : ∃ w1, step StopAuto w = Some w1
                 ∧ hooks w1 = hooks w ∧ tasks w1 = tasks w ∧ timers w1 = timers w
                 ∧ calls w1 = calls w ∧ now w1 = now w).
  { unfold step. cbn [handle fmap option_fmap option_map].
    eexists. split; [reflexivity |]. rendered. unfold handleStopAuto.
    split; [| by repeat split].
    cbn. destruct (hooks w). cbn in Ha. by subst. }
  destruct S1 as (w1 & E1 & H1 & T1 & M1 & C1 & N1).
  exists w1. rewrite Ht in T1.
  assert (S2 : ∃ w2, step (Settle 0 (Video u a)) w1 = Some w2
                 ∧ timeline (hooks w2)
                   = (timeline (hooks w1) ++ [newScene_of c p u a w1])%list
                 ∧ isGenerating (hooks w2) = false
                 ∧ tasks w2 = if isAutoAudio c
                              then AwaitAutoScript c (newScene_of c p u a w1) :: rest
                              else rest).
  { rewrite (step_settle_head w1 _ _ _ T1).
    cbv beta iota zeta delta [continue_task resume_kont].
    cbn [fmap option_fmap option_map].
    eexists. split; [reflexivity |]. rendered.
    unfold executeGeneration_resume. by destruct (isAutoAudio c). }
  destruct S2 as (w2 & E2 & L2 & G2 & T2).
  exists w2.
  assert (En : newScene_of c p u a w1 = newScene_of c p u a w)
    by (unfold newScene_of; by rewrite N1).
  rewrite En, H1 in *.
  split; [exact E1 |]. split; [reflexivity |]. split; [by rewrite T1 |].
  split; [exact M1 |]. split; [exact C1 |].
  split; [unfold offered; by rewrite H1 |].
  by repeat split.
Qed.

Lemma stop_is_inert_for_single_generation_witness :
  ∃ w w1 w2,
    run [TypePrompt "a cat"; StartGeneration] (mounted initial_hooks 1000) = Some w
    ∧ step StopAuto w = Some w1
    ∧ step (Settle 0 (Video "blob:v1" "asset1")) w1 = Some w2
    ∧ length (timeline (hooks w2)) = 1%nat.
Proof.
  assert (∃ w c p,
            run [TypePrompt "a cat"; StartGeneration] (mounted initial_hooks 1000)
            = Some w
            ∧ isAutoGenerating (hooks w) = false
            ∧ tasks w = AwaitVideo c p K_single :: []
            ∧ timeline (hooks w) = [])
    as (w & c & p & E & Ha & Ht & Hl)
    by (vm_compute; eexists _, _, _; repeat split; reflexivity).
  destruct (stop_is_inert_for_single_generation w c p "blob:v1" "asset1" [] Ha Ht)
    as (w1 & w2 & E1 & _ & _ & _ & _ & _ & E2 & L2 & _).
  exists w, w1, w2. split; [exact E |]. split; [exact E1 |]. split; [exact E2 |].
  rewrite L2, Hl. reflexivity.
Defined.

(** X25.  The count field of the automatic mode stores a number from 1
    to 20, or no number at all when its text does not start with one, an
    emptied field for instance.  With no number stored a run makes no
    request: the loop is left at its first test and the mode is switched
    off. *)
Theorem auto_count_field (value : string) (w : World) :
  ∃ w1,
    step (SetAutoGenCount value) w = Some w1
    ∧ match autoGenCount (hooks w1) with
      | Num z => 1 ≤ z ≤ 20 ∧ ∃ n, parseInt value = Num n ∧ z = Z.max 1 (Z.min 20 n)
      | NaN => parseInt value = NaN
      end
    ∧ (autoGenCount (hooks w1) = NaN →
       isAutoGenerating (hooks w1) = true →
       coolDown (hooks w1) ≤ 0 →
       ∃ w2,
         step StartGeneration w1 = Some w2
         ∧ calls w2 = calls w1 ∧ tasks w2 = tasks w1
         ∧ timeline (hooks w2) = timeline (hooks w1)
         ∧ isAutoGenerating (hooks w2) = false).
Proof.
  unfold step. cbn [handle fmap option_fmap option_map].
  eexists. split; [reflexivity |]. split.
  - rendered.
    cbn [autoGenCount hooks setAutoGenCount on_hooks upd_hooks upd_autoGenCount].
    destruct (parseInt value) as [n|]; cbn [clamp_count]; [| done].
    split; [lia | by exists n].
  - generalize (commit w (setAutoGenCount (clamp_count (parseInt value)) w)).
    intros w1 Hn Ha Hc.
    eexists. split; [reflexivity |]. rendered.
    unfold handleStartGeneration.
    replace (0 <? coolDown (hooks w1)) with false by (symmetry; apply Z.ltb_ge; lia).
    rewrite Ha. cbn [negb]. unfold loop_head. cbn [hooks upd_stopAutoGenerationRef].
    rewrite Hn. cbn [lt_num]. rewrite andb_false_r. by repeat split.
Qed.

Lemma auto_count_field_witness :
  ∃ w1 w2,
    step (SetAutoGenCount "") (mounted auto_hooks 1000) = Some w1
    ∧ autoGenCount (hooks w1) = NaN
    ∧ step StartGeneration w1 = Some w2
    ∧ calls w2 = calls w1.
Proof.
  assert (∃ w1, step (SetAutoGenCount "") (mounted auto_hooks 1000) = Some w1
                ∧ autoGenCount (hooks w1) = NaN
                ∧ isAutoGenerating (hooks w1) = true
                ∧ coolDown (hooks w1) ≤ 0)
    as (w1 & E1 & Hn & Ha & Hc)
    by (vm_compute; eexists; repeat split; (reflexivity || discriminate)).
  destruct (auto_count_field "" (mounted auto_hooks 1000)) as (w1' & E & _ & H).
  rewrite E1 in E. injection E as <-.
  destruct (H Hn Ha Hc) as (w2 & E2 & C2 & _).
  exists w1, w2. split; [exact E1 |]. split; [exact Hn |].
  split; [exact E2 | exact C2].
Defined.
